(** * K-Vault Cloudreve adapter: mapping store, sync, download proxy, eviction

    A shallow embedding of the adapter's core (db.js, sync.js, cache.js and
    the one wrapper of cloudreve.js the core relies on), followed by the
    properties established about it.

    Conventions of the embedding.
    - A JavaScript string is the sequence of its UTF-16 code units
      ([jsstring]); the regular expressions of the source act on code units.
    - A JavaScript integer-valued number is a [Z] (exact below 2^53).
    - A text column holds the code units of the string bound to it, which
      is what SQLite gives back for every well-formed string (one without
      unpaired surrogate, [isWellFormed]).
    - [null]/[undefined] in an optional position is [None].
    - An [async] function is a computation in the monad [M]: it threads the
      mapping table and the state of the outside world (Cloudreve, Telegram,
      the clock), may throw, and emits the list of its interactions with the
      outside world in order.  Console logging is modelled only where the
      logged expression can throw (the log line of [runEviction]).
    - The database handle is assumed initialised ([initDb] was called) and
      the configuration loaded. *)

From Stdlib Require Import ZArith NArith List Bool Lia String Ascii.
From Stdlib.Strings Require Import Byte.
From Stdlib Require Import DecimalString.
Import ListNotations.
Open Scope Z_scope.

Set Implicit Arguments.

(* ================================================================== *)
(** ** JavaScript strings and the few built-ins the adapter uses       *)
(* ================================================================== *)

Module Js.

(** UTF-16 code units. *)
Definition jsstring := list N.

(** A source literal (ASCII) as a [jsstring]. *)
Definition lit (s : string) : jsstring :=
  map N_of_ascii (list_ascii_of_string s).
Arguments lit s%_string.

Fixpoint str_eqb (a b : jsstring) : bool :=
  match a, b with
  | [], [] => true
  | x :: a', y :: b' => N.eqb x y && str_eqb a' b'
  | _, _ => false
  end.

(** [s || d] on a possibly-null string: [null], [undefined] and the empty
    string are falsy. *)
Definition or_str (s : option jsstring) (d : jsstring) : jsstring :=
  match s with
  | Some (c :: r) => c :: r
  | _ => d
  end.

(** [n || d] on a possibly-undefined number: [undefined] and [0] are
    falsy. *)
Definition or_num (n : option Z) (d : Z) : Z :=
  match n with
  | Some v => if v =? 0 then d else v
  | None => d
  end.

(** [x ?? d]. *)
Definition nullish {A : Type} (x : option A) (d : A) : A :=
  match x with
  | Some v => v
  | None => d
  end.

(** Truthiness of a number. *)
Definition truthy_num (n : Z) : bool := negb (n =? 0).

(** [Math.floor(ms / 1000)]. *)
Definition floor_secs (ms : Z) : Z := ms / 1000.

Definition slash : N := 47%N.
Definition underscore : N := 95%N.

(** [s.replace(/\/+$/, '')]: drop every trailing slash. *)
Fixpoint strip_trailing_slashes (s : jsstring) : jsstring :=
  match s with
  | [] => []
  | c :: r =>
      match strip_trailing_slashes r with
      | [] => if N.eqb c slash then [] else [c]
      | r' => c :: r'
      end
  end.

(** The character class of [sanitizeFileName]'s first replacement: slash,
    backslash, colon, asterisk, question mark, double quote, less-than,
    greater-than and vertical bar. *)
Definition is_unsafe (c : N) : bool :=
  existsb (N.eqb c) [47; 92; 58; 42; 63; 34; 60; 62; 124]%N.

(** The class [\s] of ECMAScript: white space and line terminators. *)
Definition is_space (c : N) : bool :=
  existsb (N.eqb c)
    [9; 10; 11; 12; 13; 32; 160; 5760; 8232; 8233; 8239; 8287; 12288; 65279]%N
  || (N.leb 8192 c && N.leb c 8202).

(** The first replacement of [sanitizeFileName]: every code unit of the
    class [is_unsafe] becomes an underscore. *)
Definition replace_unsafe (s : jsstring) : jsstring :=
  map (fun c => if is_unsafe c then underscore else c) s.

(** [s.replace(/\s+/g, '_')]: every maximal run of white space becomes one
    underscore.  [in_run] tells that the previous code unit was white
    space. *)
Fixpoint replace_space_runs (in_run : bool) (s : jsstring) : jsstring :=
  match s with
  | [] => []
  | c :: r =>
      if is_space c
      then (if in_run then replace_space_runs true r
            else underscore :: replace_space_runs true r)
      else c :: replace_space_runs false r
  end.

(** [s.slice(0, n)] for [n >= 0]. *)
Definition slice0 (n : nat) (s : jsstring) : jsstring := firstn n s.

(** The backwards scan of Node's [path.posix.dirname]: [i] runs from
    [length - 1] down to [1]; the result is the index [end] of the slash
    that ends the directory part, if any. *)
Fixpoint dirname_end (path : jsstring) (i : nat) (matchedSlash : bool)
  : option nat :=
  match i with
  | O => None
  | S j =>
      if N.eqb (nth i path 0%N) slash
      then (if matchedSlash then dirname_end path j true else Some i)
      else dirname_end path j false
  end.

(** [path.posix.dirname] (Node's library function). *)
Definition posix_dirname (path : jsstring) : jsstring :=
  match path with
  | [] => lit "."
  | c0 :: _ =>
      let hasRoot := N.eqb c0 slash in
      match dirname_end path (List.length path - 1) true with
      | None => if hasRoot then lit "/" else lit "."
      | Some e =>
          if hasRoot && Nat.eqb e 1 then lit "//" else firstn e path
      end
  end.

(** Surrogate code units: high (D800 to DBFF) and low (DC00 to DFFF). *)
Definition is_high_surrogate (c : N) : bool :=
  N.leb 55296 c && N.leb c 56319.

Definition is_low_surrogate (c : N) : bool :=
  N.leb 56320 c && N.leb c 57343.

(** [s.toWellFormed()]: every surrogate that is not part of a pair becomes
    U+FFFD.  This is also what comes back of a string that went through
    UTF-8, as the text bound to an SQLite statement does. *)
Fixpoint toWellFormed (s : jsstring) : jsstring :=
  match s with
  | [] => []
  | c :: r =>
      if is_high_surrogate c
      then match r with
           | d :: r' =>
               if is_low_surrogate d then c :: d :: toWellFormed r'
               else 65533%N :: toWellFormed r
           | [] => [65533%N]
           end
      else if is_low_surrogate c then 65533%N :: toWellFormed r
      else c :: toWellFormed r
  end.

(** [s.isWellFormed()]. *)
Definition isWellFormed (s : jsstring) : bool := str_eqb (toWellFormed s) s.

(** The same for a string that may be [null]. *)
Definition isWellFormed_opt (s : option jsstring) : bool :=
  match s with
  | Some v => isWellFormed v
  | None => true
  end.

(** A value that is a string, [null] or [undefined]. *)
Inductive strval : Type :=
| Undefined
| Null
| Str (s : jsstring).

(** [String(v || d)] for such a value. *)
Definition string_or (v : strval) (d : jsstring) : jsstring :=
  match v with
  | Str (c :: r) => c :: r
  | _ => d
  end.

End Js.
Import Js.

(* ================================================================== *)
(** ** db.js: the [file_mappings] table and its SQL statements         *)
(* ================================================================== *)

Module Sql.

(** A row of [file_mappings], column by column. *)
Record Row : Type := mkRow {
  row_id              : Z;                 (* id INTEGER PRIMARY KEY AUTOINCREMENT *)
  cloudreve_file_id   : option jsstring;   (* TEXT *)
  cloudreve_path      : jsstring;          (* TEXT NOT NULL, unique index *)
  telegram_file_id    : jsstring;          (* TEXT NOT NULL *)
  telegram_message_id : option Z;          (* INTEGER *)
  file_name           : option jsstring;   (* TEXT *)
  file_size           : Z;                 (* INTEGER DEFAULT 0 *)
  mime_type           : option jsstring;   (* TEXT *)
  last_accessed       : Z;                 (* INTEGER DEFAULT 0 *)
  created_at          : Z;                 (* INTEGER NOT NULL *)
  has_local_cache     : Z                  (* INTEGER DEFAULT 1 *)
}.

(** The table: its rows in rowid order. *)
Definition table := list Row.

(** The argument object of [upsertMapping]; a field that the function
    reads through [??] may be missing. *)
Record MappingRecord : Type := mkRecord {
  cloudreveFileId   : option jsstring;
  rec_path          : jsstring;            (* record.cloudreve_path *)
  telegramFileId    : jsstring;
  telegramMessageId : option Z;
  fileName          : option jsstring;
  fileSize          : option Z;
  mimeType          : option jsstring;
  lastAccessed      : option Z;
  createdAt         : option Z;
  hasLocalCache     : option Z
}.

(** The test [cloudreve_path = ?] for a bound string [p], code unit by
    code unit.  SQLite compares the UTF-8 text, so this is the test of the
    database for every [p] that [isWellFormed]. *)
Definition path_is (p : jsstring) (r : Row) : bool :=
  str_eqb (cloudreve_path r) p.

(** [SELECT * FROM file_mappings WHERE cloudreve_path = ?], first row. *)
Definition select_by_path (p : jsstring) (t : table) : option Row :=
  find (path_is p) t.

(** [SELECT * FROM file_mappings WHERE cloudreve_file_id = ?], first row
    (a NULL column never compares equal). *)
Definition select_by_cloudreve_id (i : jsstring) (t : table) : option Row :=
  find (fun r => match cloudreve_file_id r with
                 | Some j => str_eqb j i
                 | None => false
                 end) t.

(** [UPDATE file_mappings SET ... WHERE cloudreve_path = ?]. *)
Definition update_where_path (f : Row -> Row) (p : jsstring) (t : table)
  : table :=
  map (fun r => if path_is p r then f r else r) t.

(** The rowid of an inserted row: one more than the largest rowid of the
    table (the adapter never deletes a row).  AUTOINCREMENT takes the
    number from its own counter, which can be ahead of the table; what
    the properties below use is that the new rowid is not in the table. *)
Definition next_row_id (t : table) : Z :=
  1 + fold_right Z.max 0 (map row_id t).

(** The values the statement of [upsertMapping] binds, as a row whose
    [row_id] is still to be assigned.  The strings are kept as bound; the
    database keeps their UTF-8 text, which is the same string whenever it
    [isWellFormed] (see [well_formed_record]). *)
Definition bound_values (record : MappingRecord) (created : Z) : Row :=
  {| row_id              := 0;
     cloudreve_file_id   := cloudreveFileId record;
     cloudreve_path      := rec_path record;
     telegram_file_id    := telegramFileId record;
     telegram_message_id := telegramMessageId record;
     file_name           := fileName record;
     file_size           := nullish (fileSize record) 0;
     mime_type           := mimeType record;
     last_accessed       := nullish (lastAccessed record) 0;
     created_at          := created;
     has_local_cache     := nullish (hasLocalCache record) 1 |}.

(** A record whose strings the database stores as they are: none holds
    an unpaired surrogate. *)
Definition well_formed_record (record : MappingRecord) : bool :=
  isWellFormed_opt (cloudreveFileId record)
  && isWellFormed (rec_path record)
  && isWellFormed (telegramFileId record)
  && isWellFormed_opt (fileName record)
  && isWellFormed_opt (mimeType record).

(** The [DO UPDATE SET] clause: every column of [excluded] except
    [created_at] (and the rowid and the path). *)
Definition do_update_set (excluded r : Row) : Row :=
  {| row_id              := row_id r;
     cloudreve_file_id   := cloudreve_file_id excluded;
     cloudreve_path      := cloudreve_path r;
     telegram_file_id    := telegram_file_id excluded;
     telegram_message_id := telegram_message_id excluded;
     file_name           := file_name excluded;
     file_size           := file_size excluded;
     mime_type           := mime_type excluded;
     last_accessed       := last_accessed excluded;
     created_at          := created_at r;
     has_local_cache     := has_local_cache excluded |}.

Definition with_row_id (i : Z) (r : Row) : Row :=
  {| row_id              := i;
     cloudreve_file_id   := cloudreve_file_id r;
     cloudreve_path      := cloudreve_path r;
     telegram_file_id    := telegram_file_id r;
     telegram_message_id := telegram_message_id r;
     file_name           := file_name r;
     file_size           := file_size r;
     mime_type           := mime_type r;
     last_accessed       := last_accessed r;
     created_at          := created_at r;
     has_local_cache     := has_local_cache r |}.

(** [INSERT ... ON CONFLICT(cloudreve_path) DO UPDATE SET ...]. *)
Definition insert_on_conflict_update (v : Row) (t : table) : table :=
  if existsb (path_is (cloudreve_path v)) t
  then update_where_path (do_update_set v) (cloudreve_path v) t
  else t ++ [with_row_id (next_row_id t) v].

Definition set_last_accessed (now : Z) (r : Row) : Row :=
  {| row_id              := row_id r;
     cloudreve_file_id   := cloudreve_file_id r;
     cloudreve_path      := cloudreve_path r;
     telegram_file_id    := telegram_file_id r;
     telegram_message_id := telegram_message_id r;
     file_name           := file_name r;
     file_size           := file_size r;
     mime_type           := mime_type r;
     last_accessed       := now;
     created_at          := created_at r;
     has_local_cache     := has_local_cache r |}.

Definition set_has_local_cache (c : Z) (r : Row) : Row :=
  {| row_id              := row_id r;
     cloudreve_file_id   := cloudreve_file_id r;
     cloudreve_path      := cloudreve_path r;
     telegram_file_id    := telegram_file_id r;
     telegram_message_id := telegram_message_id r;
     file_name           := file_name r;
     file_size           := file_size r;
     mime_type           := mime_type r;
     last_accessed       := last_accessed r;
     created_at          := created_at r;
     has_local_cache     := c |}.

(** The WHERE clause of [getStaleEntries]. *)
Definition is_stale (cutoff : Z) (r : Row) : bool :=
  (has_local_cache r =? 1)
  && (last_accessed r <? cutoff)
  && (0 <? last_accessed r).

Definition select_stale (cutoff : Z) (t : table) : list Row :=
  filter (is_stale cutoff) t.

(** [SELECT * FROM file_mappings WHERE has_local_cache = 0]. *)
Definition select_evicted (t : table) : list Row :=
  filter (fun r => has_local_cache r =? 0) t.

(** The unique index [idx_cloudreve_path]: no two rows share a path. *)
Definition unique_paths (t : table) : Prop :=
  NoDup (map cloudreve_path t).

(** How many rows are stored for a path. *)
Definition rows_for (p : jsstring) (t : table) : nat :=
  List.length (filter (path_is p) t).

End Sql.
Import Sql.

(* ================================================================== *)
(** ** Effects: exceptions, the outside world, the trace               *)
(* ================================================================== *)

Module Effects.

Definition Buffer := list byte.

(** A thrown [Error]: its message and its optional [status]. *)
Record js_error : Type := mkError {
  err_message : jsstring;
  err_status  : option Z
}.

(** How an awaited call ends. *)
Inductive outcome (A : Type) : Type :=
| Ok (a : A)
| Throw (e : js_error).
Arguments Ok {A} a.
Arguments Throw {A} e.

Definition is_ok {A} (o : outcome A) : bool :=
  match o with
  | Ok _ => true
  | Throw _ => false
  end.

(** How many of a list of calls returned, and how many threw. *)
Definition count_ok {A} (os : list (outcome A)) : Z :=
  Z.of_nat (List.length (filter is_ok os)).

Definition count_throw {A} (os : list (outcome A)) : Z :=
  Z.of_nat (List.length (filter (fun o => negb (is_ok o)) os)).

(** A node-fetch [Response], as far as the adapter looks at it. *)
Record Response : Type := mkResponse {
  ok           : bool;
  status       : Z;
  body         : outcome Buffer;      (* await res.buffer() *)
  content_type : option jsstring      (* res.headers.get('content-type') *)
}.

(** An entry of a Cloudreve directory listing. *)
Record DirObject : Type := mkDirObject {
  obj_name   : jsstring;
  obj_type   : jsstring;
  obj_fileId : jsstring;
  obj_size   : option Z
}.

(** Argument of [CloudreveClient.uploadFile]. *)
Record CrUploadArgs : Type := mkCrUploadArgs {
  up_filePath : jsstring;
  up_fileName : jsstring;
  up_fileSize : Z;
  up_mimeType : jsstring;
  up_data     : Buffer
}.

(** Argument and result of [TelegramClient.uploadFile]. *)
Record TgUploadArgs : Type := mkTgUploadArgs {
  tg_data     : Buffer;
  tg_fileName : jsstring;
  tg_mimeType : jsstring;
  tg_fileSize : Z;
  tg_caption  : jsstring
}.

Record TgUploaded : Type := mkTgUploaded {
  fileId    : jsstring;
  messageId : option Z
}.

(** Result of [TelegramClient.downloadFile]. *)
Record TgDownloaded : Type := mkTgDownloaded {
  dl_buffer   : Buffer;
  dl_mimeType : jsstring
}.

(** One interaction with the outside world, with its result. *)
Inductive event : Type :=
| EvDateNow (ms : Z)
| EvCrCreateDirectory (dirPath : jsstring) (r : outcome unit)
| EvCrListDirectory (dirPath : jsstring) (r : outcome (option (list DirObject)))
| EvCrDownloadFile (id : option jsstring) (r : outcome Response)
| EvCrUploadFile (a : CrUploadArgs) (r : outcome jsstring)
| EvCrDeleteFile (filePath : jsstring) (r : outcome unit)
| EvTgUploadFile (a : TgUploadArgs) (r : outcome TgUploaded)
| EvTgDownloadFile (id : jsstring) (r : outcome TgDownloaded).

(** The external collaborators over a state [E] of the outside world: the
    clock, the Cloudreve client and the Telegram client.  Every call may
    change that state and may throw.  A listing that is nullish or has
    nullish [objects] is [None]. *)
Record Env (E : Type) : Type := mkEnv {
  date_now           : E -> Z * E;
  cr_createDirectory : jsstring -> E -> outcome unit * E;
  cr_listDirectory   : jsstring -> E -> outcome (option (list DirObject)) * E;
  cr_downloadFile    : option jsstring -> E -> outcome Response * E;
  cr_uploadFile      : CrUploadArgs -> E -> outcome jsstring * E;
  cr_deleteFile      : jsstring -> E -> outcome unit * E;
  tg_uploadFile      : TgUploadArgs -> E -> outcome TgUploaded * E;
  tg_downloadFile    : jsstring -> E -> outcome TgDownloaded * E
}.

(** The adapter's process state: the mapping table and the outside. *)
Record World (E : Type) : Type := mkWorld {
  w_db  : table;
  w_ext : E
}.

(** The part of [getConfig()] the core reads. *)
Record Config : Type := mkConfig {
  inboxPath     : jsstring;
  baseUrl       : jsstring;
  cacheIdleDays : Z
}.

Section Monad.
Context {E : Type}.

Definition M (A : Type) : Type :=
  World E -> outcome A * World E * list event.

Definition ret {A} (a : A) : M A := fun w => (Ok a, w, []).

Definition throw {A} (e : js_error) : M A := fun w => (Throw e, w, []).

Definition bind {A B} (m : M A) (k : A -> M B) : M B :=
  fun w =>
    match m w with
    | (Ok a, w1, t1) =>
        let '(r, w2, t2) := k a w1 in (r, w2, t1 ++ t2)
    | (Throw e, w1, t1) => (Throw e, w1, t1)
    end.

(** [try { m } catch (e) { h e }]. *)
Definition try_catch {A} (m : M A) (h : js_error -> M A) : M A :=
  fun w =>
    match m w with
    | (Ok a, w1, t1) => (Ok a, w1, t1)
    | (Throw e, w1, t1) =>
        let '(r, w2, t2) := h e w1 in (r, w2, t1 ++ t2)
    end.

(** Awaiting a promise that is already settled. *)
Definition await {A} (o : outcome A) : M A := fun w => (o, w, []).

Definition read_db {A} (q : table -> A) : M A :=
  fun w => (Ok (q (w_db w)), w, []).

Definition write_db (f : table -> table) : M unit :=
  fun w => (Ok tt, {| w_db := f (w_db w); w_ext := w_ext w |}, []).

(** A call to a collaborator, recorded in the trace. *)
Definition call {A} (f : E -> outcome A * E) (ev : outcome A -> event)
  : M A :=
  fun w =>
    let '(r, e') := f (w_ext w) in
    (r, {| w_db := w_db w; w_ext := e' |}, [ev r]).

(** [for (const x of xs) acc = body(acc, x)]. *)
Fixpoint for_of {A B} (body : B -> A -> M B) (xs : list A) (acc : B)
  : M B :=
  match xs with
  | [] => ret acc
  | x :: xs' => bind (body acc x) (for_of body xs')
  end.

End Monad.
Arguments M E A : clear implicits.

Module Notations.
Notation "x <- m ;; k" := (bind m (fun x => k))
  (at level 61, m at next level, right associativity).
Notation "m ;;; k" := (bind m (fun _ => k))
  (at level 61, right associativity).
End Notations.

Section Calls.
Context {E : Type} (env : Env E).

(** [Date.now()]. *)
Definition Date_now : M E Z :=
  fun w =>
    let '(ms, e') := date_now env (w_ext w) in
    (Ok ms, {| w_db := w_db w; w_ext := e' |}, [EvDateNow ms]).

(** [Math.floor(Date.now() / 1000)]. *)
Definition now_secs : M E Z := bind Date_now (fun ms => ret (floor_secs ms)).

End Calls.

End Effects.
Import Effects.
Import Effects.Notations.

(* ================================================================== *)
(** ** db.js: the exported functions                                   *)
(* ================================================================== *)

Module Db.
Section Db.
Context {E : Type} (env : Env E).

(** [upsertMapping(record)]: the clock is read only when
    [record.createdAt] is missing. *)
Definition upsertMapping (record : MappingRecord) : M E unit :=
  created <- match createdAt record with
             | Some c => ret c
             | None => now_secs env
             end ;;
  write_db (insert_on_conflict_update (bound_values record created)).

Definition getMappingByPath (cloudreve_path : jsstring)
  : M E (option Row) :=
  read_db (select_by_path cloudreve_path).

Definition getMappingByCloudreveId (cloudreveFileId : jsstring)
  : M E (option Row) :=
  read_db (select_by_cloudreve_id cloudreveFileId).

Definition touchMapping (cloudreve_path : jsstring) : M E unit :=
  now <- now_secs env ;;
  write_db (update_where_path (set_last_accessed now) cloudreve_path).

Definition markEvicted (cloudreve_path : jsstring) : M E unit :=
  write_db (update_where_path (set_has_local_cache 0) cloudreve_path).

Definition markCached (cloudreve_path : jsstring) : M E unit :=
  now <- now_secs env ;;
  write_db (update_where_path
              (fun r => set_last_accessed now (set_has_local_cache 1 r))
              cloudreve_path).

Definition getStaleEntries (thresholdSeconds : Z) : M E (list Row) :=
  now <- now_secs env ;;
  let cutoff := now - thresholdSeconds in
  read_db (select_stale cutoff).

Definition getEvictedEntries : M E (list Row) :=
  read_db select_evicted.

End Db.
End Db.

(* ================================================================== *)
(** ** cloudreve.js and telegram.js: the calls the core makes          *)
(* ================================================================== *)

Module Cloudreve.
Section Cloudreve.
Context {E : Type} (env : Env E).

Definition createDirectory (dirPath : jsstring) : M E unit :=
  call (cr_createDirectory env dirPath) (EvCrCreateDirectory dirPath).

(** [ensureDirectory]: [createDirectory] with every error swallowed. *)
Definition ensureDirectory (dirPath : jsstring) : M E unit :=
  try_catch (createDirectory dirPath) (fun _ => ret tt).

Definition listDirectory (dirPath : jsstring)
  : M E (option (list DirObject)) :=
  call (cr_listDirectory env dirPath) (EvCrListDirectory dirPath).

Definition downloadFile (fileId : option jsstring) : M E Response :=
  call (cr_downloadFile env fileId) (EvCrDownloadFile fileId).

Definition uploadFile (a : CrUploadArgs) : M E jsstring :=
  call (cr_uploadFile env a) (EvCrUploadFile a).

Definition deleteFile (filePath : jsstring) : M E unit :=
  call (cr_deleteFile env filePath) (EvCrDeleteFile filePath).

End Cloudreve.
End Cloudreve.

Module Telegram.
Section Telegram.
Context {E : Type} (env : Env E).

Definition uploadFile (a : TgUploadArgs) : M E TgUploaded :=
  call (tg_uploadFile env a) (EvTgUploadFile a).

Definition downloadFile (fileId : jsstring) : M E TgDownloaded :=
  call (tg_downloadFile env fileId) (EvTgDownloadFile fileId).

End Telegram.
End Telegram.

(* ================================================================== *)
(** ** sync.js: sync, download proxy, import                           *)
(* ================================================================== *)

Module Sync.

(** [{synced, errors}]. *)
Record SyncResult : Type := mkSyncResult {
  synced : Z;
  errors : Z
}.

(** [{buffer, fileName, mimeType}] as [downloadProxy] returns it. *)
Record DownloadResult : Type := mkDownloadResult {
  out_buffer   : Buffer;
  out_fileName : option jsstring;
  out_mimeType : jsstring
}.

(** The options object of [importFromTelegram]. *)
Record ImportOpts : Type := mkImportOpts {
  opt_telegramFileId    : jsstring;
  opt_telegramMessageId : option Z;
  opt_fileName          : strval;
  opt_mimeType          : option jsstring;
  opt_fileSize          : option Z
}.

(** [{cloudreve_path, tgFileId, directLink}]. *)
Record ImportResult : Type := mkImportResult {
  res_cloudreve_path : jsstring;
  tgFileId           : jsstring;
  directLink         : jsstring
}.

Definition octet_stream : jsstring := lit "application/octet-stream".

Definition sanitizeFileName (name : strval) : jsstring :=
  slice0 200
    (replace_space_runs false
       (replace_unsafe (string_or name (lit "file")))).

(** The rule the sanitizer is expected to follow, written out code unit
    by code unit and in one pass: each of the nine unsafe characters
    becomes an underscore, each maximal run of white space becomes a single
    underscore, every other code unit is kept.  [in_run] tells that the
    previous code unit was white space.  It is compared with
    [sanitizeFileName] below. *)
Fixpoint sanitize_rule (in_run : bool) (s : jsstring) : jsstring :=
  match s with
  | [] => []
  | c :: r =>
      if is_space c
      then (if in_run then sanitize_rule true r
            else underscore :: sanitize_rule true r)
      else (if is_unsafe c then underscore else c) :: sanitize_rule false r
  end.

Definition buildCloudreveLink (baseUrl filePath : jsstring) : jsstring :=
  baseUrl ++ lit "/s" ++ filePath.

(** The template [`${dir.replace(/\/+$/, '')}/${name}`] that
    [syncNewUploads] and [importFromTelegram] both use. *)
Definition join_path (dir name : jsstring) : jsstring :=
  strip_trailing_slashes dir ++ lit "/" ++ name.

(** The destination path [importFromTelegram] computes. *)
Definition destPath (cfg : Config) (fileName : strval) : jsstring :=
  join_path (inboxPath cfg) (sanitizeFileName fileName).

(** An import whose destination path, sanitized name and Telegram file id
    the database stores as they are. *)
Definition well_formed_import (cfg : Config) (opts : ImportOpts) : bool :=
  isWellFormed (destPath cfg (opt_fileName opts))
  && isWellFormed (sanitizeFileName (opt_fileName opts))
  && isWellFormed (opt_telegramFileId opts).

(** The MIME type of the cache-hit branch of [downloadProxy]:
    [fileRes.headers.get('content-type') || mapping.mime_type ||
    'application/octet-stream']. *)
Definition cache_hit_mimeType (fileRes : Response) (mapping : Row)
  : jsstring :=
  or_str (content_type fileRes)
         (or_str (mime_type mapping) octet_stream).

Section Sync.
Context {E : Type} (env : Env E) (cfg : Config).

(** The body of the loop of [syncNewUploads]; the accumulator holds the
    two counters. *)
Definition sync_file (targetDir : jsstring) (acc : SyncResult)
    (file : DirObject) : M E SyncResult :=
  let filePath := join_path targetDir (obj_name file) in
  existing <- Db.getMappingByPath filePath ;;
  match existing with
  | Some _ => ret acc
  | None =>
      try_catch
        (let cloudreveFileId := obj_fileId file in
         fileRes <- Cloudreve.downloadFile env (Some cloudreveFileId) ;;
         if negb (ok fileRes)
         then ret {| synced := synced acc; errors := errors acc + 1 |}
         else
           buffer <- await (body fileRes) ;;
           let mimeType := or_str (content_type fileRes) octet_stream in
           up <- Telegram.uploadFile env
                   {| tg_data     := buffer;
                      tg_fileName := obj_name file;
                      tg_mimeType := mimeType;
                      tg_fileSize := Z.of_nat (List.length buffer);
                      tg_caption  :=
                        lit "Synced from Cloudreve: " ++ filePath |} ;;
           accessed <- now_secs env ;;
           created <- now_secs env ;;
           Db.upsertMapping env
             {| cloudreveFileId   := Some cloudreveFileId;
                rec_path          := filePath;
                telegramFileId    := fileId up;
                telegramMessageId := messageId up;
                fileName          := Some (obj_name file);
                fileSize          :=
                  Some (or_num (obj_size file)
                               (Z.of_nat (List.length buffer)));
                mimeType          := Some mimeType;
                lastAccessed      := Some accessed;
                createdAt         := Some created;
                hasLocalCache     := Some 1 |} ;;;
           ret {| synced := synced acc + 1; errors := errors acc |})
        (fun _ =>
           ret {| synced := synced acc; errors := errors acc + 1 |})
  end.

Definition syncNewUploads (dirPath : option jsstring) : M E SyncResult :=
  let targetDir := or_str dirPath (inboxPath cfg) in
  Cloudreve.ensureDirectory env targetDir ;;;
  listing <- Cloudreve.listDirectory env targetDir ;;
  let files :=
    filter (fun o => str_eqb (obj_type o) (lit "file"))
           (nullish listing []) in
  for_of (sync_file targetDir) files {| synced := 0; errors := 0 |}.

(** Case A of [downloadProxy]: [Some] when the function returns from
    inside the [try], [None] when control falls through to case B. *)
Definition cache_hit (mapping : Row) : M E (option DownloadResult) :=
  if truthy_num (has_local_cache mapping)
  then
    try_catch
      (fileRes <- Cloudreve.downloadFile env (cloudreve_file_id mapping) ;;
       if ok fileRes
       then
         buffer <- await (body fileRes) ;;
         ret (Some {| out_buffer   := buffer;
                      out_fileName := file_name mapping;
                      out_mimeType := cache_hit_mimeType fileRes mapping |})
       else ret None)
      (fun _ => ret None)
  else ret None.

(** Case B of [downloadProxy]. *)
Definition restore (cloudreve_path : jsstring) (mapping : Row)
  : M E DownloadResult :=
  dl <- Telegram.downloadFile env (telegram_file_id mapping) ;;
  let buffer := dl_buffer dl in
  let mimeType := or_str (mime_type mapping) (dl_mimeType dl) in
  let fileName := or_str (file_name mapping) (lit "file") in
  let parentDir := or_str (Some (posix_dirname cloudreve_path)) (lit "/") in
  Cloudreve.ensureDirectory env parentDir ;;;
  try_catch
    (newCloudreveId <- Cloudreve.uploadFile env
                         {| up_filePath := cloudreve_path;
                            up_fileName := fileName;
                            up_fileSize := Z.of_nat (List.length buffer);
                            up_mimeType := mimeType;
                            up_data     := buffer |} ;;
     accessed <- now_secs env ;;
     Db.upsertMapping env
       {| cloudreveFileId   := Some newCloudreveId;
          rec_path          := cloudreve_path;
          telegramFileId    := telegram_file_id mapping;
          telegramMessageId := telegram_message_id mapping;
          fileName          := Some fileName;
          fileSize          := Some (Z.of_nat (List.length buffer));
          mimeType          := Some mimeType;
          lastAccessed      := Some accessed;
          createdAt         := Some (created_at mapping);
          hasLocalCache     := Some 1 |})
    (fun _ => Db.markEvicted cloudreve_path) ;;;
  ret {| out_buffer   := buffer;
         out_fileName := Some fileName;
         out_mimeType := mimeType |}.

Definition downloadProxy (cloudreve_path : jsstring)
  : M E DownloadResult :=
  mapping <- Db.getMappingByPath cloudreve_path ;;
  match mapping with
  | None =>
      throw {| err_message :=
                 lit "No mapping found for path: " ++ cloudreve_path;
               err_status := Some 404 |}
  | Some mapping =>
      Db.touchMapping env cloudreve_path ;;;
      hit <- cache_hit mapping ;;
      match hit with
      | Some result => ret result
      | None => restore cloudreve_path mapping
      end
  end.

Definition importFromTelegram (opts : ImportOpts) : M E ImportResult :=
  let inboxDir := inboxPath cfg in
  let safeName := sanitizeFileName (opt_fileName opts) in
  let destPath := join_path inboxDir safeName in
  existing <- Db.getMappingByPath destPath ;;
  match existing with
  | Some existing =>
      ret {| res_cloudreve_path := destPath;
             tgFileId           := telegram_file_id existing;
             directLink         := buildCloudreveLink (baseUrl cfg) destPath |}
  | None =>
      Cloudreve.ensureDirectory env inboxDir ;;;
      dl <- Telegram.downloadFile env (opt_telegramFileId opts) ;;
      let buffer := dl_buffer dl in
      let finalMime := or_str (opt_mimeType opts) (dl_mimeType dl) in
      cloudreveFileId <- Cloudreve.uploadFile env
                           {| up_filePath := destPath;
                              up_fileName := safeName;
                              up_fileSize := Z.of_nat (List.length buffer);
                              up_mimeType := finalMime;
                              up_data     := buffer |} ;;
      accessed <- now_secs env ;;
      created <- now_secs env ;;
      Db.upsertMapping env
        {| cloudreveFileId   := Some cloudreveFileId;
           rec_path          := destPath;
           telegramFileId    := opt_telegramFileId opts;
           telegramMessageId := opt_telegramMessageId opts;
           fileName          := Some safeName;
           fileSize          :=
             Some (or_num (opt_fileSize opts)
                          (Z.of_nat (List.length buffer)));
           mimeType          := Some finalMime;
           lastAccessed      := Some accessed;
           createdAt         := Some created;
           hasLocalCache     := Some 1 |} ;;;
      ret {| res_cloudreve_path := destPath;
             tgFileId           := opt_telegramFileId opts;
             directLink         := buildCloudreveLink (baseUrl cfg) destPath |}
  end.

End Sync.
End Sync.

(* ================================================================== *)
(** ** cache.js: the eviction pass                                     *)
(* ================================================================== *)

Module Cache.

(** [{evicted, errors}]. *)
Record EvictionResult : Type := mkEvictionResult {
  evicted : Z;
  errors  : Z
}.

(** The trace of a loop over [entries] whose deletions ended as [outs]. *)
Definition delete_events (entries : list Row) (outs : list (outcome unit))
  : list event :=
  map (fun eo => EvCrDeleteFile (cloudreve_path (fst eo)) (snd eo))
      (combine entries outs).

(** Whether [new Date(secs * 1000)] holds a time value: JavaScript dates
    reach 8.64e15 milliseconds either side of the epoch, and
    [toISOString()] throws a RangeError on a date outside that range. *)
Definition valid_time (secs : Z) : bool :=
  Z.abs (secs * 1000) <=? 8640000000000000.

(** The RangeError of [toISOString()]. *)
Definition invalid_time_value : js_error :=
  {| err_message := lit "Invalid time value"; err_status := None |}.

(** How the loop of [runEviction] counts an entry whose deletion ended as
    the second component says: in [evicted] when the deletion returned and
    the log line after it could be written, in [errors] otherwise. *)
Definition counts_as_evicted (eo : Row * outcome unit) : bool :=
  is_ok (snd eo) && valid_time (last_accessed (fst eo)).

Definition counts_as_error (eo : Row * outcome unit) : bool :=
  negb (counts_as_evicted eo).

(** The two counters after a loop over [entries] whose deletions ended as
    [outs]. *)
Definition count_evicted (entries : list Row) (outs : list (outcome unit))
  : Z :=
  Z.of_nat (List.length (filter counts_as_evicted (combine entries outs))).

Definition count_errors (entries : list Row) (outs : list (outcome unit))
  : Z :=
  Z.of_nat (List.length (filter counts_as_error (combine entries outs))).

Section Cache.
Context {E : Type} (env : Env E) (cfg : Config).

(** The log line of an eviction, [console.log(`... (last accessed
    ${new Date(entry.last_accessed * 1000).toISOString()})`)]: it prints,
    or throws what [toISOString()] throws. *)
Definition log_evicted (entry : Row) : M E unit :=
  if valid_time (last_accessed entry) then ret tt
  else throw invalid_time_value.

(** The body of the loop of [runEviction]. *)
Definition evict_entry (acc : EvictionResult) (entry : Row)
  : M E EvictionResult :=
  try_catch
    (Cloudreve.deleteFile env (cloudreve_path entry) ;;;
     Db.markEvicted (cloudreve_path entry) ;;;
     log_evicted entry ;;;
     ret {| evicted := evicted acc + 1; errors := errors acc |})
    (fun _ => ret {| evicted := evicted acc; errors := errors acc + 1 |}).

Definition runEviction : M E EvictionResult :=
  let idleSecs := cacheIdleDays cfg * 24 * 60 * 60 in
  stale <- Db.getStaleEntries env idleSecs ;;
  match stale with
  | [] => ret {| evicted := 0; errors := 0 |}
  | _ => for_of evict_entry stale {| evicted := 0; errors := 0 |}
  end.

End Cache.
End Cache.

(* ================================================================== *)
(** ** Concrete worlds                                                 *)
(* ================================================================== *)

(** Scripted collaborators on which the functions above can be run.  The
    state of the outside world is the clock in milliseconds; every network
    call takes one second. *)
Module Scenario.

Record Script : Type := mkScript {
  s_listing     : outcome (option (list DirObject));
  s_download    : Z -> outcome Response;      (* by the time of the call *)
  s_upload      : Z -> outcome jsstring;
  s_delete      : jsstring -> outcome unit;   (* by the path *)
  s_tg_upload   : outcome TgUploaded;
  s_tg_download : Z -> outcome TgDownloaded
}.

Definition env_of (s : Script) : Env Z :=
  {| date_now           := fun t => (t, t);
     cr_createDirectory := fun _ t => (Ok tt, t + 1000);
     cr_listDirectory   := fun _ t => (s_listing s, t + 1000);
     cr_downloadFile    := fun _ t => (s_download s t, t + 1000);
     cr_uploadFile      := fun _ t => (s_upload s t, t + 1000);
     cr_deleteFile      := fun p t => (s_delete s p, t + 1000);
     tg_uploadFile      := fun _ t => (s_tg_upload s, t + 1000);
     tg_downloadFile    := fun _ t => (s_tg_download s t, t + 1000) |}.

Definition cfg : Config :=
  {| inboxPath     := lit "/TelegramInbox";
     baseUrl       := lit "http://cloudreve:5212";
     cacheIdleDays := 7 |}.

(** 2023-11-14T22:13:20Z. *)
Definition t0 : Z := 1700000000000.

Definition day_ms : Z := 24 * 60 * 60 * 1000.

Definition pdf_bytes : Buffer := [x25; x50; x44; x46].

Definition boom : js_error :=
  {| err_message := lit "ECONNRESET"; err_status := None |}.

Definition report : DirObject :=
  {| obj_name   := lit "report.pdf";
     obj_type   := lit "file";
     obj_fileId := lit "cf-1";
     obj_size   := Some 4 |}.

Definition report_path : jsstring := lit "/TelegramInbox/report.pdf".

Definition png_response : Response :=
  {| ok           := true;
     status       := 200;
     body         := Ok pdf_bytes;
     content_type := Some (lit "image/png") |}.

Definition tg_pdf : TgDownloaded :=
  {| dl_buffer := pdf_bytes; dl_mimeType := lit "application/pdf" |}.

(** Every call succeeds. *)
Definition happy : Script :=
  {| s_listing     := Ok (Some [report]);
     s_download    := fun _ => Ok png_response;
     s_upload      := fun _ => Ok (lit "cf-2");
     s_delete      := fun _ => Ok tt;
     s_tg_upload   := Ok {| fileId := lit "sec-42"; messageId := Some 7 |};
     s_tg_download := fun _ => Ok tg_pdf |}.

(** The primary store refuses every upload. *)
Definition upload_fails : Script :=
  {| s_listing     := Ok (Some [report]);
     s_download    := fun _ => Ok png_response;
     s_upload      := fun _ => Throw boom;
     s_delete      := fun _ => Ok tt;
     s_tg_upload   := Ok {| fileId := lit "sec-42"; messageId := Some 7 |};
     s_tg_download := fun _ => Ok tg_pdf |}.

(** Downloads from the primary store fail during the first four seconds,
    downloads from the secondary store during the first two. *)
Definition flaky : Script :=
  {| s_listing     := Ok (Some [report]);
     s_download    := fun t => if t <? t0 + 4000 then Throw boom
                               else Ok png_response;
     s_upload      := fun _ => Ok (lit "cf-2");
     s_delete      := fun _ => Ok tt;
     s_tg_upload   := Ok {| fileId := lit "sec-42"; messageId := Some 7 |};
     s_tg_download := fun t => if t <? t0 + 2000 then Throw boom
                               else Ok tg_pdf |}.

(** The primary store refuses to delete one path. *)
Definition stuck_path : jsstring := lit "/TelegramInbox/b.txt".

Definition delete_mixed : Script :=
  {| s_listing     := Ok (Some [report]);
     s_download    := fun _ => Ok png_response;
     s_upload      := fun _ => Ok (lit "cf-2");
     s_delete      := fun p => if str_eqb p stuck_path then Throw boom
                               else Ok tt;
     s_tg_upload   := Ok {| fileId := lit "sec-42"; messageId := Some 7 |};
     s_tg_download := fun _ => Ok tg_pdf |}.

(** A mapping of [report_path], stored with MIME type [text/plain]. *)
Definition report_row (cached : Z) : Row :=
  {| row_id              := 1;
     cloudreve_file_id   := Some (lit "cf-1");
     cloudreve_path      := report_path;
     telegram_file_id    := lit "sec-42";
     telegram_message_id := Some 7;
     file_name           := Some (lit "report.pdf");
     file_size           := 4;
     mime_type           := Some (lit "text/plain");
     last_accessed       := 1690000000;
     created_at          := 1680000000;
     has_local_cache     := cached |}.

Definition stuck_row : Row :=
  {| row_id              := 2;
     cloudreve_file_id   := Some (lit "cf-9");
     cloudreve_path      := stuck_path;
     telegram_file_id    := lit "sec-43";
     telegram_message_id := None;
     file_name           := Some (lit "b.txt");
     file_size           := 1;
     mime_type           := None;
     last_accessed       := 1690000001;
     created_at          := 1680000001;
     has_local_cache     := 1 |}.

(** The row a sync of [report] writes into an empty table at [t0]. *)
Definition synced_report_row : Row :=
  {| row_id              := 1;
     cloudreve_file_id   := Some (lit "cf-1");
     cloudreve_path      := report_path;
     telegram_file_id    := lit "sec-42";
     telegram_message_id := Some 7;
     file_name           := Some (lit "report.pdf");
     file_size           := 4;
     mime_type           := Some (lit "image/png");
     last_accessed       := 1700000004;
     created_at          := 1700000004;
     has_local_cache     := 1 |}.

(** The upload [downloadProxy] attempts when it restores [report_row]. *)
Definition restore_upload : CrUploadArgs :=
  {| up_filePath := report_path;
     up_fileName := lit "report.pdf";
     up_fileSize := 4;
     up_mimeType := lit "text/plain";
     up_data     := pdf_bytes |}.

Definition w_empty : World Z := {| w_db := []; w_ext := t0 |}.
Definition w_cold : World Z := {| w_db := [report_row 0]; w_ext := t0 |}.
Definition w_hot : World Z := {| w_db := [report_row 1]; w_ext := t0 |}.
Definition w_two : World Z :=
  {| w_db := [report_row 1; stuck_row]; w_ext := t0 |}.

(** Two records for the same path that differ in every other field. *)
Definition rec_first : MappingRecord :=
  {| cloudreveFileId   := Some (lit "cf-001");
     rec_path          := lit "/inbox/test.pdf";
     telegramFileId    := lit "tg-file-001";
     telegramMessageId := Some 42;
     fileName          := Some (lit "test.pdf");
     fileSize          := Some 12345;
     mimeType          := Some (lit "application/pdf");
     lastAccessed      := Some 1700000000;
     createdAt         := Some 1700000000;
     hasLocalCache     := Some 1 |}.

Definition rec_second : MappingRecord :=
  {| cloudreveFileId   := Some (lit "cf-002");
     rec_path          := lit "/inbox/test.pdf";
     telegramFileId    := lit "tg-file-002";
     telegramMessageId := Some 43;
     fileName          := Some (lit "renamed.pdf");
     fileSize          := Some 54321;
     mimeType          := Some (lit "text/plain");
     lastAccessed      := Some 1700000500;
     createdAt         := Some 1700000500;
     hasLocalCache     := Some 0 |}.

Definition import_opts : Sync.ImportOpts :=
  {| Sync.opt_telegramFileId    := lit "sec-42";
     Sync.opt_telegramMessageId := Some 7;
     Sync.opt_fileName          := Str (lit "report.pdf");
     Sync.opt_mimeType          := Some (lit "application/pdf");
     Sync.opt_fileSize          := Some 4 |}.

(** The components of a run. *)
Definition result_of {A} (x : outcome A * World Z * list event)
  : outcome A := fst (fst x).
Definition world_of {A} (x : outcome A * World Z * list event)
  : World Z := snd (fst x).
Definition trace_of {A} (x : outcome A * World Z * list event)
  : list event := snd x.

(** The same table, [ms] milliseconds later. *)
Definition later (ms : Z) (w : World Z) : World Z :=
  {| w_db := w_db w; w_ext := w_ext w + ms |}.

End Scenario.

(* ================================================================== *)
(** ** routes.js and cloudreve.js: path and header helpers             *)
(* ================================================================== *)

Module Routes.

(** The class [\w] without the unicode and ignore-case flags. *)
Definition is_word (c : N) : bool :=
  (N.leb 48 c && N.leb c 57)
  || (N.leb 65 c && N.leb c 90)
  || (N.leb 97 c && N.leb c 122)
  || N.eqb c underscore.

(** A code unit the replacement of [encodeRFC5987] keeps: a word
    character, white space, a dot or a hyphen. *)
Definition is_kept (c : N) : bool :=
  is_word c || is_space c || N.eqb c 46 || N.eqb c 45.

(** [encodeRFC5987(str)]: [String(str || '')] with every other code unit
    replaced by an underscore. *)
Definition encodeRFC5987 (str : option jsstring) : jsstring :=
  map (fun c => if is_kept c then c else underscore) (or_str str []).

(** [s.replace(/\/[^/]+$/, '')]: cut the last slash and the non-empty,
    slash-free rest of the string after it, if the string ends so. *)
Fixpoint strip_last_segment (s : jsstring) : jsstring :=
  match s with
  | [] => []
  | c :: r =>
      if N.eqb c slash
         && negb (Nat.eqb (List.length r) 0)
         && forallb (fun x => negb (N.eqb x slash)) r
      then []
      else c :: strip_last_segment r
  end.

(** [filePath.replace(/\/[^/]+$/, '') || '/']: the directory the Cloudreve
    webhook handler syncs, that [CloudreveClient.uploadFile] uploads into
    and that [statFile] lists. *)
Definition parent_dir (filePath : jsstring) : jsstring :=
  or_str (Some (strip_last_segment filePath)) (lit "/").

End Routes.

(* ================================================================== *)
(** ** bot.js: media extraction                                        *)
(* ================================================================== *)

Module Bot.

(** An element of [message.photo]. *)
Record PhotoSize : Type := mkPhotoSize {
  ph_file_id   : jsstring;
  ph_file_size : option Z
}.

(** The object under [message.document], [message.video], ... *)
Record MediaData : Type := mkMediaData {
  md_file_id   : option jsstring;
  md_file_name : option jsstring;
  md_mime_type : option jsstring;
  md_file_size : option Z
}.

(** A Telegram message, as far as [extractMedia] reads it; [photo] is
    [None] when the field is not an array. *)
Record Message : Type := mkMessage {
  message_id : option Z;
  photo      : option (list PhotoSize);
  document   : option MediaData;
  video      : option MediaData;
  audio      : option MediaData;
  voice      : option MediaData;
  animation  : option MediaData;
  video_note : option MediaData;
  sticker    : option MediaData;
  chat_id    : option Z                  (* message.chat?.id *)
}.

(** [{fileId, fileName, mimeType, fileSize}]. *)
Record Media : Type := mkMedia {
  media_fileId   : jsstring;
  media_fileName : jsstring;
  media_mimeType : jsstring;
  media_fileSize : Z
}.

(** An entry of the [candidates] table, with the field it names. *)
Record Candidate : Type := mkCandidate {
  key          : jsstring;
  field        : Message -> option MediaData;
  fallbackMime : jsstring;
  fallbackExt  : jsstring
}.

Definition candidates : list Candidate :=
  [ mkCandidate (lit "document")   document   (lit "application/octet-stream") (lit "bin");
    mkCandidate (lit "video")      video      (lit "video/mp4")  (lit "mp4");
    mkCandidate (lit "audio")      audio      (lit "audio/mpeg") (lit "mp3");
    mkCandidate (lit "voice")      voice      (lit "audio/ogg")  (lit "ogg");
    mkCandidate (lit "animation")  animation  (lit "video/mp4")  (lit "mp4");
    mkCandidate (lit "video_note") video_note (lit "video/mp4")  (lit "mp4");
    mkCandidate (lit "sticker")    sticker    (lit "image/webp") (lit "webp") ].

(** An integer in a template literal: its decimal digits.  JavaScript
    prints these for every safe integer (at most 2^53 - 1 =
    9007199254740991 in absolute value); a larger number is printed from
    the shortest digits that identify it and, from 1e21 on, with an
    exponent. *)
Definition number_to_string (n : Z) : jsstring :=
  lit (NilZero.string_of_int (Z.to_int n)).

(** [s.split('.').pop()]: what follows the last dot, or all of [s]. *)
Definition last_segment (s : jsstring) : jsstring :=
  fold_left (fun acc c => if N.eqb c 46 then [] else acc ++ [c]) s [].

(** The callback of the [reduce] over [message.photo]. *)
Definition larger (a b : PhotoSize) : PhotoSize :=
  if or_num (ph_file_size b) 0 <? or_num (ph_file_size a) 0 then a else b.

(** Whether [message.photo] is a non-empty array. *)
Definition has_photo (m : Message) : bool :=
  match photo m with
  | Some (_ :: _) => true
  | _ => false
  end.

(** Whether the object a candidate names carries a truthy [file_id]. *)
Definition has_file (m : Message) (c : Candidate) : bool :=
  match field c m with
  | Some data =>
      match md_file_id data with
      | Some (_ :: _) => true
      | _ => false
      end
  | None => false
  end.

(** Whether a message carries something [extractMedia] can return. *)
Definition has_media (message : option Message) : bool :=
  match message with
  | None => false
  | Some m => has_photo m || existsb (has_file m) candidates
  end.

(** An update, as far as [handleUpdate] reads it. *)
Record Update : Type := mkUpdate {
  upd_message  : option Message;      (* update.message *)
  channel_post : option Message
}.

(** [update?.message || update?.channel_post]. *)
Definition message_of (update : option Update) : option Message :=
  match update with
  | None => None
  | Some u =>
      match upd_message u with
      | Some m => Some m
      | None => channel_post u
      end
  end.

(** Argument of [TelegramClient.sendMessage]. *)
Record SendArgs : Type := mkSendArgs {
  chatId           : option Z;
  text             : jsstring;
  replyToMessageId : option Z
}.

(** The interactions of the bot: those of the adapter core and the
    messages it sends. *)
Inductive bot_event : Type :=
| EvCore (e : event)
| EvTgSendMessage (a : SendArgs) (r : outcome unit).

(** The collaborators of the bot: those of the core and
    [TelegramClient.sendMessage]. *)
Record BotEnv (E : Type) : Type := mkBotEnv {
  core           : Env E;
  tg_sendMessage : SendArgs -> E -> outcome unit * E
}.

(** The text of the reply after a successful import: four lines joined by
    a line feed; the first starts with U+2705. *)
Definition success_text (media : Media) (result : Sync.ImportResult)
  : jsstring :=
  ([9989%N] ++ lit " File imported successfully")
  ++ [10%N] ++ (lit "Name: " ++ media_fileName media)
  ++ [10%N] ++ (lit "Cloudreve path: " ++ Sync.res_cloudreve_path result)
  ++ [10%N] ++ (lit "Link: " ++ Sync.directLink result).

(** The text of the reply after a failure; it starts with U+274C. *)
Definition failure_text (err : js_error) : jsstring :=
  [10060%N] ++ lit " Import failed: " ++ err_message err.

Section Bot.
Context {E : Type} (env : Env E).

(** [message.message_id || Date.now()]. *)
Definition id_or_now (message : Message) : M E Z :=
  match message_id message with
  | Some n => if n =? 0 then Date_now env else ret n
  | None => Date_now env
  end.

(** The body of the loop over [candidates] once [data.file_id] is known to
    be truthy. *)
Definition from_candidate (message : Message) (c : Candidate)
    (data : MediaData) (file_id : jsstring) : M E Media :=
  let mimeType := or_str (md_mime_type data) (fallbackMime c) in
  let ext :=
    or_str (Some (last_segment (or_str (md_file_name data) [])))
           (fallbackExt c) in
  fileName <- match md_file_name data with
              | Some (ch :: r) => ret (ch :: r)
              | _ =>
                  n <- id_or_now message ;;
                  ret (key c ++ lit "_" ++ number_to_string n
                       ++ lit "." ++ ext)
              end ;;
  ret {| media_fileId   := file_id;
         media_fileName := fileName;
         media_mimeType := mimeType;
         media_fileSize := or_num (md_file_size data) 0 |}.

(** The loop over [candidates]: the first one whose object has a truthy
    [file_id] is returned. *)
Fixpoint first_candidate (message : Message) (cs : list Candidate)
  : M E (option Media) :=
  match cs with
  | [] => ret None
  | c :: cs' =>
      match field c message with
      | Some data =>
          match md_file_id data with
          | Some (ch :: r) =>
              m <- from_candidate message c data (ch :: r) ;;
              ret (Some m)
          | _ => first_candidate message cs'
          end
      | None => first_candidate message cs'
      end
  end.

Definition extractMedia (message : option Message) : M E (option Media) :=
  match message with
  | None => ret None
  | Some message =>
      match photo message with
      | Some (p :: ps) =>
          let photo := fold_left larger ps p in
          n <- id_or_now message ;;
          ret (Some {| media_fileId   := ph_file_id photo;
                       media_fileName :=
                         lit "photo_" ++ number_to_string n ++ lit ".jpg";
                       media_mimeType := lit "image/jpeg";
                       media_fileSize := or_num (ph_file_size photo) 0 |})
      | _ => first_candidate message candidates
      end
  end.

(** The options [handleUpdate] passes to [importFromTelegram] for an
    extracted medium. *)
Definition import_opts_of (message : Message) (media : Media)
  : Sync.ImportOpts :=
  {| Sync.opt_telegramFileId    := media_fileId media;
     Sync.opt_telegramMessageId := message_id message;
     Sync.opt_fileName          := Str (media_fileName media);
     Sync.opt_mimeType          := Some (media_mimeType media);
     Sync.opt_fileSize          := Some (media_fileSize media) |}.

End Bot.

Section Handler.
Context {E : Type} (benv : BotEnv E) (cfg : Config).

(** Computations of the bot: as [M], with the bot's trace. *)
Definition B (A : Type) : Type :=
  World E -> outcome A * World E * list bot_event.

Definition b_ret {A} (a : A) : B A := fun w => (Ok a, w, []).

Definition b_bind {A C} (m : B A) (k : A -> B C) : B C :=
  fun w =>
    match m w with
    | (Ok a, w1, t1) =>
        let '(r, w2, t2) := k a w1 in (r, w2, t1 ++ t2)
    | (Throw e, w1, t1) => (Throw e, w1, t1)
    end.

Definition b_try_catch {A} (m : B A) (h : js_error -> B A) : B A :=
  fun w =>
    match m w with
    | (Ok a, w1, t1) => (Ok a, w1, t1)
    | (Throw e, w1, t1) =>
        let '(r, w2, t2) := h e w1 in (r, w2, t1 ++ t2)
    end.

(** A computation of the core, run by the bot. *)
Definition lift {A} (m : M E A) : B A :=
  fun w => let '(r, w1, t1) := m w in (r, w1, map EvCore t1).

Definition sendMessage (a : SendArgs) : B unit :=
  fun w =>
    let '(r, e1) := tg_sendMessage benv a (w_ext w) in
    (r, {| w_db := w_db w; w_ext := e1 |}, [EvTgSendMessage a r]).

Definition handleUpdate (update : option Update) : B unit :=
  match message_of update with
  | None => b_ret tt
  | Some message =>
      b_bind (lift (extractMedia (core benv) (Some message))) (fun media =>
        match media with
        | None => b_ret tt
        | Some media =>
            b_try_catch
              (b_bind
                 (lift (Sync.importFromTelegram (core benv) cfg
                          (import_opts_of message media)))
                 (fun result =>
                    sendMessage
                      {| chatId           := chat_id message;
                         text             := success_text media result;
                         replyToMessageId := message_id message |}))
              (fun err =>
                 b_try_catch
                   (sendMessage
                      {| chatId           := chat_id message;
                         text             := failure_text err;
                         replyToMessageId := message_id message |})
                   (fun _ => b_ret tt))
        end)
  end.

(** The messages sent, as a trace shows them. *)
Definition sent (evs : list bot_event) : list SendArgs :=
  flat_map (fun e => match e with
                     | EvTgSendMessage a _ => [a]
                     | EvCore _ => []
                     end) evs.

End Handler.
End Bot.

(* ================================================================== *)
(** ** Concrete messages and a concrete bot                            *)
(* ================================================================== *)

Module Examples.
Import Scenario.

Definition no_media : Bot.MediaData :=
  {| Bot.md_file_id := None; Bot.md_file_name := None;
     Bot.md_mime_type := None; Bot.md_file_size := None |}.

Definition some_document : Bot.MediaData :=
  {| Bot.md_file_id   := Some (lit "doc-1");
     Bot.md_file_name := Some (lit "notes.txt");
     Bot.md_mime_type := Some (lit "text/plain");
     Bot.md_file_size := Some 12 |}.

(** A video without name and MIME type. *)
Definition bare_video : Bot.MediaData :=
  {| Bot.md_file_id   := Some (lit "vid-1");
     Bot.md_file_name := None;
     Bot.md_mime_type := None;
     Bot.md_file_size := Some 10 |}.

Definition small_photo : Bot.PhotoSize :=
  {| Bot.ph_file_id := lit "ph-s"; Bot.ph_file_size := Some 100 |}.
Definition big_photo : Bot.PhotoSize :=
  {| Bot.ph_file_id := lit "ph-b"; Bot.ph_file_size := Some 900 |}.
Definition unsized_photo : Bot.PhotoSize :=
  {| Bot.ph_file_id := lit "ph-u"; Bot.ph_file_size := None |}.

(** A text message. *)
Definition text_message : Bot.Message :=
  {| Bot.message_id := Some 76; Bot.photo := None;
     Bot.document := None; Bot.video := None; Bot.audio := None;
     Bot.voice := None; Bot.animation := None; Bot.video_note := None;
     Bot.sticker := None; Bot.chat_id := Some 5 |}.

(** A message with three photo sizes and a document. *)
Definition photo_message : Bot.Message :=
  {| Bot.message_id := Some 77;
     Bot.photo := Some [small_photo; big_photo; unsized_photo];
     Bot.document := Some some_document;
     Bot.video := None; Bot.audio := None;
     Bot.voice := None; Bot.animation := None; Bot.video_note := None;
     Bot.sticker := None; Bot.chat_id := Some 5 |}.

(** A message whose document object has no file id and that carries a
    video. *)
Definition video_message : Bot.Message :=
  {| Bot.message_id := Some 78; Bot.photo := Some [];
     Bot.document := Some no_media;
     Bot.video := Some bare_video; Bot.audio := None;
     Bot.voice := None; Bot.animation := None; Bot.video_note := None;
     Bot.sticker := None; Bot.chat_id := Some 5 |}.

Definition video_candidate : Bot.Candidate :=
  Bot.mkCandidate (lit "video") Bot.video (lit "video/mp4") (lit "mp4").

Definition video_update : Bot.Update :=
  {| Bot.upd_message := None; Bot.channel_post := Some video_message |}.

Definition text_update : Bot.Update :=
  {| Bot.upd_message := Some text_message; Bot.channel_post := None |}.

(** A bot whose every [sendMessage] throws, over the world in which every
    other call succeeds. *)
Definition mute_bot : Bot.BotEnv Z :=
  {| Bot.core := env_of happy;
     Bot.tg_sendMessage := fun _ t => (Throw boom, t + 1000) |}.

(** The world [w_hot], two seconds later. *)
Definition w_hot_later : World Z := later 2000 w_hot.

End Examples.

(* ================================================================== *)
(** ** Reading a trace                                                 *)
(* ================================================================== *)

Module Trace.

Definition is_tg_upload_ok (e : event) : bool :=
  match e with
  | EvTgUploadFile _ (Ok _) => true
  | _ => false
  end.

(** How many uploads to the secondary store a trace holds that returned. *)
Definition tg_uploads (evs : list event) : Z :=
  Z.of_nat (List.length (filter is_tg_upload_ok evs)).

(** The test [o.type === 'file'] of [syncNewUploads]. *)
Definition is_file (o : DirObject) : bool :=
  str_eqb (obj_type o) (lit "file").

End Trace.

(* ================================================================== *)
(** * Properties                                                       *)
(* ================================================================== *)

(** ** Strings *)

Lemma str_eqb_eq (a b : jsstring) : str_eqb a b = true <-> a = b.
Proof.
  revert b; induction a as [|x a IH]; intros [|y b]; simpl;
    try (split; [discriminate | discriminate]); try tauto.
  rewrite andb_true_iff, N.eqb_eq, IH.
  split; [intros [-> ->]; reflexivity | intros H; inversion H; auto].
Qed.

Lemma str_eqb_refl (a : jsstring) : str_eqb a a = true.
Proof. apply str_eqb_eq; reflexivity. Qed.

Lemma str_eqb_neq (a b : jsstring) : str_eqb a b = false <-> a <> b.
Proof.
  rewrite <- str_eqb_eq. destruct (str_eqb a b); split; congruence.
Qed.

(** ** The SQL statements *)

Section SqlFacts.

Variable f : Row -> Row.
Hypothesis f_path : forall r, cloudreve_path (f r) = cloudreve_path r.

Lemma update_paths p t :
  map cloudreve_path (update_where_path f p t) = map cloudreve_path t.
Proof.
  unfold update_where_path. rewrite map_map. apply map_ext.
  intros r. destruct (path_is p r); auto.
Qed.

Lemma update_unique p t :
  unique_paths t -> unique_paths (update_where_path f p t).
Proof. unfold unique_paths. rewrite update_paths. auto. Qed.

Lemma select_update_same p t :
  select_by_path p (update_where_path f p t)
  = option_map f (select_by_path p t).
Proof.
  unfold select_by_path, update_where_path.
  induction t as [|r t IH]; simpl; auto.
  destruct (path_is p r) eqn:Hr.
  - unfold path_is in *. rewrite f_path, Hr. reflexivity.
  - rewrite Hr. exact IH.
Qed.

Lemma select_update_other p q t :
  p <> q ->
  select_by_path q (update_where_path f p t) = select_by_path q t.
Proof.
  intros Hpq. unfold select_by_path, update_where_path.
  induction t as [|r t IH]; simpl; auto.
  destruct (path_is p r) eqn:Hp.
  - assert (Hq : path_is q r = false).
    { unfold path_is in *. apply str_eqb_eq in Hp. apply str_eqb_neq.
      congruence. }
    unfold path_is at 1. rewrite f_path. fold (path_is q r).
    rewrite Hq. exact IH.
  - destruct (path_is q r); auto.
Qed.

Lemma rows_for_update p q t :
  rows_for q (update_where_path f p t) = rows_for q t.
Proof.
  unfold rows_for, update_where_path.
  induction t as [|r t IH]; simpl; auto.
  assert (Hq : path_is q (if path_is p r then f r else r) = path_is q r).
  { destruct (path_is p r); auto. unfold path_is. rewrite f_path. auto. }
  rewrite Hq. destruct (path_is q r); simpl; rewrite IH; auto.
Qed.

End SqlFacts.

Lemma select_some_in p t r :
  select_by_path p t = Some r -> In r t /\ cloudreve_path r = p.
Proof.
  unfold select_by_path. intros H. apply find_some in H.
  destruct H as [Hin Hp]. split; auto. apply str_eqb_eq; exact Hp.
Qed.

Lemma select_none_iff p t :
  select_by_path p t = None <-> ~ In p (map cloudreve_path t).
Proof.
  unfold select_by_path. induction t as [|r t IH]; simpl.
  - tauto.
  - destruct (path_is p r) eqn:Hr.
    + apply str_eqb_eq in Hr. split; [discriminate | intros H; tauto].
    + apply str_eqb_neq in Hr. rewrite IH. tauto.
Qed.

Lemma existsb_select p t :
  existsb (path_is p) t = match select_by_path p t with
                          | Some _ => true
                          | None => false
                          end.
Proof.
  unfold select_by_path. induction t as [|r t IH]; simpl; auto.
  destruct (path_is p r); auto.
Qed.

Lemma rows_for_absent p t :
  select_by_path p t = None -> rows_for p t = 0%nat.
Proof.
  unfold rows_for, select_by_path. induction t as [|r t IH]; simpl; auto.
  destruct (path_is p r); [discriminate | auto].
Qed.

Lemma rows_for_app p t u :
  rows_for p (t ++ u) = (rows_for p t + rows_for p u)%nat.
Proof. unfold rows_for. rewrite filter_app, length_app. reflexivity. Qed.

Lemma rows_for_unique p t r :
  unique_paths t -> select_by_path p t = Some r -> rows_for p t = 1%nat.
Proof.
  unfold unique_paths, rows_for, select_by_path.
  induction t as [|x t IH]; simpl; [discriminate|].
  intros Hnd Hsel. inversion Hnd as [|? ? Hnot Hnd']; subst.
  destruct (path_is p x) eqn:Hx.
  - simpl. f_equal. apply rows_for_absent. apply select_none_iff.
    apply str_eqb_eq in Hx. congruence.
  - auto.
Qed.

Lemma select_app_absent p t u :
  select_by_path p t = None ->
  select_by_path p (t ++ u) = select_by_path p u.
Proof.
  unfold select_by_path. induction t as [|r t IH]; simpl; auto.
  destruct (path_is p r); [discriminate | auto].
Qed.

Lemma select_app_present p t u r :
  select_by_path p t = Some r -> select_by_path p (t ++ u) = Some r.
Proof.
  unfold select_by_path. induction t as [|x t IH]; simpl; [discriminate|].
  destruct (path_is p x); auto.
Qed.

Lemma do_update_set_path v r :
  cloudreve_path (do_update_set v r) = cloudreve_path r.
Proof. reflexivity. Qed.

(** What [INSERT ... ON CONFLICT DO UPDATE] leaves at the path of the
    inserted values. *)
Lemma select_upsert_same v t :
  select_by_path (cloudreve_path v) (insert_on_conflict_update v t)
  = Some (match select_by_path (cloudreve_path v) t with
          | Some r => do_update_set v r
          | None => with_row_id (next_row_id t) v
          end).
Proof.
  unfold insert_on_conflict_update. rewrite existsb_select.
  destruct (select_by_path (cloudreve_path v) t) as [r|] eqn:Hs.
  - rewrite select_update_same by apply do_update_set_path.
    rewrite Hs. reflexivity.
  - rewrite select_app_absent by exact Hs.
    unfold select_by_path; simpl. unfold path_is; simpl.
    rewrite str_eqb_refl. reflexivity.
Qed.

Lemma select_upsert_other v t q :
  cloudreve_path v <> q ->
  select_by_path q (insert_on_conflict_update v t) = select_by_path q t.
Proof.
  intros Hq. unfold insert_on_conflict_update.
  destruct (existsb (path_is (cloudreve_path v)) t).
  - apply select_update_other; auto.
  - destruct (select_by_path q t) as [r|] eqn:Hs.
    + apply select_app_present; exact Hs.
    + rewrite select_app_absent by exact Hs.
      unfold select_by_path; simpl. unfold path_is; simpl.
      apply str_eqb_neq in Hq. rewrite Hq. reflexivity.
Qed.

Lemma upsert_unique v t :
  unique_paths t -> unique_paths (insert_on_conflict_update v t).
Proof.
  intros Hu. unfold insert_on_conflict_update. rewrite existsb_select.
  destruct (select_by_path (cloudreve_path v) t) eqn:Hs.
  - apply update_unique; auto.
  - unfold unique_paths in *. rewrite map_app. simpl.
    apply select_none_iff in Hs.
    apply NoDup_app; auto.
    + constructor; [simpl; tauto | constructor].
    + intros x Hx [Hx'|[]]. subst. tauto.
Qed.

Lemma upsert_rows_for v t :
  unique_paths t ->
  rows_for (cloudreve_path v) (insert_on_conflict_update v t) = 1%nat.
Proof.
  intros Hu.
  eapply rows_for_unique; [apply upsert_unique; exact Hu |].
  apply select_upsert_same.
Qed.

(** ** The monad *)

Ltac unfold_m :=
  unfold Db.upsertMapping, Db.getMappingByPath, Db.touchMapping,
    Db.markEvicted, Db.markCached, Db.getStaleEntries,
    Cloudreve.ensureDirectory, Cloudreve.createDirectory,
    Cloudreve.listDirectory, Cloudreve.downloadFile, Cloudreve.uploadFile,
    Cloudreve.deleteFile, Telegram.uploadFile, Telegram.downloadFile,
    now_secs, Date_now, call, read_db, write_db, await, try_catch, bind,
    ret, throw in *.

Section DbFacts.
Context {E : Type} (env : Env E).

Lemma upsertMapping_run (record : MappingRecord) (w : World E) :
  exists created w' evs,
    Db.upsertMapping env record w = (Ok tt, w', evs)
    /\ w_db w' = insert_on_conflict_update (bound_values record created)
                                           (w_db w)
    /\ match createdAt record with
       | Some c => created = c /\ evs = [] /\ w_ext w' = w_ext w
       | None => exists ms, evs = [EvDateNow ms]
                            /\ date_now env (w_ext w) = (ms, w_ext w')
                            /\ created = floor_secs ms
       end.
Proof.
  unfold_m. destruct (createdAt record) as [c|].
  - eexists c, _, _. simpl. split; [reflexivity|]. simpl. auto.
  - destruct (date_now env (w_ext w)) as [ms e'] eqn:Hn.
    eexists (floor_secs ms), _, _. simpl. split; [reflexivity|].
    simpl. split; auto. exists ms. auto.
Qed.

(** C3. Two [upsertMapping] calls with the same path, whatever their other
    fields, leave exactly one row for that path; each of its columns holds
    the value the second call binds, except [created_at] (and the rowid),
    which stays as the first call left it: the value of the earliest
    insert. *)
Theorem upsert_same_path_twice
    (w w1 w2 : World E) (rec1 rec2 : MappingRecord)
    (r1 r2 : outcome unit) (ev1 ev2 : list event) :
  unique_paths (w_db w) ->
  rec_path rec2 = rec_path rec1 ->
  Db.upsertMapping env rec1 w = (r1, w1, ev1) ->
  Db.upsertMapping env rec2 w1 = (r2, w2, ev2) ->
  r1 = Ok tt /\ r2 = Ok tt
  /\ rows_for (rec_path rec1) (w_db w2) = 1%nat
  /\ unique_paths (w_db w2)
  /\ exists row1 row2,
       select_by_path (rec_path rec1) (w_db w1) = Some row1
       /\ select_by_path (rec_path rec1) (w_db w2) = Some row2
       /\ cloudreve_path row2 = rec_path rec2
       /\ cloudreve_file_id row2 = cloudreveFileId rec2
       /\ telegram_file_id row2 = telegramFileId rec2
       /\ telegram_message_id row2 = telegramMessageId rec2
       /\ file_name row2 = fileName rec2
       /\ file_size row2 = nullish (fileSize rec2) 0
       /\ mime_type row2 = mimeType rec2
       /\ last_accessed row2 = nullish (lastAccessed rec2) 0
       /\ has_local_cache row2 = nullish (hasLocalCache rec2) 1
       /\ created_at row2 = created_at row1
       /\ row_id row2 = row_id row1
       /\ match select_by_path (rec_path rec1) (w_db w) with
          | Some row0 => created_at row1 = created_at row0
          | None =>
              match createdAt rec1 with
              | Some c => created_at row1 = c
              | None => exists ms, ev1 = [EvDateNow ms]
                                   /\ created_at row1 = floor_secs ms
              end
          end.
Proof.
  intros Hu Hp H1 H2.
  destruct (upsertMapping_run rec1 w) as (c1 & w1' & e1 & R1 & D1 & C1).
  rewrite R1 in H1. inversion H1; subst r1 w1' e1; clear H1.
  destruct (upsertMapping_run rec2 w1) as (c2 & w2' & e2 & R2 & D2 & C2).
  rewrite R2 in H2. inversion H2; subst r2 w2' e2; clear H2.
  assert (P1 : cloudreve_path (bound_values rec1 c1) = rec_path rec1)
    by reflexivity.
  assert (P2 : cloudreve_path (bound_values rec2 c2) = rec_path rec1)
    by (simpl; exact Hp).
  assert (Hu1 : unique_paths (w_db w1))
    by (rewrite D1; apply upsert_unique; exact Hu).
  split; [reflexivity|]. split; [reflexivity|].
  split.
  { rewrite D2, <- P2. apply upsert_rows_for. exact Hu1. }
  split.
  { rewrite D2. apply upsert_unique. exact Hu1. }
  pose proof (select_upsert_same (bound_values rec1 c1) (w_db w)) as S1.
  rewrite <- D1, P1 in S1.
  pose proof (select_upsert_same (bound_values rec2 c2) (w_db w1)) as S2.
  rewrite <- D2, P2, S1 in S2.
  eexists _, _. split; [exact S1|]. split; [exact S2|].
  destruct (select_by_path (rec_path rec1) (w_db w)) as [row0|] eqn:S0;
    simpl.
  - apply select_some_in in S0. destruct S0 as [_ S0].
    repeat (split; [solve [reflexivity | congruence]|]). reflexivity.
  - repeat (split; [solve [reflexivity | congruence]|]).
    destruct (createdAt rec1) as [c|].
    + tauto.
    + destruct C1 as (ms & -> & _ & ->). exists ms. auto.
Qed.

(** What a call of [getStaleEntries] does, step by step. *)
Lemma getStaleEntries_run (w : World E) (T : Z) :
  Db.getStaleEntries env T w
  = (Ok (select_stale (floor_secs (fst (date_now env (w_ext w))) - T)
                      (w_db w)),
     {| w_db := w_db w; w_ext := snd (date_now env (w_ext w)) |},
     [EvDateNow (fst (date_now env (w_ext w)))]).
Proof.
  unfold_m. destruct (date_now env (w_ext w)) as [ms e']. reflexivity.
Qed.

Lemma select_stale_in (cutoff : Z) (t : table) (row : Row) :
  In row (select_stale cutoff t) <->
  In row t /\ has_local_cache row = 1
  /\ last_accessed row < cutoff /\ last_accessed row > 0.
Proof.
  unfold select_stale. rewrite filter_In. unfold is_stale.
  rewrite !andb_true_iff, Z.eqb_eq, !Z.ltb_lt. intuition lia.
Qed.

(** C5. [getStaleEntries(T)] never throws, leaves the table as it is and
    returns exactly the stored rows with [has_local_cache = 1],
    [last_accessed] strictly below [now - T] and strictly above [0], where
    [now] is the clock reading in seconds; a row with [has_local_cache = 0]
    or [last_accessed = 0] is never returned. *)
Theorem getStaleEntries_exact (w : World E) (T : Z) :
  let now := floor_secs (fst (date_now env (w_ext w))) in
  let '(r, w', evs) := Db.getStaleEntries env T w in
  exists rows,
    r = Ok rows
    /\ w_db w' = w_db w
    /\ evs = [EvDateNow (fst (date_now env (w_ext w)))]
    /\ rows = filter (is_stale (now - T)) (w_db w)
    /\ (forall row,
          In row rows <->
          In row (w_db w)
          /\ has_local_cache row = 1
          /\ last_accessed row < now - T
          /\ last_accessed row > 0)
    /\ (forall row,
          In row (w_db w) ->
          has_local_cache row = 0 \/ last_accessed row = 0 ->
          ~ In row rows).
Proof.
  intros now. rewrite getStaleEntries_run. fold now.
  eexists. split; [reflexivity|]. split; [reflexivity|].
  split; [reflexivity|]. split; [reflexivity|].
  split; [apply select_stale_in|].
  intros row _ Hz Hin. apply select_stale_in in Hin. lia.
Qed.

End DbFacts.

(** ** sanitizeFileName *)

Lemma underscore_safe : is_unsafe underscore = false /\ is_space underscore = false.
Proof. split; reflexivity. Qed.

Lemma replace_unsafe_in (s : jsstring) (c : N) :
  In c (replace_unsafe s) ->
  is_unsafe c = false /\ (c = underscore \/ In c s).
Proof.
  unfold replace_unsafe. rewrite in_map_iff. intros (x & Hx & Hin).
  destruct (is_unsafe x) eqn:Hu; subst c.
  - split; [reflexivity | left; reflexivity].
  - split; [exact Hu | right; exact Hin].
Qed.

Lemma replace_space_runs_in (s : jsstring) (b : bool) (c : N) :
  In c (replace_space_runs b s) ->
  c = underscore \/ (In c s /\ is_space c = false).
Proof.
  revert b. induction s as [|x s IH]; simpl; intros b H; [tauto|].
  destruct (is_space x) eqn:Hx.
  - destruct b.
    + apply IH in H. tauto.
    + destruct H as [H|H]; [left; congruence | apply IH in H; tauto].
  - destruct H as [H|H].
    + subst x. right. auto.
    + apply IH in H. tauto.
Qed.

Lemma replace_space_runs_nonempty (s : jsstring) :
  s <> [] -> replace_space_runs false s <> [].
Proof.
  destruct s as [|x s]; [congruence|]. intros _. simpl.
  destruct (is_space x); discriminate.
Qed.

Lemma replace_unsafe_nonempty (s : jsstring) :
  s <> [] -> replace_unsafe s <> [].
Proof. destruct s; [congruence | discriminate]. Qed.

Lemma firstn_in {A} (n : nat) (l : list A) (x : A) :
  In x (firstn n l) -> In x l.
Proof.
  intros H. rewrite <- (firstn_skipn n l). apply in_or_app. left. exact H.
Qed.

Lemma string_or_nonempty (v : strval) (d : jsstring) :
  d <> [] -> string_or v d <> [].
Proof. destruct v as [| |[|c r]]; simpl; auto; discriminate. Qed.

Lemma strip_trailing_slashes_last (s r : jsstring) :
  strip_trailing_slashes s <> r ++ [slash].
Proof.
  revert r. induction s as [|c s IH]; intros r; simpl.
  - destruct r; discriminate.
  - destruct (strip_trailing_slashes s) as [|y ys] eqn:Hs.
    + destruct (N.eqb c slash) eqn:Hc.
      * destruct r; discriminate.
      * apply N.eqb_neq in Hc. destruct r as [|a [|b r]]; simpl;
          try congruence; discriminate.
    + destruct r as [|a r]; simpl; [discriminate|].
      intros H. inversion H. eapply IH; eauto.
Qed.

Lemma unsafe_not_space (c : N) : is_unsafe c = true -> is_space c = false.
Proof.
  unfold is_unsafe. intros H. apply existsb_exists in H.
  destruct H as (x & Hin & Heq). apply N.eqb_eq in Heq. subst x.
  simpl in Hin.
  repeat (destruct Hin as [<-|Hin]; [reflexivity|]). destruct Hin.
Qed.

Lemma sanitize_rule_fusion (s : jsstring) :
  forall b, replace_space_runs b (replace_unsafe s) = Sync.sanitize_rule b s.
Proof.
  induction s as [|c s IH]; intros b; [reflexivity|].
  unfold replace_unsafe in *. cbn [map replace_space_runs Sync.sanitize_rule].
  destruct (is_unsafe c) eqn:Hu.
  - rewrite (unsafe_not_space c Hu).
    destruct underscore_safe as [_ ->]. rewrite IH. reflexivity.
  - destruct (is_space c); [destruct b|]; rewrite IH; reflexivity.
Qed.

Lemma sanitize_rule_no_space (s : jsstring) :
  forall b,
    (forall c, In c s -> is_space c = false) ->
    Sync.sanitize_rule b s
    = map (fun c => if is_unsafe c then underscore else c) s.
Proof.
  induction s as [|c s IH]; intros b Hs; [reflexivity|].
  cbn [Sync.sanitize_rule map].
  rewrite (Hs c (or_introl eq_refl)), IH; [reflexivity|].
  intros x Hx. apply Hs. right. exact Hx.
Qed.

Lemma sanitize_rule_safe (s : jsstring) :
  forall b,
    (forall c, In c s -> is_unsafe c = false /\ is_space c = false) ->
    Sync.sanitize_rule b s = s.
Proof.
  intros b Hs. rewrite sanitize_rule_no_space by (intros c Hc; apply Hs, Hc).
  induction s as [|c s IH]; [reflexivity|]. cbn [map].
  destruct (Hs c (or_introl eq_refl)) as [-> _]. rewrite IH; [reflexivity|].
  intros x Hx. apply Hs. right. exact Hx.
Qed.

Lemma sanitize_rule_spaces (ws t : jsstring) :
  (forall c, In c ws -> is_space c = true) ->
  Sync.sanitize_rule true (ws ++ t) = Sync.sanitize_rule true t.
Proof.
  induction ws as [|c ws IH]; intros Hws; [reflexivity|].
  cbn [app Sync.sanitize_rule]. rewrite (Hws c (or_introl eq_refl)).
  apply IH. intros x Hx. apply Hws. right. exact Hx.
Qed.

Lemma sanitize_rule_app (a t : jsstring) :
  forall b,
    a <> [] ->
    (forall c, In c a -> is_unsafe c = false /\ is_space c = false) ->
    Sync.sanitize_rule b (a ++ t) = a ++ Sync.sanitize_rule false t.
Proof.
  induction a as [|c a IH]; intros b Hne Ha; [congruence|].
  cbn [app Sync.sanitize_rule].
  destruct (Ha c (or_introl eq_refl)) as [-> ->]. f_equal.
  destruct a as [|d a]; [reflexivity|].
  apply IH; [discriminate|]. intros x Hx. apply Ha. right. exact Hx.
Qed.

(** A run of white space between two safe stretches becomes one
    underscore. *)
Lemma sanitize_rule_run (a ws b : jsstring) :
  (forall c, In c (a ++ b) -> is_unsafe c = false /\ is_space c = false) ->
  ws <> [] -> (forall c, In c ws -> is_space c = true) ->
  Sync.sanitize_rule false (a ++ ws ++ b) = a ++ [underscore] ++ b.
Proof.
  intros Hab Hne Hws.
  assert (Ha : forall c, In c a -> is_unsafe c = false /\ is_space c = false)
    by (intros c Hc; apply Hab, in_or_app; left; exact Hc).
  assert (Hb : forall c, In c b -> is_unsafe c = false /\ is_space c = false)
    by (intros c Hc; apply Hab, in_or_app; right; exact Hc).
  assert (Hrun : Sync.sanitize_rule false (ws ++ b) = underscore :: b).
  { destruct ws as [|c ws]; [congruence|].
    cbn [app Sync.sanitize_rule]. rewrite (Hws c (or_introl eq_refl)).
    rewrite sanitize_rule_spaces
      by (intros x Hx; apply Hws; right; exact Hx).
    rewrite sanitize_rule_safe by exact Hb. reflexivity. }
  destruct a as [|c a]; [exact Hrun|].
  rewrite sanitize_rule_app by (discriminate || exact Ha).
  rewrite Hrun. reflexivity.
Qed.

(** C10. For an absent, null or string file name, [sanitizeFileName] returns
    a non-empty string of at most 200 code units that holds none of the
    nine unsafe characters (slash, backslash, colon, asterisk, question
    mark, double quote, less-than, greater-than, vertical bar) and no white
    space.  An absent, null or empty name gives "file".  For any other name
    the result is the first 200 code units of what [sanitize_rule] gives:
    every unsafe character replaced by an underscore, every maximal run of
    white space by a single underscore, everything else kept in order.  So
    a name without white space keeps its length up to 200, each unsafe
    character turned into an underscore at its place, and a run of white
    space between two safe stretches leaves one underscore.  Hence the
    destination path of [importFromTelegram] is the inbox path without its
    trailing slashes, one slash, and one non-empty segment without slash. *)
Theorem sanitizeFileName_safe (cfg : Config) (name : strval) :
  let s := Sync.sanitizeFileName name in
  s <> []
  /\ (List.length s <= 200)%nat
  /\ (forall c, In c s ->
        ~ In c [47; 92; 58; 42; 63; 34; 60; 62; 124]%N
        /\ ~ In c [9; 10; 11; 12; 13; 32; 160; 5760; 8232; 8233; 8239; 8287;
                   12288; 65279]%N
        /\ ~ (8192 <= c <= 8202)%N)
  /\ Sync.sanitizeFileName Undefined = lit "file"
  /\ Sync.sanitizeFileName Null = lit "file"
  /\ Sync.sanitizeFileName (Str []) = lit "file"
  /\ (forall n, n <> [] ->
        Sync.sanitizeFileName (Str n)
        = firstn 200 (Sync.sanitize_rule false n))
  /\ (forall n, n <> [] -> (forall c, In c n -> is_space c = false) ->
        Sync.sanitizeFileName (Str n)
        = firstn 200 (map (fun c => if is_unsafe c then underscore else c) n))
  /\ (forall a ws b,
        (forall c, In c (a ++ b) -> is_unsafe c = false /\ is_space c = false) ->
        ws <> [] -> (forall c, In c ws -> is_space c = true) ->
        (List.length a + 1 + List.length b <= 200)%nat ->
        Sync.sanitizeFileName (Str (a ++ ws ++ b)) = a ++ [underscore] ++ b)
  /\ Sync.destPath cfg name
     = strip_trailing_slashes (inboxPath cfg) ++ [slash] ++ s
  /\ ~ In slash s
  /\ (forall r, strip_trailing_slashes (inboxPath cfg) <> r ++ [slash]).
Proof.
  intros s.
  assert (Hchar : forall c, In c s ->
            is_unsafe c = false /\ is_space c = false).
  { intros c Hc. unfold s, Sync.sanitizeFileName, slice0 in Hc.
    apply firstn_in in Hc. apply replace_space_runs_in in Hc.
    destruct Hc as [-> | [Hc Hsp]].
    - split; reflexivity.
    - apply replace_unsafe_in in Hc. destruct Hc as [Hu Hc].
      split; [exact Hu | exact Hsp]. }
  assert (Hrule : forall n, n <> [] ->
            Sync.sanitizeFileName (Str n)
            = firstn 200 (Sync.sanitize_rule false n)).
  { intros n Hn. destruct n as [|c n]; [congruence|].
    unfold Sync.sanitizeFileName, slice0. cbn [string_or].
    rewrite sanitize_rule_fusion. reflexivity. }
  split.
  { unfold s, Sync.sanitizeFileName, slice0.
    assert (H : replace_space_runs false
                  (replace_unsafe (string_or name (lit "file"))) <> []).
    { apply replace_space_runs_nonempty, replace_unsafe_nonempty,
        string_or_nonempty. discriminate. }
    destruct (replace_space_runs false _); [congruence | discriminate]. }
  split.
  { unfold s, Sync.sanitizeFileName, slice0. apply firstn_le_length. }
  split.
  { intros c Hc. destruct (Hchar c Hc) as (Hu & Hsp).
    unfold is_unsafe in Hu. unfold is_space in Hsp.
    apply orb_false_iff in Hsp. destruct Hsp as [Hlist Hrange].
    split; [|split].
    - intros Hin. apply not_true_iff_false in Hu. apply Hu.
      apply existsb_exists.
      exists c. split; [exact Hin | apply N.eqb_refl].
    - intros Hin. apply not_true_iff_false in Hlist. apply Hlist.
      apply existsb_exists.
      exists c. split; [exact Hin | apply N.eqb_refl].
    - intros [Hlo Hhi]. apply N.leb_le in Hlo, Hhi.
      rewrite Hlo, Hhi in Hrange. discriminate. }
  split; [reflexivity|]. split; [reflexivity|]. split; [reflexivity|].
  split; [exact Hrule|].
  split.
  { intros n Hn Hsp. rewrite Hrule by exact Hn.
    rewrite sanitize_rule_no_space by exact Hsp. reflexivity. }
  split.
  { intros a ws b Hab Hne Hws Hlen.
    assert (Hn : a ++ ws ++ b <> []).
    { destruct ws as [|c ws]; [congruence|]. destruct a; discriminate. }
    rewrite Hrule by exact Hn.
    rewrite sanitize_rule_run by assumption.
    apply firstn_all2. rewrite !length_app. cbn [List.length]. lia. }
  split; [reflexivity|].
  split.
  { intros Hin. destruct (Hchar _ Hin) as (Hu & _). discriminate Hu. }
  apply strip_trailing_slashes_last.
Qed.

(** ** downloadProxy *)

Lemma touch_select (p : jsstring) (now : Z) (t : table) :
  select_by_path p (update_where_path (set_last_accessed now) p t)
  = option_map (set_last_accessed now) (select_by_path p t).
Proof. apply select_update_same. reflexivity. Qed.

Lemma evict_select (p : jsstring) (t : table) :
  select_by_path p (update_where_path (set_has_local_cache 0) p t)
  = option_map (set_has_local_cache 0) (select_by_path p t).
Proof. apply select_update_same. reflexivity. Qed.

(** Symbolic execution of a run [H : m w = (r, w', evs)]: unfold the
    combinators and split on every call result and test in the way. *)
Ltac run_with env H :=
  unfold_m;
  repeat (cbn beta iota zeta delta [w_db w_ext fst snd negb] in H;
          match type of H with
          | context [date_now env ?e] =>
              destruct (date_now env e) as [? ?] eqn:?
          | context [cr_createDirectory env ?a ?e] =>
              destruct (cr_createDirectory env a e) as [[?|?] ?] eqn:?
          | context [cr_listDirectory env ?a ?e] =>
              destruct (cr_listDirectory env a e) as [[?|?] ?] eqn:?
          | context [cr_downloadFile env ?a ?e] =>
              destruct (cr_downloadFile env a e) as [[?|?] ?] eqn:?
          | context [cr_uploadFile env ?a ?e] =>
              destruct (cr_uploadFile env a e) as [[?|?] ?] eqn:?
          | context [cr_deleteFile env ?a ?e] =>
              destruct (cr_deleteFile env a e) as [[?|?] ?] eqn:?
          | context [tg_uploadFile env ?a ?e] =>
              destruct (tg_uploadFile env a e) as [[?|?] ?] eqn:?
          | context [tg_downloadFile env ?a ?e] =>
              destruct (tg_downloadFile env a e) as [[?|?] ?] eqn:?
          | context [if truthy_num ?x then _ else _] =>
              destruct (truthy_num x) eqn:?
          | context [if ok ?x then _ else _] =>
              destruct (ok x) eqn:?
          | context [if negb (ok ?x) then _ else _] =>
              destruct (ok x) eqn:?
          | context [match body ?x with _ => _ end] =>
              destruct (body x) eqn:?
          end);
  cbn beta iota zeta delta [w_db w_ext fst snd app] in H.

(** Membership in a trace that is known event by event. *)
Ltac split_events :=
  repeat match goal with
         | H : _ \/ _ |- _ => destruct H
         | H : False |- _ => destruct H
         | H : @eq event _ _ |- _ =>
             first [discriminate H | inversion H; clear H; subst]
         end.

Section ProxyFacts.
Context {E : Type} (env : Env E).

(** C2. Whenever the primary-store upload of the restore step throws,
    [downloadProxy] does not throw: it returns the bytes the secondary
    store has just delivered (with the resolved name and MIME type), and
    the row stored for the path then has [has_local_cache = 0]. *)
Theorem downloadProxy_restore_failure
    (w w' : World E) (p : jsstring) (mapping : Row)
    (r : outcome Sync.DownloadResult) (evs : list event)
    (args : CrUploadArgs) (e : js_error) :
  select_by_path p (w_db w) = Some mapping ->
  Sync.downloadProxy env p w = (r, w', evs) ->
  In (EvCrUploadFile args (Throw e)) evs ->
  exists dl,
    In (EvTgDownloadFile (telegram_file_id mapping) (Ok dl)) evs
    /\ r = Ok {| Sync.out_buffer   := dl_buffer dl;
                 Sync.out_fileName :=
                   Some (or_str (file_name mapping) (lit "file"));
                 Sync.out_mimeType :=
                   or_str (mime_type mapping) (dl_mimeType dl) |}
    /\ exists row,
         select_by_path p (w_db w') = Some row
         /\ has_local_cache row = 0
         /\ telegram_file_id row = telegram_file_id mapping
         /\ telegram_message_id row = telegram_message_id mapping
         /\ created_at row = created_at mapping.
Proof.
  intros Hsel Hrun Hin.
  unfold Sync.downloadProxy, Sync.cache_hit, Sync.restore in Hrun.
  unfold Db.getMappingByPath, read_db in Hrun.
  unfold bind at 1 in Hrun. rewrite Hsel in Hrun.
  run_with env Hrun.
  all: inversion Hrun; subst r w' evs; clear Hrun.
  all: simpl in Hin;
    try solve [intuition discriminate].
  all: eexists; split; [simpl; eauto 6 |]; split; [reflexivity |].
  all: cbn [w_db]; rewrite evict_select, touch_select, Hsel; cbn [option_map].
  all: eexists; split; [reflexivity |]; repeat split.
Qed.

(** C1. For a stored mapping with [has_local_cache = 0] whose
    [telegram_file_id] the secondary store resolves to some content,
    [downloadProxy] returns that content's bytes, with the MIME type and
    file name resolved for it (the stored ones, else the reported MIME
    type and "file"); once the primary-store upload of those bytes has
    returned an id, the row for the path has [has_local_cache = 1] and
    that id as [cloudreve_file_id], while [telegram_file_id],
    [telegram_message_id] and [created_at] are as before the call. *)
Theorem downloadProxy_restore_on_miss
    (w w' : World E) (p : jsstring) (mapping : Row)
    (r : outcome Sync.DownloadResult) (evs : list event)
    (dl : TgDownloaded) (args : CrUploadArgs) (newId : jsstring) :
  select_by_path p (w_db w) = Some mapping ->
  has_local_cache mapping = 0 ->
  Sync.downloadProxy env p w = (r, w', evs) ->
  In (EvTgDownloadFile (telegram_file_id mapping) (Ok dl)) evs ->
  In (EvCrUploadFile args (Ok newId)) evs ->
  r = Ok {| Sync.out_buffer   := dl_buffer dl;
            Sync.out_fileName :=
              Some (or_str (file_name mapping) (lit "file"));
            Sync.out_mimeType :=
              or_str (mime_type mapping) (dl_mimeType dl) |}
  /\ up_filePath args = p
  /\ up_data args = dl_buffer dl
  /\ exists row,
       select_by_path p (w_db w') = Some row
       /\ has_local_cache row = 1
       /\ cloudreve_file_id row = Some newId
       /\ telegram_file_id row = telegram_file_id mapping
       /\ telegram_message_id row = telegram_message_id mapping
       /\ created_at row = created_at mapping.
Proof.
  intros Hsel Hcold Hrun Hdl Hup.
  unfold Sync.downloadProxy, Sync.cache_hit, Sync.restore in Hrun.
  unfold Db.getMappingByPath, read_db in Hrun.
  unfold bind at 1 in Hrun. rewrite Hsel in Hrun.
  rewrite Hcold in Hrun.
  change (truthy_num 0) with false in Hrun.
  run_with env Hrun.
  all: inversion Hrun; subst r w' evs; clear Hrun.
  all: simpl in Hdl, Hup; split_events.
  all: split; [reflexivity|]; split; [reflexivity|]; split; [reflexivity|].
  all: cbn [w_db];
    match goal with
    | |- context [insert_on_conflict_update ?v ?t] =>
        pose proof (select_upsert_same v t) as Hs
    end;
    cbn [cloudreve_path bound_values rec_path] in Hs;
    rewrite touch_select, Hsel in Hs; cbn [option_map] in Hs.
  all: eexists; split; [exact Hs|]; repeat split.
Qed.

(** C4, as the code has it. In the cache-hit branch, when the
    primary-store fetch succeeds, the returned MIME type is the live
    [content-type] header when the response carries a non-empty one, else
    the mapping's stored [mime_type] when that is non-empty, else
    [application/octet-stream]; the bytes are the response body and the
    file name is the stored one. *)
Theorem downloadProxy_cache_hit_mime
    (w w' : World E) (p : jsstring) (mapping : Row)
    (r : outcome Sync.DownloadResult) (evs : list event)
    (fileRes : Response) (buf : Buffer) :
  select_by_path p (w_db w) = Some mapping ->
  has_local_cache mapping <> 0 ->
  Sync.downloadProxy env p w = (r, w', evs) ->
  In (EvCrDownloadFile (cloudreve_file_id mapping) (Ok fileRes)) evs ->
  ok fileRes = true ->
  body fileRes = Ok buf ->
  r = Ok {| Sync.out_buffer   := buf;
            Sync.out_fileName := file_name mapping;
            Sync.out_mimeType :=
              match content_type fileRes with
              | Some (c :: header) => c :: header
              | _ =>
                  match mime_type mapping with
                  | Some (c :: stored) => c :: stored
                  | _ => lit "application/octet-stream"
                  end
              end |}
  /\ (forall id res, ~ In (EvTgDownloadFile id res) evs).
Proof.
  intros Hsel Hhot Hrun Hdl Hok Hbody.
  unfold Sync.downloadProxy, Sync.cache_hit, Sync.restore in Hrun.
  unfold Db.getMappingByPath, read_db in Hrun.
  unfold bind at 1 in Hrun. rewrite Hsel in Hrun.
  assert (Ht : truthy_num (has_local_cache mapping) = true).
  { unfold truthy_num. apply negb_true_iff, Z.eqb_neq. exact Hhot. }
  rewrite Ht in Hrun.
  run_with env Hrun.
  all: inversion Hrun; subst r w' evs; clear Hrun.
  all: simpl in Hdl; split_events; try congruence.
  split.
  - replace buf with a0 by congruence. reflexivity.
  - intros id res Hin. simpl in Hin. split_events.
Qed.

End ProxyFacts.

(** ** runEviction *)

Lemma select_of_member (t : table) (x : Row) :
  unique_paths t -> In x t -> select_by_path (cloudreve_path x) t = Some x.
Proof.
  unfold unique_paths, select_by_path.
  induction t as [|y t IH]; simpl; [tauto|].
  intros Hnd Hin. inversion Hnd as [|? ? Hnot Hnd']; subst.
  destruct Hin as [->|Hin].
  - unfold path_is. rewrite str_eqb_refl. reflexivity.
  - destruct (path_is (cloudreve_path x) y) eqn:Hy.
    + apply str_eqb_eq in Hy. exfalso. apply Hnot. rewrite Hy.
      apply in_map. exact Hin.
    + apply IH; assumption.
Qed.

Lemma filter_unique (f : Row -> bool) (t : table) :
  unique_paths t -> unique_paths (filter f t).
Proof.
  unfold unique_paths. induction t as [|y t IH]; simpl; auto.
  intros Hnd. inversion Hnd as [|? ? Hnot Hnd']; subst.
  destruct (f y); simpl; auto.
  constructor; auto. intros Hin. apply Hnot.
  apply in_map_iff in Hin. destruct Hin as (z & Hz & Hin).
  apply filter_In in Hin. rewrite <- Hz. apply in_map. tauto.
Qed.

Section EvictionFacts.
Context {E : Type} (env : Env E).

Lemma evict_entry_run (acc : Cache.EvictionResult) (x : Row) (w : World E) :
  let '(o, e') := cr_deleteFile env (cloudreve_path x) (w_ext w) in
  Cache.evict_entry env acc x w
  = (Ok (if Cache.counts_as_evicted (x, o)
         then {| Cache.evicted := Cache.evicted acc + 1;
                 Cache.errors := Cache.errors acc |}
         else {| Cache.evicted := Cache.evicted acc;
                 Cache.errors := Cache.errors acc + 1 |}),
     {| w_db := if is_ok o
                then update_where_path (set_has_local_cache 0)
                       (cloudreve_path x) (w_db w)
                else w_db w;
        w_ext := e' |},
     [EvCrDeleteFile (cloudreve_path x) o]).
Proof.
  unfold Cache.evict_entry, Cache.log_evicted, Cache.counts_as_evicted.
  unfold_m.
  destruct (cr_deleteFile env (cloudreve_path x) (w_ext w)) as [[u|e] e'];
    cbn [fst snd is_ok andb w_db w_ext];
    [destruct (Cache.valid_time (last_accessed x))|]; reflexivity.
Qed.

Lemma count_cons (x : Row) (o : outcome unit) (l : list Row)
    (outs : list (outcome unit)) :
  Cache.count_evicted (x :: l) (o :: outs)
  = (if Cache.counts_as_evicted (x, o) then 1 else 0)
    + Cache.count_evicted l outs
  /\ Cache.count_errors (x :: l) (o :: outs)
     = (if Cache.counts_as_evicted (x, o) then 0 else 1)
       + Cache.count_errors l outs.
Proof.
  unfold Cache.count_evicted, Cache.count_errors, Cache.counts_as_error.
  cbn [combine filter].
  destruct (Cache.counts_as_evicted (x, o)); cbn [negb List.length];
    rewrite ?Nat2Z.inj_succ; lia.
Qed.

Lemma evict_loop (l : list Row) :
  forall (acc : Cache.EvictionResult) (w w' : World E)
         (r : outcome Cache.EvictionResult) (evs : list event),
    NoDup (map cloudreve_path l) ->
    (forall x, In x l -> select_by_path (cloudreve_path x) (w_db w) = Some x) ->
    for_of (Cache.evict_entry env) l acc w = (r, w', evs) ->
    exists outs : list (outcome unit),
      List.length outs = List.length l
      /\ evs = Cache.delete_events l outs
      /\ r = Ok {| Cache.evicted :=
                     Cache.evicted acc + Cache.count_evicted l outs;
                   Cache.errors :=
                     Cache.errors acc + Cache.count_errors l outs |}
      /\ (forall q, ~ In q (map cloudreve_path l) ->
                    select_by_path q (w_db w') = select_by_path q (w_db w))
      /\ (forall x o, In (x, o) (combine l outs) ->
            select_by_path (cloudreve_path x) (w_db w')
            = Some (if is_ok o then set_has_local_cache 0 x else x)).
Proof.
  induction l as [|x l IH]; intros acc w w' r evs Hnd Hsel Hrun.
  - simpl in Hrun. unfold ret in Hrun. inversion Hrun; subst.
    exists []. unfold Cache.count_evicted, Cache.count_errors. simpl.
    rewrite !Z.add_0_r. destruct acc. repeat split; auto. intros x o [].
  - simpl in Hrun. unfold bind in Hrun.
    pose proof (evict_entry_run acc x w) as Hstep.
    destruct (cr_deleteFile env (cloudreve_path x) (w_ext w)) as [o e'].
    inversion Hnd as [|? ? Hnot Hnd']; subst.
    rewrite Hstep in Hrun; clear Hstep.
    match type of Hrun with
    | context [for_of _ l ?a ?w1] =>
        destruct (for_of (Cache.evict_entry env) l a w1)
          as [[r2 w2] t2] eqn:Hrest
    end.
    inversion Hrun; subst r w' evs; clear Hrun.
    assert (Hother : forall q, q <> cloudreve_path x ->
              select_by_path q
                (if is_ok o
                 then update_where_path (set_has_local_cache 0)
                        (cloudreve_path x) (w_db w)
                 else w_db w)
              = select_by_path q (w_db w)).
    { intros q Hq. destruct (is_ok o); [|reflexivity].
      apply select_update_other; [reflexivity | congruence]. }
    apply IH in Hrest; auto.
    + destruct Hrest as (outs & Hlen & Hev & Hr & Hfr & Hrows).
      exists (o :: outs). cbn [w_db] in *.
      split; [simpl; congruence|].
      split; [simpl; rewrite Hev; reflexivity|].
      split.
      { rewrite Hr. destruct (count_cons x o l outs) as [-> ->].
        destruct (Cache.counts_as_evicted (x, o));
          cbn [Cache.evicted Cache.errors]; f_equal; f_equal; lia. }
      split.
      { intros q Hq. simpl in Hq. rewrite Hfr by tauto.
        apply Hother. intros Heq. apply Hq. left. congruence. }
      intros y o' [Heq|Hin].
      * inversion Heq; subst y o'. rewrite Hfr by exact Hnot.
        destruct (is_ok o).
        -- rewrite evict_select, Hsel by (left; reflexivity). reflexivity.
        -- apply Hsel. left. reflexivity.
      * apply Hrows. exact Hin.
    + intros y Hy. cbn [w_db]. rewrite Hother.
      * apply Hsel. right. exact Hy.
      * intros Heq. apply Hnot. rewrite <- Heq. apply in_map. exact Hy.
Qed.

Lemma count_ok_throw {A} (outs : list (outcome A)) :
  count_ok outs + count_throw outs = Z.of_nat (List.length outs).
Proof.
  unfold count_ok, count_throw.
  induction outs as [|o outs IH]; [reflexivity|].
  destruct o; cbn [filter is_ok negb List.length];
    rewrite !Nat2Z.inj_succ; lia.
Qed.

Lemma count_all (l : list Row) :
  forall outs : list (outcome unit),
    List.length outs = List.length l ->
    Cache.count_evicted l outs + Cache.count_errors l outs
    = Z.of_nat (List.length l).
Proof.
  induction l as [|x l IH]; intros [|o outs] Hlen; try discriminate.
  - reflexivity.
  - destruct (count_cons x o l outs) as [-> ->].
    pose proof (IH outs (eq_add_S _ _ Hlen)) as Hrec.
    cbn [List.length]. rewrite Nat2Z.inj_succ.
    destruct (Cache.counts_as_evicted (x, o)); lia.
Qed.

Lemma count_valid (l : list Row) :
  forall outs : list (outcome unit),
    List.length outs = List.length l ->
    (forall x, In x l -> Cache.valid_time (last_accessed x) = true) ->
    Cache.count_evicted l outs = count_ok outs
    /\ Cache.count_errors l outs = count_throw outs.
Proof.
  induction l as [|x l IH]; intros [|o outs] Hlen Hval; try discriminate.
  - split; reflexivity.
  - destruct (count_cons x o l outs) as [-> ->].
    destruct (IH outs (eq_add_S _ _ Hlen)
                (fun y Hy => Hval y (or_intror Hy))) as [-> ->].
    unfold Cache.counts_as_evicted. cbn [fst snd].
    rewrite (Hval x (or_introl eq_refl)), andb_true_r.
    unfold count_ok, count_throw.
    destruct o; cbn [filter is_ok negb List.length];
      rewrite ?Nat2Z.inj_succ; lia.
Qed.

Lemma count_invalid (l : list Row) :
  forall outs : list (outcome unit),
    List.length outs = List.length l ->
    (forall x, In x l -> Cache.valid_time (last_accessed x) = false) ->
    Cache.count_evicted l outs = 0
    /\ Cache.count_errors l outs = Z.of_nat (List.length l).
Proof.
  induction l as [|x l IH]; intros [|o outs] Hlen Hval; try discriminate.
  - split; reflexivity.
  - destruct (count_cons x o l outs) as [-> ->].
    destruct (IH outs (eq_add_S _ _ Hlen)
                (fun y Hy => Hval y (or_intror Hy))) as [-> ->].
    unfold Cache.counts_as_evicted. cbn [fst snd].
    rewrite (Hval x (or_introl eq_refl)), andb_false_r.
    cbn [List.length]. rewrite Nat2Z.inj_succ. lia.
Qed.

Lemma runEviction_unfold (cfg : Config) (w : World E) :
  Cache.runEviction env cfg w
  = let '(ms, e0) := date_now env (w_ext w) in
    let '(r, w2, t2) :=
      for_of (Cache.evict_entry env)
        (select_stale (floor_secs ms - cacheIdleDays cfg * 24 * 60 * 60)
                      (w_db w))
        {| Cache.evicted := 0; Cache.errors := 0 |}
        {| w_db := w_db w; w_ext := e0 |} in
    (r, w2, EvDateNow ms :: t2).
Proof.
  unfold Cache.runEviction, Db.getStaleEntries, now_secs, Date_now.
  unfold bind, ret, read_db.
  destruct (date_now env (w_ext w)) as [ms e0].
  cbn [w_db w_ext app].
  destruct (select_stale _ (w_db w)); reflexivity.
Qed.

(** C9. An eviction pass over the stale list read at its start never
    throws.  It calls [deleteFile] once per stale entry, in order, and goes
    on after a deletion that throws.  An entry whose deletion returned has
    [has_local_cache = 0] afterwards, every other column as before; an entry
    whose deletion threw keeps its row ([has_local_cache = 1], same
    [telegram_file_id]); rows outside the stale list are untouched.  The
    pass returns the two counters: when every stale [last_accessed] is a
    time a JavaScript date can hold (at most 8.64e12 seconds, as is every
    clock reading the adapter stores), [evicted] is the number of deletions
    that returned and [errors] the number that threw; an entry beyond that
    range is counted in [errors] whatever its deletion did, because the log
    line throws on its date.  With nothing stale the result is
    [{evicted: 0, errors: 0}] and the table is unchanged. *)
Theorem runEviction_pass
    (cfg : Config) (w w' : World E)
    (r : outcome Cache.EvictionResult) (evs : list event) :
  unique_paths (w_db w) ->
  Cache.runEviction env cfg w = (r, w', evs) ->
  let ms := fst (date_now env (w_ext w)) in
  let stale :=
    select_stale (floor_secs ms - cacheIdleDays cfg * 24 * 60 * 60)
                 (w_db w) in
  exists outs : list (outcome unit),
    List.length outs = List.length stale
    /\ evs = EvDateNow ms :: Cache.delete_events stale outs
    /\ r = Ok {| Cache.evicted := Cache.count_evicted stale outs;
                 Cache.errors := Cache.count_errors stale outs |}
    /\ Cache.count_evicted stale outs + Cache.count_errors stale outs
       = Z.of_nat (List.length stale)
    /\ ((forall x, In x stale -> last_accessed x <= 8640000000000) ->
        r = Ok {| Cache.evicted := count_ok outs;
                  Cache.errors := count_throw outs |})
    /\ ((forall x, In x stale -> 8640000000000 < last_accessed x) ->
        r = Ok {| Cache.evicted := 0;
                  Cache.errors := Z.of_nat (List.length stale) |})
    /\ (stale = [] ->
        r = Ok {| Cache.evicted := 0; Cache.errors := 0 |}
        /\ w_db w' = w_db w)
    /\ (forall x o, In (x, o) (combine stale outs) ->
          In x (w_db w)
          /\ has_local_cache x = 1
          /\ exists row,
               select_by_path (cloudreve_path x) (w_db w') = Some row
               /\ has_local_cache row = (if is_ok o then 0 else 1)
               /\ row_id row = row_id x
               /\ cloudreve_file_id row = cloudreve_file_id x
               /\ cloudreve_path row = cloudreve_path x
               /\ telegram_file_id row = telegram_file_id x
               /\ telegram_message_id row = telegram_message_id x
               /\ file_name row = file_name x
               /\ file_size row = file_size x
               /\ mime_type row = mime_type x
               /\ last_accessed row = last_accessed x
               /\ created_at row = created_at x
               /\ (is_ok o = false -> row = x))
    /\ (forall q, ~ In q (map cloudreve_path stale) ->
          select_by_path q (w_db w') = select_by_path q (w_db w)).
Proof.
  intros Hu Hrun ms stale.
  rewrite runEviction_unfold in Hrun. subst ms.
  destruct (date_now env (w_ext w)) as [ms e0] eqn:Hnow.
  cbn [fst snd] in *. fold stale in Hrun.
  destruct (for_of (Cache.evict_entry env) stale
              {| Cache.evicted := 0; Cache.errors := 0 |}
              {| w_db := w_db w; w_ext := e0 |})
    as [[r2 w2] t2] eqn:Hrest.
  inversion Hrun; subst r w' evs; clear Hrun.
  assert (Hmem : forall x, In x stale ->
            In x (w_db w) /\ has_local_cache x = 1).
  { intros x Hx. unfold stale, select_stale in Hx. apply filter_In in Hx.
    destruct Hx as [Hx Hst]. split; [exact Hx|].
    unfold is_stale in Hst. rewrite !andb_true_iff, Z.eqb_eq in Hst. tauto. }
  assert (Hpos : forall x, In x stale -> 0 < last_accessed x).
  { intros x Hx. unfold stale, select_stale in Hx. apply filter_In in Hx.
    destruct Hx as [_ Hst]. unfold is_stale in Hst.
    rewrite !andb_true_iff, !Z.ltb_lt in Hst. tauto. }
  pose proof Hrest as Hnone.
  apply evict_loop in Hrest.
  - destruct Hrest as (outs & Hlen & Hev & Hr & Hfr & Hrows).
    exists outs. cbn [Cache.evicted Cache.errors] in Hr.
    split; [exact Hlen|]. split; [rewrite Hev; reflexivity|].
    split; [exact Hr|].
    split; [apply count_all; exact Hlen|].
    split.
    { intros Hval. rewrite Hr.
      destruct (@count_valid stale outs Hlen) as [-> ->]; [|reflexivity].
      intros x Hx. unfold Cache.valid_time. apply Z.leb_le.
      pose proof (Hval x Hx). pose proof (Hpos x Hx). lia. }
    split.
    { intros Hval. rewrite Hr.
      destruct (@count_invalid stale outs Hlen) as [-> ->]; [|reflexivity].
      intros x Hx. unfold Cache.valid_time. apply Z.leb_gt.
      pose proof (Hval x Hx). lia. }
    split.
    { intros Hnil. rewrite Hnil in Hlen. destruct outs; [|discriminate].
      split; [rewrite Hr, Hnil; reflexivity|].
      rewrite Hnil in Hnone. simpl in Hnone. unfold ret in Hnone.
      inversion Hnone. reflexivity. }
    split; [|exact Hfr].
    intros x o Hin. pose proof (in_combine_l _ _ _ _ Hin) as Hx.
    destruct (Hmem x Hx) as [Hxin Hc]. split; [exact Hxin|].
    split; [exact Hc|].
    eexists. split; [apply Hrows; exact Hin|].
    destruct (is_ok o); cbn [has_local_cache set_has_local_cache row_id
      cloudreve_file_id cloudreve_path telegram_file_id telegram_message_id
      file_name file_size mime_type last_accessed created_at];
      repeat (split; [first [reflexivity | exact Hc]|]);
      first [discriminate | reflexivity].
  - apply (filter_unique (is_stale _) Hu).
  - intros x Hx. destruct (Hmem x Hx). apply select_of_member; auto.
Qed.

End EvictionFacts.

(** ** syncNewUploads *)

Section SyncFacts.
Context {E : Type} (env : Env E).

(** The three ways one turn of the loop of [syncNewUploads] can end:
    the file is skipped, counted as an error, or backed up. *)
Lemma sync_file_cases
    (targetDir : jsstring) (acc : Sync.SyncResult) (file : DirObject)
    (w w' : World E) (r : outcome Sync.SyncResult) (evs : list event) :
  Sync.sync_file env targetDir acc file w = (r, w', evs) ->
  let filePath := Sync.join_path targetDir (obj_name file) in
  (select_by_path filePath (w_db w) <> None
   /\ r = Ok acc /\ w' = w /\ evs = [])
  \/ (select_by_path filePath (w_db w) = None
      /\ r = Ok {| Sync.synced := Sync.synced acc;
                   Sync.errors := Sync.errors acc + 1 |}
      /\ w_db w' = w_db w)
  \/ (select_by_path filePath (w_db w) = None
      /\ r = Ok {| Sync.synced := Sync.synced acc + 1;
                   Sync.errors := Sync.errors acc |}
      /\ exists v ms,
           w_db w' = insert_on_conflict_update v (w_db w)
           /\ cloudreve_path v = filePath
           /\ last_accessed v = floor_secs ms
           /\ has_local_cache v = 1
           /\ In (EvDateNow ms) evs).
Proof.
  intros Hrun filePath.
  unfold Sync.sync_file, Db.getMappingByPath, read_db in Hrun.
  unfold bind at 1 in Hrun. fold filePath in Hrun.
  destruct (select_by_path filePath (w_db w)) as [row|] eqn:Hsel.
  - left. unfold ret in Hrun. inversion Hrun. repeat split; congruence.
  - right. run_with env Hrun.
    all: inversion Hrun; subst r w' evs; clear Hrun.
    all: try solve [left; repeat split; reflexivity].
    right. split; [reflexivity|]. split; [reflexivity|].
    eexists _, _. cbn [w_db]. split; [reflexivity|].
    split; [reflexivity|]. split; [reflexivity|]. split; [reflexivity|].
    simpl. auto.
Qed.

(** A row whose path is already mapped survives one turn unchanged. *)
Lemma sync_file_preserves
    (targetDir : jsstring) (acc : Sync.SyncResult) (file : DirObject)
    (w w' : World E) (r : outcome Sync.SyncResult) (evs : list event)
    (q : jsstring) (row : Row) :
  Sync.sync_file env targetDir acc file w = (r, w', evs) ->
  select_by_path q (w_db w) = Some row ->
  select_by_path q (w_db w') = Some row.
Proof.
  intros Hrun Hq. apply sync_file_cases in Hrun.
  destruct Hrun as [(_ & _ & -> & _) | [(_ & _ & Hdb) | (Hnone & _ & Hex)]].
  - exact Hq.
  - rewrite Hdb. exact Hq.
  - destruct Hex as (v & ms & Hdb & Hv & _). rewrite Hdb.
    rewrite select_upsert_other; [exact Hq|].
    intros Heq. rewrite Hv in Heq. congruence.
Qed.

Lemma sync_loop_preserves (targetDir : jsstring) (files : list DirObject) :
  forall (acc : Sync.SyncResult) (w w' : World E)
         (r : outcome Sync.SyncResult) (evs : list event)
         (q : jsstring) (row : Row),
    for_of (Sync.sync_file env targetDir) files acc w = (r, w', evs) ->
    select_by_path q (w_db w) = Some row ->
    select_by_path q (w_db w') = Some row.
Proof.
  induction files as [|f files IH]; intros acc w w' r evs q row Hrun Hq.
  - simpl in Hrun. unfold ret in Hrun. inversion Hrun; subst. exact Hq.
  - simpl in Hrun. unfold bind in Hrun.
    destruct (Sync.sync_file env targetDir acc f w) as [[r1 w1] t1] eqn:H1.
    assert (Hq1 : select_by_path q (w_db w1) = Some row)
      by (eapply sync_file_preserves; eauto).
    destruct r1 as [acc1|e].
    + destruct (for_of (Sync.sync_file env targetDir) files acc1 w1)
        as [[r2 w2] t2] eqn:H2.
      inversion Hrun; subst. eapply IH; eauto.
    + inversion Hrun; subst. exact Hq1.
Qed.

(** The loop never throws, its error counter never decreases, and when
    that counter has not moved every file of the list is mapped at the
    end. *)
Lemma sync_loop_errors (targetDir : jsstring) (files : list DirObject) :
  forall (acc : Sync.SyncResult) (w w' : World E)
         (r : outcome Sync.SyncResult) (evs : list event),
    for_of (Sync.sync_file env targetDir) files acc w = (r, w', evs) ->
    exists res,
      r = Ok res
      /\ Sync.errors acc <= Sync.errors res
      /\ (Sync.errors res = Sync.errors acc ->
          forall f, In f files ->
            select_by_path (Sync.join_path targetDir (obj_name f)) (w_db w')
            <> None).
Proof.
  induction files as [|f files IH]; intros acc w w' r evs Hrun.
  - simpl in Hrun. unfold ret in Hrun. inversion Hrun; subst.
    exists acc. split; [reflexivity|]. split; [lia|]. intros _ f [].
  - simpl in Hrun. unfold bind in Hrun.
    destruct (Sync.sync_file env targetDir acc f w) as [[r1 w1] t1] eqn:H1.
    pose proof H1 as Hc. apply sync_file_cases in Hc. cbv zeta in Hc.
    assert (Hacc1 : exists acc1, r1 = Ok acc1
               /\ Sync.errors acc <= Sync.errors acc1
               /\ (Sync.errors acc1 = Sync.errors acc ->
                   select_by_path (Sync.join_path targetDir (obj_name f))
                                  (w_db w1) <> None)).
    { destruct Hc as [(Hs & -> & -> & _) | [(_ & -> & _) | (_ & -> & Hex)]].
      - exists acc. split; [reflexivity|]. split; [lia|]. auto.
      - eexists. split; [reflexivity|]. simpl. split; lia.
      - eexists. split; [reflexivity|]. simpl. split; [lia|]. intros _.
        destruct Hex as (v & ms & Hdb & Hv & _). rewrite Hdb, <- Hv.
        rewrite select_upsert_same. discriminate. }
    destruct Hacc1 as (acc1 & -> & Hle & Hmapped).
    destruct (for_of (Sync.sync_file env targetDir) files acc1 w1)
      as [[r2 w2] t2] eqn:H2.
    inversion Hrun; subst r w' evs; clear Hrun.
    pose proof H2 as Hrest. apply IH in Hrest.
    destruct Hrest as (res & -> & Hle2 & Hall).
    exists res. split; [reflexivity|]. split; [lia|].
    intros Heq g [<-|Hg].
    + assert (Hm : select_by_path (Sync.join_path targetDir (obj_name f))
                     (w_db w1) <> None) by (apply Hmapped; lia).
      destruct (select_by_path (Sync.join_path targetDir (obj_name f))
                  (w_db w1)) as [row|] eqn:Hs; [|congruence].
      assert (Hs' : select_by_path
                      (Sync.join_path targetDir (obj_name f)) (w_db w2)
                    = Some row)
        by (eapply sync_loop_preserves; eauto).
      rewrite Hs'. discriminate.
    + apply Hall; [lia | exact Hg].
Qed.

(** When every file of the list is mapped the loop does nothing. *)
Lemma sync_loop_all_mapped (targetDir : jsstring) (files : list DirObject)
    (acc : Sync.SyncResult) (w : World E) :
  (forall f, In f files ->
     select_by_path (Sync.join_path targetDir (obj_name f)) (w_db w)
     <> None) ->
  for_of (Sync.sync_file env targetDir) files acc w = (Ok acc, w, []).
Proof.
  induction files as [|f files IH]; intros Hall; [reflexivity|].
  simpl. unfold bind.
  assert (H1 : Sync.sync_file env targetDir acc f w = (Ok acc, w, [])).
  { unfold Sync.sync_file, Db.getMappingByPath, read_db. unfold bind.
    specialize (Hall f (or_introl eq_refl)).
    destruct (select_by_path _ (w_db w)); [reflexivity | congruence]. }
  rewrite H1, IH; [reflexivity|].
  intros g Hg. apply Hall. right. exact Hg.
Qed.

(** [syncNewUploads] is the loop after the two directory calls. *)
Lemma syncNewUploads_unfold (cfg : Config) (dirPath : option jsstring)
    (w : World E) :
  let targetDir := or_str dirPath (inboxPath cfg) in
  Sync.syncNewUploads env cfg dirPath w
  = let '(rc, e1) := cr_createDirectory env targetDir (w_ext w) in
    let '(rl, e2) := cr_listDirectory env targetDir e1 in
    let pre := [EvCrCreateDirectory targetDir rc;
                EvCrListDirectory targetDir rl] in
    match rl with
    | Throw err => (Throw err, {| w_db := w_db w; w_ext := e2 |}, pre)
    | Ok listing =>
        let '(r, w', t) :=
          for_of (Sync.sync_file env targetDir)
            (filter (fun o => str_eqb (obj_type o) (lit "file"))
                    (nullish listing []))
            {| Sync.synced := 0; Sync.errors := 0 |}
            {| w_db := w_db w; w_ext := e2 |} in
        (r, w', pre ++ t)
    end.
Proof.
  intros targetDir. unfold Sync.syncNewUploads. fold targetDir.
  unfold Cloudreve.ensureDirectory, Cloudreve.createDirectory,
    Cloudreve.listDirectory, call, try_catch, bind, ret.
  destruct (cr_createDirectory env targetDir (w_ext w)) as [[u|e] e1];
    cbn [w_db w_ext];
    destruct (cr_listDirectory env targetDir e1) as [[l|e'] e2];
    cbn [w_db w_ext]; try reflexivity.
  all: match goal with
       | |- context [for_of ?f ?l ?a ?w0] =>
           destruct (for_of f l a w0) as [[r' w''] t']
       end; reflexivity.
Qed.

(** A mapping that appears during the loop was written by it, with the
    clock reading of that moment as [last_accessed]. *)
Lemma sync_loop_created (targetDir : jsstring) (files : list DirObject) :
  forall (acc : Sync.SyncResult) (w w' : World E)
         (r : outcome Sync.SyncResult) (evs : list event)
         (q : jsstring) (row : Row),
    for_of (Sync.sync_file env targetDir) files acc w = (r, w', evs) ->
    select_by_path q (w_db w) = None ->
    select_by_path q (w_db w') = Some row ->
    exists ms, In (EvDateNow ms) evs
               /\ last_accessed row = floor_secs ms
               /\ has_local_cache row = 1.
Proof.
  induction files as [|f files IH]; intros acc w w' r evs q row Hrun Hn Hs.
  - simpl in Hrun. unfold ret in Hrun. inversion Hrun; subst. congruence.
  - simpl in Hrun. unfold bind in Hrun.
    destruct (Sync.sync_file env targetDir acc f w) as [[r1 w1] t1] eqn:H1.
    pose proof H1 as Hc. apply sync_file_cases in Hc. cbv zeta in Hc.
    assert (Hok : exists acc1, r1 = Ok acc1).
    { destruct Hc as [(_ & -> & _) | [(_ & -> & _) | (_ & -> & _)]];
        eexists; reflexivity. }
    destruct Hok as (acc1 & ->).
    destruct (for_of (Sync.sync_file env targetDir) files acc1 w1)
      as [[r2 w2] t2] eqn:H2.
    inversion Hrun; subst r w' evs; clear Hrun.
    assert (Hlater : select_by_path q (w_db w1) = None ->
              exists ms, In (EvDateNow ms) (t1 ++ t2)
                         /\ last_accessed row = floor_secs ms
                         /\ has_local_cache row = 1).
    { intros Hn1. destruct (IH _ _ _ _ _ _ _ H2 Hn1 Hs) as (ms & Hin & Hrow).
      exists ms. split; [apply in_or_app; right; exact Hin | exact Hrow]. }
    destruct Hc as [(_ & _ & -> & _) | [(_ & _ & Hdb) | (Hnone & _ & Hex)]].
    + apply Hlater. exact Hn.
    + apply Hlater. rewrite Hdb. exact Hn.
    + destruct Hex as (v & ms & Hdb & Hv & Hla & Hc1 & Hin).
      destruct (str_eqb (cloudreve_path v) q) eqn:Hq.
      * apply str_eqb_eq in Hq.
        assert (Hs1 : select_by_path q (w_db w1)
                      = Some (with_row_id (next_row_id (w_db w)) v)).
        { rewrite Hdb, <- Hq, select_upsert_same.
          rewrite Hq, Hn. reflexivity. }
        assert (Hs2 : select_by_path q (w_db w2)
                      = Some (with_row_id (next_row_id (w_db w)) v))
          by (eapply sync_loop_preserves; eauto).
        rewrite Hs2 in Hs. inversion Hs; subst row.
        exists ms. split; [apply in_or_app; left; exact Hin|].
        split; assumption.
      * apply str_eqb_neq in Hq. apply Hlater.
        rewrite Hdb, select_upsert_other by exact Hq. exact Hn.
Qed.

(** C6, as the code has it. A mapping created by [syncNewUploads] is
    written with [last_accessed] equal to the clock reading (in seconds)
    taken when it is synced, not [0], and with [has_local_cache = 1].
    As long as its row stays as written (it is never served, restored or
    evicted), [getStaleEntries(T)] returns it exactly when that reading is
    positive and strictly below [now - T]; only a row with
    [last_accessed = 0] is never returned. *)
Theorem sync_created_mapping_stale
    (cfg : Config) (dirPath : option jsstring) (w w' : World E)
    (r : outcome Sync.SyncResult) (evs : list event)
    (q : jsstring) (row : Row) :
  Sync.syncNewUploads env cfg dirPath w = (r, w', evs) ->
  select_by_path q (w_db w) = None ->
  select_by_path q (w_db w') = Some row ->
  exists ms,
    In (EvDateNow ms) evs
    /\ last_accessed row = floor_secs ms
    /\ has_local_cache row = 1
    /\ (forall (w2 : World E) (T : Z) (rows : list Row),
          w_db w2 = w_db w' ->
          fst (fst (Db.getStaleEntries env T w2)) = Ok rows ->
          let now := floor_secs (fst (date_now env (w_ext w2))) in
          (In row rows <-> 0 < floor_secs ms /\ floor_secs ms < now - T)
          /\ (forall row0, last_accessed row0 = 0 -> ~ In row0 rows)).
Proof.
  intros Hrun Hn Hs.
  rewrite syncNewUploads_unfold in Hrun. cbv zeta in Hrun.
  destruct (cr_createDirectory env _ (w_ext w)) as [rc e1].
  destruct (cr_listDirectory env _ e1) as [[listing|err] e2].
  2: { inversion Hrun; subst. cbn [w_db] in Hs. congruence. }
  match type of Hrun with
  | context [for_of ?f ?l ?a ?w0] =>
      destruct (for_of f l a w0) as [[r' w''] t'] eqn:Hloop
  end.
  inversion Hrun; subst r w' evs; clear Hrun.
  eapply sync_loop_created in Hloop; [| exact Hn | exact Hs].
  destruct Hloop as (ms & Hin & Hla & Hc).
  exists ms. split; [simpl; right; right; exact Hin|].
  split; [exact Hla|]. split; [exact Hc|].
  intros w2 T rows Hdb Hrows now.
  rewrite getStaleEntries_run in Hrows. cbn [fst] in Hrows.
  inversion Hrows; subst rows; clear Hrows. fold now. split.
  - rewrite select_stale_in, Hdb, <- Hla.
    apply select_some_in in Hs. destruct Hs as [Hmem _].
    split; [intros; lia | intros; repeat split; auto; lia].
  - intros row0 H0 Hin0. apply select_stale_in in Hin0. lia.
Qed.

(** C7, as the code has it. A file whose full path already has a mapping
    is skipped whatever its cache state: the turn changes nothing and
    calls nothing.  Hence, when a first run returned with [errors = 0] and
    the second run finds the same listing (the mapping table being as the
    first run left it), the second run returns [{synced: 0, errors: 0}],
    leaves the table unchanged and makes no call beyond the two directory
    calls: no download, no secondary-store upload, no upsert.  (The listing
    call is the second interaction of a run, after [ensureDirectory].) *)
Theorem sync_twice_idempotent
    (cfg : Config) (dirPath : option jsstring)
    (w0 w1 w2 : World E) (r1 : Sync.SyncResult)
    (r2 : outcome Sync.SyncResult) (evs1 evs2 : list event)
    (listing : option (list DirObject)) :
  let targetDir := or_str dirPath (inboxPath cfg) in
  Sync.syncNewUploads env cfg dirPath w0 = (Ok r1, w1, evs1) ->
  Sync.errors r1 = 0 ->
  Sync.syncNewUploads env cfg dirPath w1 = (r2, w2, evs2) ->
  nth_error evs1 1 = Some (EvCrListDirectory targetDir (Ok listing)) ->
  nth_error evs2 1 = Some (EvCrListDirectory targetDir (Ok listing)) ->
  r2 = Ok {| Sync.synced := 0; Sync.errors := 0 |}
  /\ w_db w2 = w_db w1
  /\ (exists rc, evs2 = [EvCrCreateDirectory targetDir rc;
                         EvCrListDirectory targetDir (Ok listing)])
  /\ (forall (acc : Sync.SyncResult) (file : DirObject) (w : World E),
        select_by_path (Sync.join_path targetDir (obj_name file)) (w_db w)
        <> None ->
        Sync.sync_file env targetDir acc file w = (Ok acc, w, [])).
Proof.
  intros targetDir H1 Herr H2 Hl1 Hl2.
  assert (Hskip : forall (acc : Sync.SyncResult) (file : DirObject)
                         (w : World E),
            select_by_path (Sync.join_path targetDir (obj_name file))
                           (w_db w) <> None ->
            Sync.sync_file env targetDir acc file w = (Ok acc, w, [])).
  { intros acc file w Hm.
    pose proof (@sync_loop_all_mapped targetDir [file] acc w) as Hone.
    simpl in Hone. unfold bind, ret in Hone.
    destruct (Sync.sync_file env targetDir acc file w) as [[ra wa] ta].
    assert (Hm' : forall f, file = f \/ False ->
              select_by_path (Sync.join_path targetDir (obj_name f)) (w_db w)
              <> None) by (intros f [<-|[]]; exact Hm).
    specialize (Hone Hm'). destruct ra; inversion Hone; subst.
    rewrite app_nil_r. reflexivity. }
  rewrite syncNewUploads_unfold in H1, H2. cbv zeta in H1, H2.
  fold targetDir in H1, H2.
  destruct (cr_createDirectory env targetDir (w_ext w0)) as [rc1 e1].
  destruct (cr_listDirectory env targetDir e1) as [[l1|err1] e2];
    [|discriminate H1].
  destruct (cr_createDirectory env targetDir (w_ext w1)) as [rc2 e3].
  destruct (cr_listDirectory env targetDir e3) as [[l2|err2] e4].
  2: { inversion H2; subst. simpl in Hl2. discriminate Hl2. }
  match type of H1 with
  | context [for_of ?f ?l ?a ?w] =>
      destruct (for_of f l a w) as [[r' w'] t'] eqn:Hloop1
  end.
  inversion H1; subst r' w' evs1; clear H1.
  simpl in Hl1. inversion Hl1; subst l1; clear Hl1.
  apply sync_loop_errors in Hloop1.
  destruct Hloop1 as (res & Hres & _ & Hall).
  inversion Hres; subst res; clear Hres.
  specialize (Hall Herr).
  match type of H2 with
  | context [for_of ?f ?l ?a ?w] =>
      destruct (for_of f l a w) as [[rb wb] tb] eqn:Hloop2
  end.
  inversion H2; subst r2 w2 evs2; clear H2.
  simpl in Hl2. inversion Hl2; subst l2; clear Hl2.
  rewrite sync_loop_all_mapped in Hloop2 by exact Hall.
  inversion Hloop2; subst rb wb tb.
  split; [reflexivity|]. split; [reflexivity|].
  split; [exists rc2; reflexivity | exact Hskip].
Qed.

End SyncFacts.

(** ** importFromTelegram *)

Section ImportFacts.
Context {E : Type} (env : Env E).

(** With a mapping at the destination the import returns at once. *)
Lemma importFromTelegram_existing
    (cfg : Config) (opts : Sync.ImportOpts) (w : World E) (existing : Row) :
  select_by_path (Sync.destPath cfg (Sync.opt_fileName opts)) (w_db w)
  = Some existing ->
  Sync.importFromTelegram env cfg opts w
  = (Ok {| Sync.res_cloudreve_path :=
             Sync.destPath cfg (Sync.opt_fileName opts);
           Sync.tgFileId := telegram_file_id existing;
           Sync.directLink :=
             Sync.buildCloudreveLink (baseUrl cfg)
               (Sync.destPath cfg (Sync.opt_fileName opts)) |},
     w, []).
Proof.
  intros Hsel. unfold Sync.importFromTelegram, Db.getMappingByPath, read_db.
  unfold bind at 1. unfold Sync.destPath in Hsel. rewrite Hsel.
  reflexivity.
Qed.

(** C8, as the code has it. After an [importFromTelegram] call that
    returned, a second call whose file name sanitizes to the same
    destination path finds the mapping stored there: it makes no call at
    all (no secondary-store download, no primary-store upload), leaves the
    state unchanged, and returns the same destination path, the
    [telegram_file_id] of the stored mapping (the one the first call
    returned) and the share link [baseUrl + "/s" + path]. *)
Theorem importFromTelegram_twice
    (cfg : Config) (opts1 opts2 : Sync.ImportOpts)
    (w0 w1 w2 : World E) (res1 : Sync.ImportResult)
    (r2 : outcome Sync.ImportResult) (evs1 evs2 : list event) :
  let dest := Sync.destPath cfg (Sync.opt_fileName opts1) in
  Sync.importFromTelegram env cfg opts1 w0 = (Ok res1, w1, evs1) ->
  Sync.destPath cfg (Sync.opt_fileName opts2) = dest ->
  Sync.importFromTelegram env cfg opts2 w1 = (r2, w2, evs2) ->
  evs2 = []
  /\ w2 = w1
  /\ exists existing,
       select_by_path dest (w_db w1) = Some existing
       /\ r2 = Ok {| Sync.res_cloudreve_path := dest;
                     Sync.tgFileId := telegram_file_id existing;
                     Sync.directLink := baseUrl cfg ++ lit "/s" ++ dest |}
       /\ Sync.res_cloudreve_path res1 = dest
       /\ Sync.tgFileId res1 = telegram_file_id existing.
Proof.
  intros dest H1 Hdest H2.
  assert (Hex : exists existing,
            select_by_path dest (w_db w1) = Some existing
            /\ Sync.res_cloudreve_path res1 = dest
            /\ Sync.tgFileId res1 = telegram_file_id existing).
  { destruct (select_by_path dest (w_db w0)) as [row0|] eqn:Hsel.
    - rewrite (importFromTelegram_existing cfg opts1 w0 Hsel) in H1.
      inversion H1; subst. exists row0. auto.
    - unfold Sync.importFromTelegram, Db.getMappingByPath, read_db in H1.
      unfold bind at 1 in H1.
      change (Sync.join_path (inboxPath cfg)
                (Sync.sanitizeFileName (Sync.opt_fileName opts1)))
        with dest in H1.
      rewrite Hsel in H1.
      run_with env H1.
      all: inversion H1; subst res1 w1 evs1; clear H1.
      all: cbn [w_db];
        match goal with
        | |- context [insert_on_conflict_update ?v ?t] =>
            pose proof (select_upsert_same v t) as Hs
        end;
        cbn [cloudreve_path bound_values rec_path] in Hs;
        rewrite Hsel in Hs.
      all: eexists; split; [exact Hs|]; split; reflexivity. }
  destruct Hex as (existing & Hsel1 & Hp & Hid).
  rewrite <- Hdest in Hsel1.
  rewrite (importFromTelegram_existing cfg opts2 w1 Hsel1) in H2.
  inversion H2; subst r2 w2 evs2; clear H2.
  split; [reflexivity|]. split; [reflexivity|].
  exists existing. rewrite Hdest in *.
  split; [exact Hsel1|]. split; [reflexivity|]. split; assumption.
Qed.

End ImportFacts.

(* ================================================================== *)
(** * The properties on concrete worlds                                *)
(* ================================================================== *)

Import Scenario.

Lemma run_eta {A} (x : outcome A * World Z * list event) :
  x = (result_of x, world_of x, trace_of x).
Proof. destruct x as [[r w] t]. reflexivity. Defined.

Lemma upsert_same_path_twice_witness :
  let run1 := Db.upsertMapping (env_of happy) rec_first w_empty in
  let run2 := Db.upsertMapping (env_of happy) rec_second (world_of run1) in
  unique_paths (w_db w_empty)
  /\ rec_path rec_second = rec_path rec_first
  /\ rows_for (rec_path rec_first) (w_db (world_of run2)) = 1%nat
  /\ exists row2,
       select_by_path (rec_path rec_first) (w_db (world_of run2)) = Some row2
       /\ telegram_file_id row2 = lit "tg-file-002"
       /\ has_local_cache row2 = 0
       /\ created_at row2 = 1700000000.
Proof.
  intros run1 run2.
  assert (Hu : unique_paths (w_db w_empty)) by constructor.
  assert (Hp : rec_path rec_second = rec_path rec_first) by reflexivity.
  destruct (@upsert_same_path_twice Z (env_of happy) w_empty
              (world_of run1) (world_of run2) rec_first rec_second
              (result_of run1) (result_of run2)
              (trace_of run1) (trace_of run2)
              Hu Hp (run_eta run1) (run_eta run2))
    as (_ & _ & Hone & _ & row1 & row2 & S1 & S2 & _ & _ & Htg & _ & _ & _
        & _ & _ & Hc & Hcr & _ & H0).
  split; [exact Hu|]. split; [exact Hp|]. split; [exact Hone|].
  exists row2. split; [exact S2|]. split; [exact Htg|]. split; [exact Hc|].
  rewrite Hcr. exact H0.
Defined.

Lemma downloadProxy_restore_on_miss_witness :
  let run := Sync.downloadProxy (env_of happy) report_path w_cold in
  select_by_path report_path (w_db w_cold) = Some (report_row 0)
  /\ has_local_cache (report_row 0) = 0
  /\ In (EvTgDownloadFile (lit "sec-42") (Ok tg_pdf)) (trace_of run)
  /\ In (EvCrUploadFile restore_upload (Ok (lit "cf-2"))) (trace_of run)
  /\ result_of run
     = Ok {| Sync.out_buffer   := pdf_bytes;
             Sync.out_fileName := Some (lit "report.pdf");
             Sync.out_mimeType := lit "text/plain" |}
  /\ exists row,
       select_by_path report_path (w_db (world_of run)) = Some row
       /\ has_local_cache row = 1
       /\ cloudreve_file_id row = Some (lit "cf-2")
       /\ telegram_file_id row = lit "sec-42"
       /\ telegram_message_id row = Some 7
       /\ created_at row = 1680000000.
Proof.
  intros run.
  assert (Hs : select_by_path report_path (w_db w_cold) = Some (report_row 0))
    by reflexivity.
  assert (Hc : has_local_cache (report_row 0) = 0) by reflexivity.
  assert (Hd : In (EvTgDownloadFile (telegram_file_id (report_row 0))
                     (Ok tg_pdf)) (trace_of run))
    by (vm_compute; auto 10).
  assert (Hup : In (EvCrUploadFile restore_upload (Ok (lit "cf-2")))
                   (trace_of run))
    by (vm_compute; auto 10).
  destruct (@downloadProxy_restore_on_miss Z (env_of happy) w_cold
              (world_of run) report_path (report_row 0) (result_of run)
              (trace_of run) tg_pdf restore_upload (lit "cf-2")
              Hs Hc (run_eta run) Hd Hup)
    as (Hr & _ & _ & Hrow).
  split; [exact Hs|]. split; [exact Hc|]. split; [exact Hd|].
  split; [exact Hup|]. split; [exact Hr | exact Hrow].
Defined.

Lemma downloadProxy_restore_failure_witness :
  let run := Sync.downloadProxy (env_of upload_fails) report_path w_cold in
  select_by_path report_path (w_db w_cold) = Some (report_row 0)
  /\ In (EvCrUploadFile restore_upload (Throw boom)) (trace_of run)
  /\ exists dl,
       In (EvTgDownloadFile (lit "sec-42") (Ok dl)) (trace_of run)
       /\ result_of run
          = Ok {| Sync.out_buffer   := dl_buffer dl;
                  Sync.out_fileName := Some (lit "report.pdf");
                  Sync.out_mimeType := lit "text/plain" |}
       /\ exists row,
            select_by_path report_path (w_db (world_of run)) = Some row
            /\ has_local_cache row = 0
            /\ telegram_file_id row = lit "sec-42"
            /\ telegram_message_id row = Some 7
            /\ created_at row = 1680000000.
Proof.
  intros run.
  assert (Hs : select_by_path report_path (w_db w_cold) = Some (report_row 0))
    by reflexivity.
  assert (Hup : In (EvCrUploadFile restore_upload (Throw boom)) (trace_of run))
    by (vm_compute; auto 10).
  split; [exact Hs|]. split; [exact Hup|].
  exact (@downloadProxy_restore_failure Z (env_of upload_fails) w_cold
           (world_of run) report_path (report_row 0) (result_of run)
           (trace_of run) restore_upload boom Hs (run_eta run) Hup).
Defined.

Lemma downloadProxy_cache_hit_mime_witness :
  let run := Sync.downloadProxy (env_of happy) report_path w_hot in
  select_by_path report_path (w_db w_hot) = Some (report_row 1)
  /\ has_local_cache (report_row 1) <> 0
  /\ In (EvCrDownloadFile (Some (lit "cf-1")) (Ok png_response)) (trace_of run)
  /\ ok png_response = true
  /\ body png_response = Ok pdf_bytes
  /\ result_of run
     = Ok {| Sync.out_buffer   := pdf_bytes;
             Sync.out_fileName := Some (lit "report.pdf");
             Sync.out_mimeType := lit "image/png" |}.
Proof.
  intros run.
  assert (Hs : select_by_path report_path (w_db w_hot) = Some (report_row 1))
    by reflexivity.
  assert (Hc : has_local_cache (report_row 1) <> 0) by discriminate.
  assert (Hd : In (EvCrDownloadFile (cloudreve_file_id (report_row 1))
                     (Ok png_response)) (trace_of run))
    by (vm_compute; auto 10).
  assert (Hok : ok png_response = true) by reflexivity.
  assert (Hb : body png_response = Ok pdf_bytes) by reflexivity.
  destruct (@downloadProxy_cache_hit_mime Z (env_of happy) w_hot
              (world_of run) report_path (report_row 1) (result_of run)
              (trace_of run) png_response pdf_bytes
              Hs Hc (run_eta run) Hd Hok Hb)
    as (Hr & _).
  repeat (split; [assumption|]). exact Hr.
Defined.

(** C4 as stated fails: on a cache hit whose mapping stores the MIME type
    [text/plain] while the live response says [image/png], the proxy returns
    [image/png]; the stored metadata is present and is not preferred. *)
Lemma cache_hit_mime_counterexample :
  let run := Sync.downloadProxy (env_of happy) report_path w_hot in
  exists mapping res,
    select_by_path report_path (w_db w_hot) = Some mapping
    /\ has_local_cache mapping = 1
    /\ mime_type mapping = Some (lit "text/plain")
    /\ trace_of run
       = [EvDateNow t0;
          EvCrDownloadFile (cloudreve_file_id mapping) (Ok png_response)]
    /\ content_type png_response = Some (lit "image/png")
    /\ result_of run = Ok res
    /\ Sync.out_mimeType res = lit "image/png"
    /\ Sync.out_mimeType res <> lit "text/plain".
Proof.
  intros run. eexists (report_row 1), _.
  repeat (split; [vm_compute; reflexivity|]).
  vm_compute. discriminate.
Qed.

Lemma sync_created_mapping_stale_witness :
  let run := Sync.syncNewUploads (env_of happy) cfg None w_empty in
  select_by_path report_path (w_db w_empty) = None
  /\ select_by_path report_path (w_db (world_of run)) = Some synced_report_row
  /\ exists ms,
       In (EvDateNow ms) (trace_of run)
       /\ last_accessed synced_report_row = floor_secs ms
       /\ has_local_cache synced_report_row = 1.
Proof.
  intros run.
  assert (Hn : select_by_path report_path (w_db w_empty) = None)
    by reflexivity.
  assert (Hs : select_by_path report_path (w_db (world_of run))
               = Some synced_report_row)
    by (vm_compute; reflexivity).
  destruct (@sync_created_mapping_stale Z (env_of happy) cfg None w_empty
              (world_of run) (result_of run) (trace_of run)
              report_path synced_report_row (run_eta run) Hn Hs)
    as (ms & Hin & Hla & Hc & _).
  split; [exact Hn|]. split; [exact Hs|].
  exists ms. split; [exact Hin|]. split; [exact Hla | exact Hc].
Defined.

(** C6 as stated fails: the mapping a sync creates carries the time of the
    sync as [last_accessed], not [0]; without ever being served it is
    returned by [getStaleEntries] thirty days later for a seven-day
    threshold. *)
Lemma sync_last_accessed_counterexample :
  let run := Sync.syncNewUploads (env_of happy) cfg None w_empty in
  select_by_path report_path (w_db w_empty) = None
  /\ result_of run = Ok {| Sync.synced := 1; Sync.errors := 0 |}
  /\ select_by_path report_path (w_db (world_of run)) = Some synced_report_row
  /\ last_accessed synced_report_row = 1700000004
  /\ last_accessed synced_report_row <> 0
  /\ result_of (Db.getStaleEntries (env_of happy) (7 * 24 * 60 * 60)
                  (later (30 * day_ms) (world_of run)))
     = Ok [synced_report_row].
Proof.
  intros run.
  repeat (split; [vm_compute; first [reflexivity | discriminate]|]).
  vm_compute. reflexivity.
Qed.

Lemma sync_twice_idempotent_witness :
  let run1 := Sync.syncNewUploads (env_of happy) cfg None w_empty in
  let run2 := Sync.syncNewUploads (env_of happy) cfg None (world_of run1) in
  result_of run1 = Ok {| Sync.synced := 1; Sync.errors := 0 |}
  /\ nth_error (trace_of run1) 1
     = Some (EvCrListDirectory (inboxPath cfg) (Ok (Some [report])))
  /\ nth_error (trace_of run2) 1
     = Some (EvCrListDirectory (inboxPath cfg) (Ok (Some [report])))
  /\ result_of run2 = Ok {| Sync.synced := 0; Sync.errors := 0 |}
  /\ w_db (world_of run2) = w_db (world_of run1).
Proof.
  intros run1 run2.
  assert (H1 : run1 = (Ok {| Sync.synced := 1; Sync.errors := 0 |},
                       world_of run1, trace_of run1))
    by (vm_compute; reflexivity).
  assert (He : Sync.errors {| Sync.synced := 1; Sync.errors := 0 |} = 0)
    by reflexivity.
  assert (L1 : nth_error (trace_of run1) 1
               = Some (EvCrListDirectory (or_str None (inboxPath cfg))
                         (Ok (Some [report]))))
    by (vm_compute; reflexivity).
  assert (L2 : nth_error (trace_of run2) 1
               = Some (EvCrListDirectory (or_str None (inboxPath cfg))
                         (Ok (Some [report]))))
    by (vm_compute; reflexivity).
  destruct (@sync_twice_idempotent Z (env_of happy) cfg None w_empty
              (world_of run1) (world_of run2) _ (result_of run2)
              (trace_of run1) (trace_of run2) (Some [report])
              H1 He (run_eta run2) L1 L2)
    as (Hr & Hdb & _).
  split; [vm_compute; reflexivity|].
  split; [exact L1|]. split; [exact L2|]. split; [exact Hr | exact Hdb].
Defined.

(** C7 as stated fails: with the same listing and the table untouched
    between the two runs, a file whose download failed in the first run has
    no mapping, so the second run backs it up and returns [synced = 1]. *)
Lemma sync_twice_counterexample :
  let run1 := Sync.syncNewUploads (env_of flaky) cfg None w_empty in
  let run2 := Sync.syncNewUploads (env_of flaky) cfg None (world_of run1) in
  result_of run1 = Ok {| Sync.synced := 0; Sync.errors := 1 |}
  /\ w_db (world_of run1) = w_db w_empty
  /\ nth_error (trace_of run1) 1
     = Some (EvCrListDirectory (inboxPath cfg) (Ok (Some [report])))
  /\ nth_error (trace_of run2) 1
     = Some (EvCrListDirectory (inboxPath cfg) (Ok (Some [report])))
  /\ result_of run2 = Ok {| Sync.synced := 1; Sync.errors := 0 |}
  /\ (exists a up, In (EvTgUploadFile a (Ok up)) (trace_of run2)).
Proof.
  intros run1 run2.
  repeat (split; [vm_compute; reflexivity|]).
  eexists _, _. vm_compute. auto 10.
Qed.

Lemma importFromTelegram_twice_witness :
  let run1 := Sync.importFromTelegram (env_of happy) cfg import_opts w_empty in
  let run2 := Sync.importFromTelegram (env_of happy) cfg import_opts
                (world_of run1) in
  (exists res1, result_of run1 = Ok res1)
  /\ trace_of run2 = []
  /\ world_of run2 = world_of run1
  /\ exists existing,
       select_by_path report_path (w_db (world_of run1)) = Some existing
       /\ result_of run2
          = Ok {| Sync.res_cloudreve_path := report_path;
                  Sync.tgFileId := telegram_file_id existing;
                  Sync.directLink :=
                    lit "http://cloudreve:5212/s/TelegramInbox/report.pdf" |}.
Proof.
  intros run1 run2.
  assert (H1 : run1 = (Ok {| Sync.res_cloudreve_path := report_path;
                             Sync.tgFileId := lit "sec-42";
                             Sync.directLink :=
                               lit "http://cloudreve:5212/s/TelegramInbox/report.pdf" |},
                       world_of run1, trace_of run1))
    by (vm_compute; reflexivity).
  destruct (@importFromTelegram_twice Z (env_of happy) cfg import_opts
              import_opts w_empty (world_of run1) (world_of run2) _
              (result_of run2) (trace_of run1) (trace_of run2)
              H1 eq_refl (run_eta run2))
    as (He & Hw & existing & Hs & Hr & _).
  split; [eexists; vm_compute; reflexivity|].
  split; [exact He|]. split; [exact Hw|].
  exists existing. split; [exact Hs | exact Hr].
Defined.

(** C8 as stated fails: when the first of two imports of the same file name
    throws (here the secondary-store download fails), no mapping is stored,
    and the second import downloads from the secondary store and uploads to
    the primary store. *)
Lemma importFromTelegram_twice_counterexample :
  let run1 := Sync.importFromTelegram (env_of flaky) cfg import_opts w_empty in
  let run2 := Sync.importFromTelegram (env_of flaky) cfg import_opts
                (world_of run1) in
  result_of run1 = Throw boom
  /\ w_db (world_of run1) = w_db w_empty
  /\ (exists dl, In (EvTgDownloadFile (lit "sec-42") (Ok dl)) (trace_of run2))
  /\ (exists a id, In (EvCrUploadFile a (Ok id)) (trace_of run2)).
Proof.
  intros run1 run2.
  split; [vm_compute; reflexivity|]. split; [vm_compute; reflexivity|].
  split; [eexists | eexists _, _]; vm_compute; auto 10.
Qed.

(** White space is not replaced character by character: on a name with
    two spaces in a row the run leaves one underscore, where a replacement
    of each character would leave two. *)
Lemma sanitizeFileName_each_counterexample :
  let name := lit "a  b" in
  Sync.sanitizeFileName (Str name) = lit "a_b"
  /\ map (fun c => if is_unsafe c || is_space c then underscore else c) name
     = lit "a__b"
  /\ Sync.sanitizeFileName (Str name)
     <> map (fun c => if is_unsafe c || is_space c then underscore else c)
            name.
Proof.
  intros name. split; [reflexivity|]. split; [reflexivity|].
  vm_compute. discriminate.
Qed.

Lemma runEviction_pass_witness :
  let run := Cache.runEviction (env_of delete_mixed) cfg w_two in
  unique_paths (w_db w_two)
  /\ result_of run = Ok {| Cache.evicted := 1; Cache.errors := 1 |}
  /\ exists outs : list (outcome unit),
       List.length outs = 2%nat
       /\ result_of run = Ok {| Cache.evicted := count_ok outs;
                                Cache.errors := count_throw outs |}
       /\ forall x o, In (x, o) (combine [report_row 1; stuck_row] outs) ->
            exists row,
              select_by_path (cloudreve_path x) (w_db (world_of run))
              = Some row
              /\ has_local_cache row = (if is_ok o then 0 else 1)
              /\ telegram_file_id row = telegram_file_id x.
Proof.
  intros run.
  assert (Hu : unique_paths (w_db w_two)).
  { repeat constructor; simpl; intuition discriminate. }
  destruct (@runEviction_pass Z (env_of delete_mixed) cfg w_two
              (world_of run) (result_of run) (trace_of run)
              Hu (run_eta run))
    as (outs & Hlen & _ & _ & _ & Hval & _ & _ & Hrows & _).
  split; [exact Hu|]. split; [vm_compute; reflexivity|].
  exists outs. split; [exact Hlen|]. split.
  { apply Hval. intros x Hx. vm_compute in Hx.
    destruct Hx as [<-|[<-|[]]]; vm_compute; discriminate. }
  intros x o Hin.
  destruct (Hrows x o Hin) as (_ & _ & row & Hsel & Hflag & _ & _ & _ & Htg & _).
  exists row. split; [exact Hsel|]. split; [exact Hflag | exact Htg].
Defined.

(* ================================================================== *)
(** * Further properties of the mapping store                          *)
(* ================================================================== *)

Lemma update_absent (f : Row -> Row) (p : jsstring) (t : table) :
  select_by_path p t = None -> update_where_path f p t = t.
Proof.
  unfold select_by_path, update_where_path.
  induction t as [|r t IH]; simpl; [reflexivity|].
  destruct (path_is p r); [discriminate|]. intros H. rewrite IH by exact H.
  reflexivity.
Qed.

Lemma select_by_cloudreve_id_some (i : jsstring) (t : table) (r : Row) :
  select_by_cloudreve_id i t = Some r ->
  In r t /\ cloudreve_file_id r = Some i.
Proof.
  unfold select_by_cloudreve_id. intros H. apply find_some in H.
  destruct H as [Hin Hid]. split; [exact Hin|].
  destruct (cloudreve_file_id r) as [j|]; [|discriminate].
  apply str_eqb_eq in Hid. congruence.
Qed.

Lemma select_by_cloudreve_id_none (i : jsstring) (t : table) :
  select_by_cloudreve_id i t = None <->
  (forall r, In r t -> cloudreve_file_id r <> Some i).
Proof.
  unfold select_by_cloudreve_id. split.
  - intros H r Hin Hid.
    pose proof (find_none _ _ H r Hin) as Hf. cbv beta in Hf.
    rewrite Hid, str_eqb_refl in Hf. discriminate.
  - intros H.
    destruct (find _ t) as [r|] eqn:Hf; [|reflexivity].
    apply find_some in Hf. destruct Hf as [Hin Hid].
    destruct (cloudreve_file_id r) as [j|] eqn:Hj; [|discriminate].
    apply str_eqb_eq in Hid. subst j. exfalso. exact (H r Hin Hj).
Qed.

Section StoreExtras.
Context {E : Type} (env : Env E).

(** X1. Insert then look up, for a record whose strings hold no unpaired
    surrogate (text that the database stores as it is): after
    [upsertMapping(record)] the lookup by the record's path finds a row that
    carries the record's values (with the defaults of the [??] operators),
    a new row getting [record.createdAt] or, when that is missing, the clock
    reading; lookups by any other well-formed path give what they gave
    before. *)
Theorem upsertMapping_lookup (record : MappingRecord) (w : World E) :
  well_formed_record record = true ->
  let '(r, w', evs) := Db.upsertMapping env record w in
  r = Ok tt
  /\ (exists row,
        select_by_path (rec_path record) (w_db w') = Some row
        /\ cloudreve_path row = rec_path record
        /\ cloudreve_file_id row = cloudreveFileId record
        /\ telegram_file_id row = telegramFileId record
        /\ telegram_message_id row = telegramMessageId record
        /\ file_name row = fileName record
        /\ file_size row = nullish (fileSize record) 0
        /\ mime_type row = mimeType record
        /\ last_accessed row = nullish (lastAccessed record) 0
        /\ has_local_cache row = nullish (hasLocalCache record) 1
        /\ match select_by_path (rec_path record) (w_db w) with
           | Some old => created_at row = created_at old
                         /\ row_id row = row_id old
           | None =>
               created_at row
               = nullish (createdAt record)
                         (floor_secs (fst (date_now env (w_ext w))))
           end)
  /\ (forall q, isWellFormed q = true -> q <> rec_path record ->
        select_by_path q (w_db w') = select_by_path q (w_db w)).
Proof.
  intros _.
  destruct (upsertMapping_run env record w) as (c & w' & evs & R & D & C).
  rewrite R. split; [reflexivity|]. split.
  - pose proof (select_upsert_same (bound_values record c) (w_db w)) as S.
    rewrite <- D in S. cbn [cloudreve_path bound_values] in S.
    eexists. split; [exact S|].
    destruct (select_by_path (rec_path record) (w_db w)) as [old|] eqn:S0.
    + apply select_some_in in S0. destruct S0 as [_ S0].
      repeat (split; [solve [reflexivity | exact S0]|]).
      split; reflexivity.
    + repeat (split; [reflexivity|]). cbn [created_at with_row_id bound_values].
      destruct (createdAt record) as [c0|]; cbn [nullish].
      * tauto.
      * destruct C as (ms & _ & Hn & ->). rewrite Hn. reflexivity.
  - intros q _ Hq. rewrite D. apply select_upsert_other.
    cbn [cloudreve_path bound_values]. congruence.
Qed.

(** X2. Every write of db.js keeps the unique index on the path: a table
    in which no two rows share a path stays so after [upsertMapping],
    [touchMapping], [markEvicted] and [markCached]. *)
Theorem writes_keep_unique_index
    (record : MappingRecord) (p : jsstring) (w : World E) :
  unique_paths (w_db w) ->
  unique_paths (w_db (snd (fst (Db.upsertMapping env record w))))
  /\ unique_paths (w_db (snd (fst (Db.touchMapping env p w))))
  /\ unique_paths (w_db (snd (fst (Db.markEvicted (E:=E) p w))))
  /\ unique_paths (w_db (snd (fst (Db.markCached env p w)))).
Proof.
  intros Hu. split; [|split; [|split]].
  - destruct (upsertMapping_run env record w) as (c & w' & evs & R & D & _).
    rewrite R. cbn [fst snd]. rewrite D. apply upsert_unique. exact Hu.
  - unfold_m. destruct (date_now env (w_ext w)) as [ms e'].
    cbn [fst snd w_db]. apply update_unique; auto.
  - unfold_m. cbn [fst snd w_db]. apply update_unique; auto.
  - unfold_m. destruct (date_now env (w_ext w)) as [ms e'].
    cbn [fst snd w_db]. apply update_unique; auto.
Qed.

(** X3. [touchMapping], [markEvicted] and [markCached] never throw, leave
    the table as it is when the path has no mapping, and otherwise change
    only [last_accessed] (touch), [has_local_cache] (evict) or both
    (cache) of the row at the path; rows at other paths are untouched. *)
Theorem updates_are_local (p : jsstring) (w : World E) :
  let now := floor_secs (fst (date_now env (w_ext w))) in
  let touched := Db.touchMapping env p w in
  let evicted := Db.markEvicted (E:=E) p w in
  let cached := Db.markCached env p w in
  fst (fst touched) = Ok tt
  /\ fst (fst evicted) = Ok tt
  /\ fst (fst cached) = Ok tt
  /\ select_by_path p (w_db (snd (fst touched)))
     = option_map (set_last_accessed now) (select_by_path p (w_db w))
  /\ select_by_path p (w_db (snd (fst evicted)))
     = option_map (set_has_local_cache 0) (select_by_path p (w_db w))
  /\ select_by_path p (w_db (snd (fst cached)))
     = option_map (fun r => set_last_accessed now (set_has_local_cache 1 r))
                  (select_by_path p (w_db w))
  /\ (forall q, q <> p ->
        select_by_path q (w_db (snd (fst touched)))
        = select_by_path q (w_db w)
        /\ select_by_path q (w_db (snd (fst evicted)))
           = select_by_path q (w_db w)
        /\ select_by_path q (w_db (snd (fst cached)))
           = select_by_path q (w_db w))
  /\ (select_by_path p (w_db w) = None ->
      w_db (snd (fst touched)) = w_db w
      /\ w_db (snd (fst evicted)) = w_db w
      /\ w_db (snd (fst cached)) = w_db w).
Proof.
  intros now touched evicted cached.
  subst now touched evicted cached. unfold_m.
  destruct (date_now env (w_ext w)) as [ms e']. cbn [fst snd w_db].
  repeat (split; [reflexivity|]).
  split; [apply select_update_same; reflexivity|].
  split; [apply select_update_same; reflexivity|].
  split; [apply select_update_same; reflexivity|].
  split.
  - intros q Hq.
    repeat split; apply select_update_other; auto.
  - intros Hn. repeat split; apply update_absent; exact Hn.
Qed.

(** X4. An evicted mapping is out of the eviction scan: after
    [markEvicted(path)], whatever the cutoff, no row of that path is
    selected as stale, and every row of that path is listed by
    [getEvictedEntries], which returns exactly the stored rows with
    [has_local_cache = 0]. *)
Theorem markEvicted_leaves_scan (p : jsstring) (w : World E) :
  let w' := snd (fst (Db.markEvicted (E:=E) p w)) in
  (forall row cutoff,
     In row (w_db w') -> cloudreve_path row = p ->
     ~ In row (select_stale cutoff (w_db w')))
  /\ (forall row,
        In row (w_db w') -> cloudreve_path row = p ->
        In row (select_evicted (w_db w')))
  /\ (forall (w2 : World E),
        fst (fst (Db.getEvictedEntries w2)) = Ok (select_evicted (w_db w2))
        /\ forall row, In row (select_evicted (w_db w2)) <->
                       In row (w_db w2) /\ has_local_cache row = 0).
Proof.
  intros w'. subst w'. unfold_m. cbn [fst snd w_db].
  assert (Hz : forall row,
            In row (update_where_path (set_has_local_cache 0) p (w_db w)) ->
            cloudreve_path row = p -> has_local_cache row = 0).
  { intros row Hin Hp. unfold update_where_path in Hin.
    apply in_map_iff in Hin. destruct Hin as (x & Hx & _).
    destruct (path_is p x) eqn:Hpx.
    - subst row. reflexivity.
    - subst row. apply str_eqb_neq in Hpx. congruence. }
  split; [|split].
  - intros row cutoff Hin Hp Hs. apply select_stale_in in Hs.
    rewrite (Hz row Hin Hp) in Hs. lia.
  - intros row Hin Hp. unfold select_evicted. apply filter_In.
    split; [exact Hin|]. rewrite (Hz row Hin Hp). reflexivity.
  - intros w2. split; [reflexivity|]. intros row. unfold select_evicted.
    rewrite filter_In, Z.eqb_eq. tauto.
Qed.

(** X5. A mapping that was just touched is not stale: after
    [touchMapping(path)] read the clock at second [s], a scan of the same
    table with threshold [T] at a clock reading [now] with [now - T <= s]
    (in particular at the same second with [T >= 0]) returns no row of
    that path. *)
Theorem touched_is_not_stale
    (p : jsstring) (w w2 : World E) (T : Z) (row : Row) :
  let s := floor_secs (fst (date_now env (w_ext w))) in
  let w' := snd (fst (Db.touchMapping env p w)) in
  let now := floor_secs (fst (date_now env (w_ext w2))) in
  w_db w2 = w_db w' ->
  now - T <= s ->
  cloudreve_path row = p ->
  forall rows, fst (fst (Db.getStaleEntries env T w2)) = Ok rows ->
               ~ In row rows.
Proof.
  intros s w' now Hdb Hle Hp rows Hrows Hin.
  rewrite getStaleEntries_run in Hrows. cbn [fst] in Hrows.
  inversion Hrows; subst rows; clear Hrows.
  apply select_stale_in in Hin. destruct Hin as (Hin & _ & Hlt & _).
  rewrite Hdb in Hin. subst w'. unfold_m.
  destruct (date_now env (w_ext w)) as [ms e'] eqn:Hnow.
  cbn [fst snd w_db] in *.
  unfold update_where_path in Hin. apply in_map_iff in Hin.
  destruct Hin as (x & Hx & _).
  destruct (path_is p x) eqn:Hpx.
  - subst row. cbn [last_accessed set_last_accessed] in Hlt.
    subst s now. lia.
  - subst row. apply str_eqb_neq in Hpx. congruence.
Qed.

(** X6. [getMappingByCloudreveId(id)] returns a stored row whose
    [cloudreve_file_id] is [id], and the empty result exactly when no stored
    row carries that id (a row with a NULL id never matches); once
    [upsertMapping] has stored a record with that id the lookup is not
    empty. *)
Theorem getMappingByCloudreveId_exact
    (id : jsstring) (record : MappingRecord) (w : World E) :
  (forall row,
     fst (fst (Db.getMappingByCloudreveId id w)) = Ok (Some row) ->
     In row (w_db w) /\ cloudreve_file_id row = Some id)
  /\ (fst (fst (Db.getMappingByCloudreveId (E:=E) id w)) = Ok None <->
      forall row, In row (w_db w) -> cloudreve_file_id row <> Some id)
  /\ (cloudreveFileId record = Some id ->
      exists row,
        fst (fst (Db.getMappingByCloudreveId id
                    (snd (fst (Db.upsertMapping env record w)))))
        = Ok (Some row)
        /\ cloudreve_file_id row = Some id).
Proof.
  unfold Db.getMappingByCloudreveId, read_db. cbn [fst].
  split; [|split].
  - intros row H. inversion H as [H1].
    apply select_by_cloudreve_id_some. exact H1.
  - rewrite <- select_by_cloudreve_id_none. split; intros H; congruence.
  - intros Hid.
    destruct (upsertMapping_run env record w) as (c & w' & evs & R & D & _).
    rewrite R. cbn [fst snd].
    destruct (select_by_cloudreve_id id (w_db w')) as [row|] eqn:Hs.
    + exists row. split; [reflexivity|].
      apply select_by_cloudreve_id_some in Hs. tauto.
    + exfalso.
      pose proof (select_upsert_same (bound_values record c) (w_db w)) as S.
      rewrite <- D in S. apply select_some_in in S. destruct S as [Hin _].
      rewrite select_by_cloudreve_id_none in Hs.
      apply (Hs _ Hin).
      destruct (select_by_path (cloudreve_path (bound_values record c))
                  (w_db w)); exact Hid.
Qed.

End StoreExtras.

(* ================================================================== *)
(** * Further properties of the download proxy                         *)
(* ================================================================== *)

(** Whether a response of the primary store delivers the bytes. *)
Lemma or_str_nonempty (s : option jsstring) (d : jsstring) :
  d <> [] -> or_str s d <> [].
Proof. destruct s as [[|c r]|]; simpl; auto; discriminate. Qed.

Section ProxyExtras.
Context {E : Type} (env : Env E).

(** X7. Without a mapping for the path, [downloadProxy] throws the error
    with [status = 404] whose message names the path, before any call is
    made: the table, the outside world and the clock are not touched. *)
Theorem downloadProxy_not_found (p : jsstring) (w : World E) :
  select_by_path p (w_db w) = None ->
  Sync.downloadProxy env p w
  = (Throw {| err_message := lit "No mapping found for path: " ++ p;
              err_status := Some 404 |},
     w, []).
Proof.
  intros Hn. unfold Sync.downloadProxy, Db.getMappingByPath, read_db.
  unfold bind at 1. rewrite Hn. reflexivity.
Qed.

(** X8. [downloadProxy] never creates or removes a mapping and never
    moves its anchor: for every path, a row stored before the call is still
    stored after it with the same rowid, path, [telegram_file_id],
    [telegram_message_id] and [created_at], whichever branch ran and whether
    or not the call threw; a path without a row before has none after. *)
Theorem downloadProxy_keeps_anchor
    (p q : jsstring) (w : World E) :
  let w' := snd (fst (Sync.downloadProxy env p w)) in
  match select_by_path q (w_db w) with
  | Some row =>
      exists row',
        select_by_path q (w_db w') = Some row'
        /\ row_id row' = row_id row
        /\ cloudreve_path row' = cloudreve_path row
        /\ telegram_file_id row' = telegram_file_id row
        /\ telegram_message_id row' = telegram_message_id row
        /\ created_at row' = created_at row
  | None => select_by_path q (w_db w') = None
  end.
Proof.
  intros w'. subst w'.
  destruct (Sync.downloadProxy env p w) as [[r w'] evs] eqn:Hrun.
  cbn [fst snd].
  unfold Sync.downloadProxy, Sync.cache_hit, Sync.restore in Hrun.
  unfold Db.getMappingByPath, read_db in Hrun.
  unfold bind at 1 in Hrun.
  destruct (select_by_path p (w_db w)) as [mapping|] eqn:Hsel.
  2: { unfold throw in Hrun. inversion Hrun; subst.
       destruct (select_by_path q (w_db w')) as [row|]; [|reflexivity].
       exists row. repeat split; reflexivity. }
  assert (Hkeep : forall (f : Row -> Row) (t : table),
            (forall x, row_id (f x) = row_id x
                       /\ cloudreve_path (f x) = cloudreve_path x
                       /\ telegram_file_id (f x) = telegram_file_id x
                       /\ telegram_message_id (f x) = telegram_message_id x
                       /\ created_at (f x) = created_at x) ->
            match select_by_path q t with
            | Some row =>
                exists row',
                  select_by_path q (update_where_path f p t) = Some row'
                  /\ row_id row' = row_id row
                  /\ cloudreve_path row' = cloudreve_path row
                  /\ telegram_file_id row' = telegram_file_id row
                  /\ telegram_message_id row' = telegram_message_id row
                  /\ created_at row' = created_at row
            | None => select_by_path q (update_where_path f p t) = None
            end).
  { intros f t Hf.
    assert (Hfp : forall x, cloudreve_path (f x) = cloudreve_path x)
      by (intros x; apply Hf).
    destruct (str_eqb p q) eqn:Hpq.
    - apply str_eqb_eq in Hpq. subst q.
      rewrite (select_update_same f Hfp).
      destruct (select_by_path p t) as [row|]; [|reflexivity].
      exists (f row). split; [reflexivity|]. apply Hf.
    - apply str_eqb_neq in Hpq.
      rewrite (select_update_other f Hfp t Hpq).
      destruct (select_by_path q t) as [row|]; [|reflexivity].
      exists row. repeat split; reflexivity. }
  pose proof (Hkeep (set_last_accessed
                       (floor_secs (fst (date_now env (w_ext w)))))
                    (w_db w)
                    (fun x => conj eq_refl (conj eq_refl (conj eq_refl
                                (conj eq_refl eq_refl))))) as Htouch.
  run_with env Hrun.
  all: inversion Hrun; subst r w' evs; clear Hrun; cbn [w_db].
  all: cbn [fst] in Htouch.
  all: try exact Htouch.
  (* the restore either upserted or marked the row evicted *)
  all: destruct (str_eqb p q) eqn:Hpq;
    [apply str_eqb_eq in Hpq; subst q | apply str_eqb_neq in Hpq].
  all: try (rewrite select_upsert_other
              by (cbn [cloudreve_path bound_values rec_path]; exact Hpq);
            exact Htouch).
  all: try (rewrite select_update_other by (auto; reflexivity);
            exact Htouch).
  all: rewrite Hsel in *.
  all: try (rewrite evict_select, touch_select, Hsel; cbn [option_map];
            eexists; split; [reflexivity|]; repeat split; reflexivity).
  all: match goal with
       | |- context [insert_on_conflict_update ?v ?t] =>
           pose proof (select_upsert_same v t) as Hs
       end;
    cbn [cloudreve_path bound_values rec_path] in Hs;
    rewrite touch_select, Hsel in Hs; cbn [option_map] in Hs.
  all: eexists; split; [exact Hs|]; repeat split; reflexivity.
Qed.

(** X9. An access attempt counts: whenever the path has a mapping,
    [downloadProxy] first reads the clock, and whichever branch runs, also
    when the call throws, the row of the path ends with [last_accessed]
    equal to a clock reading (in seconds) taken during the call. *)
Theorem downloadProxy_counts_access
    (p : jsstring) (w : World E) (mapping : Row) :
  select_by_path p (w_db w) = Some mapping ->
  let '(r, w', evs) := Sync.downloadProxy env p w in
  hd_error evs = Some (EvDateNow (fst (date_now env (w_ext w))))
  /\ exists ms row',
       In (EvDateNow ms) evs
       /\ select_by_path p (w_db w') = Some row'
       /\ last_accessed row' = floor_secs ms.
Proof.
  intros Hsel.
  destruct (Sync.downloadProxy env p w) as [[r w'] evs] eqn:Hrun.
  unfold Sync.downloadProxy, Sync.cache_hit, Sync.restore in Hrun.
  unfold Db.getMappingByPath, read_db in Hrun.
  unfold bind at 1 in Hrun. rewrite Hsel in Hrun.
  run_with env Hrun.
  all: inversion Hrun; subst r w' evs; clear Hrun; cbn [w_db fst].
  all: split; [reflexivity|].
  all: try (eexists _, _; split; [simpl; left; reflexivity|];
            rewrite ?evict_select, touch_select, Hsel; cbn [option_map];
            split; reflexivity).
  all: match goal with
       | |- context [insert_on_conflict_update ?v ?t] =>
           pose proof (select_upsert_same v t) as Hs
       end;
    cbn [cloudreve_path bound_values rec_path] in Hs;
    rewrite touch_select, Hsel in Hs; cbn [option_map] in Hs.
  all: eexists _, _; split; [|split; [exact Hs | reflexivity]].
  all: simpl; auto 10.
Qed.

(** X10. [downloadProxy] throws in two cases only: the path has no
    mapping (the 404 error, nothing called), or the secondary-store download
    threw, in which case that error is passed on and no upload to the
    primary store was attempted.  A failure of the primary store alone
    never makes the call throw. *)
Theorem downloadProxy_throws_only
    (p : jsstring) (w w' : World E) (e : js_error) (evs : list event) :
  Sync.downloadProxy env p w = (Throw e, w', evs) ->
  (select_by_path p (w_db w) = None
   /\ err_status e = Some 404 /\ evs = [] /\ w' = w)
  \/ (exists mapping,
        select_by_path p (w_db w) = Some mapping
        /\ In (EvTgDownloadFile (telegram_file_id mapping) (Throw e)) evs
        /\ (forall a res, ~ In (EvCrUploadFile a res) evs)).
Proof.
  intros Hrun.
  unfold Sync.downloadProxy, Sync.cache_hit, Sync.restore in Hrun.
  unfold Db.getMappingByPath, read_db in Hrun.
  unfold bind at 1 in Hrun.
  destruct (select_by_path p (w_db w)) as [mapping|] eqn:Hsel.
  - right. exists mapping. split; [reflexivity|].
    run_with env Hrun.
    all: inversion Hrun; subst; clear Hrun.
    all: split; [simpl; auto 10|].
    all: intros ? ? Hin; simpl in Hin; split_events.
  - left. unfold throw in Hrun. inversion Hrun; subst. auto.
Qed.

(** X11. Whenever the primary store does not deliver the bytes of a mapped
    path (the mapping is not cached, or the fetch threw, answered with a
    non-ok status, or its body could not be read), [downloadProxy] asks the
    secondary store for the mapping's [telegram_file_id]; it returns the
    bytes the secondary store delivers, and throws what that download
    throws. *)
Theorem downloadProxy_falls_back
    (p : jsstring) (w w' : World E) (mapping : Row)
    (r : outcome Sync.DownloadResult) (evs : list event) :
  select_by_path p (w_db w) = Some mapping ->
  Sync.downloadProxy env p w = (r, w', evs) ->
  (forall id resp buf,
     In (EvCrDownloadFile id (Ok resp)) evs ->
     ok resp = true -> body resp <> Ok buf) ->
  exists res,
    In (EvTgDownloadFile (telegram_file_id mapping) res) evs
    /\ match res with
       | Ok dl =>
           r = Ok {| Sync.out_buffer   := dl_buffer dl;
                     Sync.out_fileName :=
                       Some (or_str (file_name mapping) (lit "file"));
                     Sync.out_mimeType :=
                       or_str (mime_type mapping) (dl_mimeType dl) |}
       | Throw e => r = Throw e
       end.
Proof.
  intros Hsel Hrun Hfail.
  unfold Sync.downloadProxy, Sync.cache_hit, Sync.restore in Hrun.
  unfold Db.getMappingByPath, read_db in Hrun.
  unfold bind at 1 in Hrun. rewrite Hsel in Hrun.
  run_with env Hrun.
  all: inversion Hrun; subst r w' evs; clear Hrun.
  all: try solve [eexists; split; [simpl; auto 10 | reflexivity]].
  exfalso. eapply Hfail; [simpl; right; left; reflexivity | |]; eassumption.
Qed.

(** X12. An evicted mapping is served from the secondary store alone: for
    a mapping with [has_local_cache = 0], [downloadProxy] never calls the
    primary store's download; after reading the clock its first call is the
    secondary-store download by the stored [telegram_file_id]. *)
Theorem downloadProxy_cold_path
    (p : jsstring) (w : World E) (mapping : Row) :
  select_by_path p (w_db w) = Some mapping ->
  has_local_cache mapping = 0 ->
  let evs := snd (Sync.downloadProxy env p w) in
  (forall id res, ~ In (EvCrDownloadFile id res) evs)
  /\ exists res,
       nth_error evs 1
       = Some (EvTgDownloadFile (telegram_file_id mapping) res).
Proof.
  intros Hsel Hcold evs. subst evs.
  destruct (Sync.downloadProxy env p w) as [[r w'] evs] eqn:Hrun.
  cbn [snd].
  unfold Sync.downloadProxy, Sync.cache_hit, Sync.restore in Hrun.
  unfold Db.getMappingByPath, read_db in Hrun.
  unfold bind at 1 in Hrun. rewrite Hsel, Hcold in Hrun.
  change (truthy_num 0) with false in Hrun.
  run_with env Hrun.
  all: inversion Hrun; subst r w' evs; clear Hrun.
  all: split; [intros ? ? Hin; simpl in Hin; split_events
              | eexists; reflexivity].
Qed.

End ProxyExtras.

(* ================================================================== *)
(** * Further properties of sync and import                            *)
(* ================================================================== *)

Lemma tg_uploads_app (a b : list event) :
  Trace.tg_uploads (a ++ b) = Trace.tg_uploads a + Trace.tg_uploads b.
Proof.
  unfold Trace.tg_uploads. rewrite filter_app, length_app. lia.
Qed.

Lemma strip_trailing_slashes_snoc (d : jsstring) :
  strip_trailing_slashes (d ++ [slash]) = strip_trailing_slashes d.
Proof.
  induction d as [|c d IH]; [reflexivity|].
  simpl. rewrite IH. reflexivity.
Qed.

Lemma strip_trailing_slashes_idem (d : jsstring) :
  strip_trailing_slashes (strip_trailing_slashes d)
  = strip_trailing_slashes d.
Proof.
  induction d as [|c d IH]; [reflexivity|].
  simpl. destruct (strip_trailing_slashes d) as [|y ys] eqn:Hs.
  - destruct (N.eqb c slash) eqn:Hc; [reflexivity|].
    simpl. rewrite Hc. reflexivity.
  - change (strip_trailing_slashes (c :: y :: ys))
      with (match strip_trailing_slashes (y :: ys) with
            | [] => if N.eqb c slash then [] else [c]
            | r' => c :: r'
            end).
    rewrite IH. reflexivity.
Qed.

Lemma replace_unsafe_safe (s : jsstring) :
  (forall c, In c s -> is_unsafe c = false) -> replace_unsafe s = s.
Proof.
  unfold replace_unsafe. induction s as [|c s IH]; intros H; [reflexivity|].
  simpl. rewrite (H c (or_introl eq_refl)). f_equal.
  apply IH. intros x Hx. apply H. right. exact Hx.
Qed.

Lemma replace_space_runs_safe (b : bool) (s : jsstring) :
  (forall c, In c s -> is_space c = false) -> replace_space_runs b s = s.
Proof.
  revert b. induction s as [|c s IH]; intros b H; [reflexivity|].
  simpl. rewrite (H c (or_introl eq_refl)). f_equal.
  apply IH. intros x Hx. apply H. right. exact Hx.
Qed.

Section SyncExtras.
Context {E : Type} (env : Env E).

(** One turn of the sync loop, with its counters and its uploads. *)
Lemma sync_file_counts
    (targetDir : jsstring) (acc : Sync.SyncResult) (file : DirObject)
    (w w' : World E) (r : outcome Sync.SyncResult) (evs : list event) :
  Sync.sync_file env targetDir acc file w = (r, w', evs) ->
  exists res,
    r = Ok res
    /\ ((Sync.synced res = Sync.synced acc
         /\ Sync.errors res = Sync.errors acc
         /\ Trace.tg_uploads evs = 0)
        \/ (Sync.synced res = Sync.synced acc
            /\ Sync.errors res = Sync.errors acc + 1
            /\ Trace.tg_uploads evs = 0)
        \/ (Sync.synced res = Sync.synced acc + 1
            /\ Sync.errors res = Sync.errors acc
            /\ Trace.tg_uploads evs = 1)).
Proof.
  intros Hrun.
  unfold Sync.sync_file, Db.getMappingByPath, read_db in Hrun.
  unfold bind at 1 in Hrun.
  destruct (select_by_path _ (w_db w)) as [row|].
  - unfold ret in Hrun. inversion Hrun; subst. exists acc. auto.
  - run_with env Hrun.
    all: inversion Hrun; subst r w' evs; clear Hrun.
    all: eexists; split; [reflexivity|].
    all: cbn [Sync.synced Sync.errors].
    all: first [ right; left; repeat split; reflexivity
               | right; right; repeat split; reflexivity ].
Qed.

Lemma sync_loop_counts (targetDir : jsstring) (files : list DirObject) :
  forall (acc : Sync.SyncResult) (w w' : World E)
         (r : outcome Sync.SyncResult) (evs : list event),
    for_of (Sync.sync_file env targetDir) files acc w = (r, w', evs) ->
    exists res,
      r = Ok res
      /\ Sync.synced res = Sync.synced acc + Trace.tg_uploads evs
      /\ 0 <= Trace.tg_uploads evs
      /\ Sync.errors acc <= Sync.errors res
      /\ Trace.tg_uploads evs + (Sync.errors res - Sync.errors acc)
         <= Z.of_nat (List.length files).
Proof.
  induction files as [|f files IH]; intros acc w w' r evs Hrun.
  - simpl in Hrun. unfold ret in Hrun. inversion Hrun; subst.
    exists acc. unfold Trace.tg_uploads. simpl. repeat split; lia.
  - simpl in Hrun. unfold bind in Hrun.
    destruct (Sync.sync_file env targetDir acc f w) as [[r1 w1] t1] eqn:H1.
    apply sync_file_counts in H1. destruct H1 as (acc1 & -> & Hc).
    destruct (for_of (Sync.sync_file env targetDir) files acc1 w1)
      as [[r2 w2] t2] eqn:H2.
    inversion Hrun; subst r w' evs; clear Hrun.
    apply IH in H2. destruct H2 as (res & -> & Hs & Hp & He & Hb).
    exists res. split; [reflexivity|].
    rewrite tg_uploads_app. cbn [List.length]. rewrite Nat2Z.inj_succ.
    destruct Hc as [(A & B & C) | [(A & B & C) | (A & B & C)]];
      repeat split; lia.
Qed.

(** X13. [syncNewUploads] throws only what [listDirectory] throws, and
    then has changed no mapping.  Otherwise it returns counters with
    [synced] equal to the number of uploads to the secondary store that
    returned, both counters non-negative and [synced + errors] at most the
    number of listed entries of type [file]: a failing file is counted and
    the batch goes on.  In every case each mapping stored before the run is
    stored unchanged after it. *)
Theorem syncNewUploads_outcome
    (cfg : Config) (dirPath : option jsstring) (w : World E) :
  let targetDir := or_str dirPath (inboxPath cfg) in
  let '(r, w', evs) := Sync.syncNewUploads env cfg dirPath w in
  match r with
  | Throw e =>
      nth_error evs 1 = Some (EvCrListDirectory targetDir (Throw e))
      /\ List.length evs = 2%nat
      /\ w_db w' = w_db w
  | Ok res =>
      exists listing,
        nth_error evs 1 = Some (EvCrListDirectory targetDir (Ok listing))
        /\ Sync.synced res = Trace.tg_uploads evs
        /\ 0 <= Sync.synced res
        /\ 0 <= Sync.errors res
        /\ Sync.synced res + Sync.errors res
           <= Z.of_nat (List.length (filter Trace.is_file
                                            (nullish listing [])))
  end
  /\ (forall q row,
        select_by_path q (w_db w) = Some row ->
        select_by_path q (w_db w') = Some row).
Proof.
  intros targetDir. rewrite syncNewUploads_unfold. cbv zeta.
  fold targetDir.
  destruct (cr_createDirectory env targetDir (w_ext w)) as [rc e1].
  destruct (cr_listDirectory env targetDir e1) as [[listing|err] e2].
  2: { split; [|intros q row Hq; exact Hq]. repeat split; reflexivity. }
  match goal with
  | |- context [for_of ?f ?l ?a ?w0] =>
      destruct (for_of f l a w0) as [[r w'] t] eqn:Hloop
  end.
  split.
  - apply sync_loop_counts in Hloop.
    destruct Hloop as (res & -> & Hs & Hp & He & Hb).
    exists listing. split; [reflexivity|].
    cbn [Sync.synced Sync.errors] in *.
    change (Trace.tg_uploads
              ([EvCrCreateDirectory targetDir rc;
                EvCrListDirectory targetDir (Ok listing)] ++ t))
      with (Trace.tg_uploads t).
    unfold Trace.is_file. repeat split; lia.
  - intros q row Hq. eapply sync_loop_preserves; eauto.
Qed.

(** X14. Trailing slashes of the scanned directory do not matter: a
    directory given with one more trailing slash, or already stripped,
    yields the same mapping path for every file name, so the same turn of
    the sync loop. *)
Theorem join_path_trailing_slashes
    (dir name : jsstring) (acc : Sync.SyncResult) (file : DirObject)
    (w : World E) :
  Sync.join_path (dir ++ lit "/") name = Sync.join_path dir name
  /\ Sync.join_path (strip_trailing_slashes dir) name
     = Sync.join_path dir name
  /\ Sync.sync_file env (dir ++ lit "/") acc file w
     = Sync.sync_file env dir acc file w.
Proof.
  assert (H1 : forall n, Sync.join_path (dir ++ lit "/") n
                         = Sync.join_path dir n).
  { intros n. unfold Sync.join_path.
    change (lit "/") with [slash] at 1.
    rewrite strip_trailing_slashes_snoc. reflexivity. }
  split; [apply H1|]. split.
  - unfold Sync.join_path. rewrite strip_trailing_slashes_idem. reflexivity.
  - unfold Sync.sync_file. rewrite !H1. reflexivity.
Qed.

End SyncExtras.

Section ImportExtras.
Context {E : Type} (env : Env E).

(** X15. For an import whose destination path, sanitized name and
    Telegram file id hold no unpaired surrogate (text that the database
    stores as it is): when [importFromTelegram] returns, the destination
    path it reports has a mapping whose [telegram_file_id] is the id it
    reports, and the link is the base URL followed by [/s] and that path.
    When the destination had no mapping before, the call uploaded to that
    path and the new mapping records the caller's file id and message id,
    the sanitized name, [has_local_cache = 1] and, when it is well-formed
    too, the id the upload returned. *)
Theorem importFromTelegram_success
    (cfg : Config) (opts : Sync.ImportOpts) (w w' : World E)
    (res : Sync.ImportResult) (evs : list event) :
  let dest := Sync.destPath cfg (Sync.opt_fileName opts) in
  Sync.well_formed_import cfg opts = true ->
  Sync.importFromTelegram env cfg opts w = (Ok res, w', evs) ->
  Sync.res_cloudreve_path res = dest
  /\ Sync.directLink res = baseUrl cfg ++ lit "/s" ++ dest
  /\ exists row,
       select_by_path dest (w_db w') = Some row
       /\ telegram_file_id row = Sync.tgFileId res
       /\ (select_by_path dest (w_db w) = None ->
           Sync.tgFileId res = Sync.opt_telegramFileId opts
           /\ telegram_message_id row = Sync.opt_telegramMessageId opts
           /\ file_name row
              = Some (Sync.sanitizeFileName (Sync.opt_fileName opts))
           /\ has_local_cache row = 1
           /\ exists a id,
                In (EvCrUploadFile a (Ok id)) evs
                /\ up_filePath a = dest
                /\ (isWellFormed id = true ->
                    cloudreve_file_id row = Some id)).
Proof.
  intros dest _ Hrun.
  destruct (select_by_path dest (w_db w)) as [row0|] eqn:Hsel.
  - rewrite (importFromTelegram_existing env cfg opts w Hsel) in Hrun.
    inversion Hrun; subst. split; [reflexivity|]. split; [reflexivity|].
    exists row0. split; [exact Hsel|]. split; [reflexivity|]. discriminate.
  - unfold Sync.importFromTelegram, Db.getMappingByPath, read_db in Hrun.
    unfold bind at 1 in Hrun.
    change (Sync.join_path (inboxPath cfg)
              (Sync.sanitizeFileName (Sync.opt_fileName opts)))
      with dest in Hrun.
    rewrite Hsel in Hrun.
    run_with env Hrun.
    all: inversion Hrun; subst res w' evs; clear Hrun.
    all: split; [reflexivity|]; split; [reflexivity|].
    all: cbn [w_db];
      match goal with
      | |- context [insert_on_conflict_update ?v ?t] =>
          pose proof (select_upsert_same v t) as Hs
      end;
      cbn [cloudreve_path bound_values rec_path] in Hs;
      rewrite Hsel in Hs.
    all: eexists; split; [exact Hs|]; split; [reflexivity|].
    all: intros _; repeat (split; [reflexivity|]).
    all: eexists _, _; split; [simpl; auto 10|]; split; [reflexivity|].
    all: intros _; reflexivity.
Qed.

Lemma importFromTelegram_throw_db
    (cfg : Config) (opts : Sync.ImportOpts) (w w' : World E)
    (e : js_error) (evs : list event) :
  Sync.importFromTelegram env cfg opts w = (Throw e, w', evs) ->
  w_db w' = w_db w.
Proof.
  intros Hrun.
  unfold Sync.importFromTelegram, Db.getMappingByPath, read_db in Hrun.
  unfold bind at 1 in Hrun.
  destruct (select_by_path _ (w_db w)) as [row0|].
  - unfold ret in Hrun. discriminate Hrun.
  - run_with env Hrun.
    all: inversion Hrun; subst; reflexivity.
Qed.

(** X16. A failed import leaves no trace in the store: when
    [importFromTelegram] throws, the mapping table is as before the call
    (in particular the destination still has no mapping), and the error is
    the one thrown by the secondary-store download or by the primary-store
    upload that the trace ends with. *)
Theorem importFromTelegram_failure
    (cfg : Config) (opts : Sync.ImportOpts) (w w' : World E)
    (e : js_error) (evs : list event) :
  let dest := Sync.destPath cfg (Sync.opt_fileName opts) in
  Sync.importFromTelegram env cfg opts w = (Throw e, w', evs) ->
  w_db w' = w_db w
  /\ select_by_path dest (w_db w') = None
  /\ ((exists id, last evs (EvDateNow 0) = EvTgDownloadFile id (Throw e))
      \/ (exists a, last evs (EvDateNow 0) = EvCrUploadFile a (Throw e))).
Proof.
  intros dest Hrun.
  destruct (select_by_path dest (w_db w)) as [row0|] eqn:Hsel.
  - rewrite (importFromTelegram_existing env cfg opts w Hsel) in Hrun.
    discriminate Hrun.
  - unfold Sync.importFromTelegram, Db.getMappingByPath, read_db in Hrun.
    unfold bind at 1 in Hrun.
    change (Sync.join_path (inboxPath cfg)
              (Sync.sanitizeFileName (Sync.opt_fileName opts)))
      with dest in Hrun.
    rewrite Hsel in Hrun.
    run_with env Hrun.
    all: inversion Hrun; subst w' evs; subst; clear Hrun.
    all: split; [reflexivity|]; split; [exact Hsel|].
    all: first [ left; eexists; reflexivity | right; eexists; reflexivity ].
Qed.

(** X17. [sanitizeFileName] is idempotent, and a name that is already
    safe (non-empty, at most 200 code units, none unsafe, none white space)
    is returned as it is; so importing under an already sanitized name
    leads to the same destination path. *)
Theorem sanitizeFileName_idempotent (cfg : Config) (name : strval) :
  Sync.sanitizeFileName (Str (Sync.sanitizeFileName name))
  = Sync.sanitizeFileName name
  /\ Sync.destPath cfg (Str (Sync.sanitizeFileName name))
     = Sync.destPath cfg name
  /\ (forall s : jsstring,
        s <> [] -> (List.length s <= 200)%nat ->
        (forall c, In c s -> is_unsafe c = false /\ is_space c = false) ->
        Sync.sanitizeFileName (Str s) = s).
Proof.
  assert (Hfix : forall s : jsstring,
            s <> [] -> (List.length s <= 200)%nat ->
            (forall c, In c s -> is_unsafe c = false /\ is_space c = false) ->
            Sync.sanitizeFileName (Str s) = s).
  { intros s Hne Hlen Hsafe. unfold Sync.sanitizeFileName, slice0.
    destruct s as [|c s]; [congruence|]. cbn [string_or].
    rewrite replace_unsafe_safe by (intros x Hx; apply Hsafe; exact Hx).
    rewrite replace_space_runs_safe by (intros x Hx; apply Hsafe; exact Hx).
    apply firstn_all2. exact Hlen. }
  assert (Hidem : Sync.sanitizeFileName (Str (Sync.sanitizeFileName name))
                  = Sync.sanitizeFileName name).
  { apply Hfix.
    - unfold Sync.sanitizeFileName, slice0.
      assert (H : replace_space_runs false
                    (replace_unsafe (string_or name (lit "file"))) <> []).
      { apply replace_space_runs_nonempty, replace_unsafe_nonempty,
          string_or_nonempty. discriminate. }
      destruct (replace_space_runs false _); [congruence | discriminate].
    - unfold Sync.sanitizeFileName, slice0. apply firstn_le_length.
    - intros c Hc. unfold Sync.sanitizeFileName, slice0 in Hc.
      apply firstn_in in Hc. apply replace_space_runs_in in Hc.
      destruct Hc as [-> | [Hc Hsp]]; [split; reflexivity|].
      apply replace_unsafe_in in Hc. tauto. }
  split; [exact Hidem|]. split; [|exact Hfix].
  unfold Sync.destPath. rewrite Hidem. reflexivity.
Qed.

End ImportExtras.

(* ================================================================== *)
(** * Further properties of the eviction pass                          *)
(* ================================================================== *)

Lemma count_errors_zero (l : list Row) (outs : list (outcome unit))
    (x : Row) (o : outcome unit) :
  Cache.count_errors l outs = 0 -> In (x, o) (combine l outs) ->
  is_ok o = true.
Proof.
  unfold Cache.count_errors. intros Hz Hin.
  destruct (is_ok o) eqn:Ho; [reflexivity|]. exfalso.
  assert (Hf : In (x, o) (filter Cache.counts_as_error (combine l outs))).
  { apply filter_In. split; [exact Hin|].
    unfold Cache.counts_as_error, Cache.counts_as_evicted. cbn [fst snd].
    rewrite Ho. reflexivity. }
  destruct (filter Cache.counts_as_error (combine l outs)); [destruct Hf|].
  simpl in Hz. lia.
Qed.

Lemma in_combine_left {A B} (l : list A) (l' : list B) (x : A) :
  List.length l' = List.length l -> In x l ->
  exists y, In (x, y) (combine l l').
Proof.
  revert l'. induction l as [|a l IH]; intros [|b l'] Hlen Hin;
    simpl in *; try discriminate; try tauto.
  destruct Hin as [->|Hin].
  - exists b. left. reflexivity.
  - destruct (IH l' (eq_add_S _ _ Hlen) Hin) as (y & Hy).
    exists y. right. exact Hy.
Qed.

Section EvictionExtras.
Context {E : Type} (env : Env E).

Lemma evict_loop_unique (l : list Row) :
  forall (acc : Cache.EvictionResult) (w w' : World E)
         (r : outcome Cache.EvictionResult) (evs : list event),
    for_of (Cache.evict_entry env) l acc w = (r, w', evs) ->
    unique_paths (w_db w) -> unique_paths (w_db w').
Proof.
  induction l as [|x l IH]; intros acc w w' r evs Hrun Hu.
  - simpl in Hrun. unfold ret in Hrun. inversion Hrun; subst. exact Hu.
  - simpl in Hrun. unfold bind in Hrun.
    pose proof (evict_entry_run env acc x w) as Hstep.
    destruct (cr_deleteFile env (cloudreve_path x) (w_ext w)) as [o e'].
    rewrite Hstep in Hrun; clear Hstep.
    match type of Hrun with
    | context [for_of _ l ?a ?w1] =>
        destruct (for_of (Cache.evict_entry env) l a w1)
          as [[r2 w2] t2] eqn:Hrest
    end.
    inversion Hrun; subst r w' evs; clear Hrun.
    apply IH in Hrest; auto.
    cbn [w_db]. destruct (is_ok o); [apply update_unique; auto | exact Hu].
Qed.

(** X18. A pass without errors leaves nothing to evict: when
    [runEviction] returns [errors = 0] on a table that satisfies the unique
    index, no row of the resulting table is stale at the cutoff of that
    pass, so a pass that reads the same clock second evicts nothing.  The
    pass also keeps the unique index. *)
Theorem runEviction_clean_pass
    (cfg : Config) (w w' : World E)
    (res : Cache.EvictionResult) (evs : list event) :
  unique_paths (w_db w) ->
  Cache.runEviction env cfg w = (Ok res, w', evs) ->
  Cache.errors res = 0 ->
  let cutoff := floor_secs (fst (date_now env (w_ext w)))
                - cacheIdleDays cfg * 24 * 60 * 60 in
  select_stale cutoff (w_db w') = []
  /\ unique_paths (w_db w').
Proof.
  intros Hu Hrun Herr cutoff.
  rewrite runEviction_unfold in Hrun. subst cutoff.
  destruct (date_now env (w_ext w)) as [ms e0] eqn:Hnow. cbn [fst].
  set (cutoff := floor_secs ms - cacheIdleDays cfg * 24 * 60 * 60) in *.
  destruct (for_of (Cache.evict_entry env) (select_stale cutoff (w_db w))
              {| Cache.evicted := 0; Cache.errors := 0 |}
              {| w_db := w_db w; w_ext := e0 |})
    as [[r2 w2] t2] eqn:Hrest.
  inversion Hrun; subst r2 w2 evs; clear Hrun.
  pose proof (evict_loop_unique _ _ _ Hrest Hu) as Hu'.
  split; [|exact Hu'].
  assert (Hmem : forall x, In x (select_stale cutoff (w_db w)) ->
            select_by_path (cloudreve_path x) (w_db w) = Some x).
  { intros x Hx. apply select_of_member; [exact Hu|].
    apply select_stale_in in Hx. tauto. }
  apply evict_loop in Hrest;
    [| apply (filter_unique (is_stale cutoff) Hu) | exact Hmem].
  destruct Hrest as (outs & Hlen & _ & Hr & Hfr & Hrows).
  inversion Hr as [Hres]. subst res. cbn [Cache.errors] in Herr.
  assert (Hall : forall row, ~ In row (select_stale cutoff (w_db w'))).
  { intros row Hin. apply select_stale_in in Hin.
    destruct Hin as (Hin & Hc & Hlt & Hpos).
    pose proof (@select_of_member _ _ Hu' Hin) as Hsel'.
    destruct (in_dec (list_eq_dec N.eq_dec) (cloudreve_path row)
                (map cloudreve_path (select_stale cutoff (w_db w))))
      as [Hp|Hp].
    - apply in_map_iff in Hp. destruct Hp as (x & Hpx & Hx).
      destruct (in_combine_left _ outs x Hlen Hx) as (o & Ho).
      pose proof (Hrows x o Ho) as Hsx. rewrite Hpx, Hsel' in Hsx.
      assert (Hok : is_ok o = true).
      { apply (@count_errors_zero (select_stale cutoff (w_db w)) outs x o);
          [lia | exact Ho]. }
      rewrite Hok in Hsx. inversion Hsx; subst row.
      cbn [has_local_cache set_has_local_cache] in Hc. discriminate.
    - rewrite (Hfr _ Hp) in Hsel'. cbn [w_db] in Hsel'.
      apply select_some_in in Hsel'. destruct Hsel' as [Hin0 _].
      apply Hp. apply in_map.
      apply select_stale_in. repeat split; assumption. }
  destruct (select_stale cutoff (w_db w')) as [|row rest]; [reflexivity|].
  exfalso. apply (Hall row). left. reflexivity.
Qed.

End EvictionExtras.

(* ================================================================== *)
(** * Properties of the bot                                            *)
(* ================================================================== *)

Lemma larger_fold (ps : list Bot.PhotoSize) :
  forall p,
    let m := fold_left Bot.larger ps p in
    In m (p :: ps)
    /\ forall q, In q (p :: ps) ->
         or_num (Bot.ph_file_size q) 0 <= or_num (Bot.ph_file_size m) 0.
Proof.
  induction ps as [|x ps IH]; intros p; cbn [fold_left].
  - split; [left; reflexivity|]. intros q [<-|[]]. lia.
  - destruct (IH (Bot.larger p x)) as [Hin Hmax]. cbv zeta in *.
    assert (Hl : Bot.larger p x = p \/ Bot.larger p x = x)
      by (unfold Bot.larger;
          destruct (or_num (Bot.ph_file_size x) 0
                    <? or_num (Bot.ph_file_size p) 0); auto).
    assert (Hge : or_num (Bot.ph_file_size p) 0
                  <= or_num (Bot.ph_file_size (Bot.larger p x)) 0
                  /\ or_num (Bot.ph_file_size x) 0
                     <= or_num (Bot.ph_file_size (Bot.larger p x)) 0).
    { unfold Bot.larger.
      destruct (or_num (Bot.ph_file_size x) 0
                <? or_num (Bot.ph_file_size p) 0) eqn:Hc.
      - apply Z.ltb_lt in Hc. lia.
      - apply Z.ltb_ge in Hc. lia. }
    split.
    + destruct Hin as [Hin|Hin].
      * rewrite <- Hin. destruct Hl as [-> | ->];
          [left; reflexivity | right; left; reflexivity].
      * right. right. exact Hin.
    + intros q [<-|[<-|Hq]].
      * pose proof (Hmax _ (or_introl eq_refl)). lia.
      * pose proof (Hmax _ (or_introl eq_refl)). lia.
      * apply Hmax. right. exact Hq.
Qed.

Lemma candidates_fallbacks (c : Bot.Candidate) :
  In c Bot.candidates -> Bot.fallbackMime c <> [].
Proof.
  unfold Bot.candidates. simpl.
  intros H; repeat (destruct H as [<-|H]; [discriminate|]). destruct H.
Qed.

Section BotFacts.
Context {E : Type} (env : Env E).

Lemma id_or_now_run (m : Bot.Message) (w : World E) :
  exists w1 evs,
    Bot.id_or_now env m w
    = (Ok (or_num (Bot.message_id m) (fst (date_now env (w_ext w)))),
       w1, evs)
    /\ w_db w1 = w_db w.
Proof.
  unfold Bot.id_or_now, or_num, Date_now, ret.
  destruct (Bot.message_id m) as [n|]; [destruct (n =? 0)|];
    cbv beta; destruct (date_now env (w_ext w)) as [ms e1];
    eexists _, _; split; reflexivity.
Qed.

Lemma from_candidate_run
    (m : Bot.Message) (c : Bot.Candidate) (data : Bot.MediaData)
    (id : jsstring) (w : World E) :
  exists w1 evs,
    Bot.from_candidate env m c data id w
    = (Ok {| Bot.media_fileId   := id;
             Bot.media_fileName :=
               match Bot.md_file_name data with
               | Some (ch :: r) => ch :: r
               | _ =>
                   Bot.key c ++ lit "_"
                   ++ Bot.number_to_string
                        (or_num (Bot.message_id m)
                                (fst (date_now env (w_ext w))))
                   ++ lit "." ++ Bot.fallbackExt c
               end;
             Bot.media_mimeType :=
               or_str (Bot.md_mime_type data) (Bot.fallbackMime c);
             Bot.media_fileSize := or_num (Bot.md_file_size data) 0 |},
       w1, evs)
    /\ w_db w1 = w_db w.
Proof.
  unfold Bot.from_candidate.
  destruct (Bot.md_file_name data) as [[|ch r]|].
  - destruct (id_or_now_run m w) as (w1 & evs & Hrun & Hdb).
    unfold bind, ret. rewrite Hrun. eexists _, _. split; [|exact Hdb].
    cbn. destruct (Bot.fallbackExt c); reflexivity.
  - unfold bind, ret. eexists _, _. split; reflexivity.
  - destruct (id_or_now_run m w) as (w1 & evs & Hrun & Hdb).
    unfold bind, ret. rewrite Hrun. eexists _, _. split; [|exact Hdb].
    cbn. destruct (Bot.fallbackExt c); reflexivity.
Qed.

Lemma first_candidate_none (m : Bot.Message) (cs : list Bot.Candidate)
    (w : World E) :
  existsb (Bot.has_file m) cs = false ->
  Bot.first_candidate env m cs w = (Ok None, w, []).
Proof.
  induction cs as [|c cs IH]; intros H; [reflexivity|].
  simpl in H. apply orb_false_iff in H. destruct H as [Hc Hcs].
  cbn [Bot.first_candidate]. unfold Bot.has_file in Hc.
  destruct (Bot.field c m) as [data|]; [|apply IH; exact Hcs].
  destruct (Bot.md_file_id data) as [[|ch r]|];
    first [discriminate Hc | apply IH; exact Hcs].
Qed.

Lemma first_candidate_hit
    (m : Bot.Message) (before after : list Bot.Candidate)
    (c : Bot.Candidate) (data : Bot.MediaData) (id : jsstring)
    (w : World E) :
  existsb (Bot.has_file m) before = false ->
  Bot.field c m = Some data ->
  Bot.md_file_id data = Some id ->
  id <> [] ->
  Bot.first_candidate env m (before ++ c :: after) w
  = bind (Bot.from_candidate env m c data id) (fun x => ret (Some x)) w.
Proof.
  intros Hb Hf Hid Hne.
  induction before as [|b before IH].
  - cbn [app Bot.first_candidate]. rewrite Hf, Hid.
    destruct id as [|ch r]; [congruence | reflexivity].
  - simpl in Hb. apply orb_false_iff in Hb. destruct Hb as [Hb Hrest].
    cbn [app Bot.first_candidate]. unfold Bot.has_file in Hb.
    destruct (Bot.field b m) as [d|]; [|apply IH; exact Hrest].
    destruct (Bot.md_file_id d) as [[|ch r]|];
      first [discriminate Hb | apply IH; exact Hrest].
Qed.

Lemma existsb_first {A} (f : A -> bool) (l : list A) :
  existsb f l = true ->
  exists before x after,
    l = before ++ x :: after /\ existsb f before = false /\ f x = true.
Proof.
  induction l as [|a l IH]; [discriminate|]. simpl. intros H.
  destruct (f a) eqn:Ha.
  - exists [], a, l. auto.
  - destruct (IH H) as (b & x & af & -> & Hb & Hx).
    exists (a :: b), x, af. simpl. rewrite Ha. auto.
Qed.

(** What every run of [extractMedia] satisfies. *)
Lemma extractMedia_run (message : option Bot.Message) (w : World E) :
  let '(r, w', evs) := Bot.extractMedia env message w in
  (exists o, r = Ok o)
  /\ w_db w' = w_db w
  /\ (r = Ok None <-> Bot.has_media message = false)
  /\ (r = Ok None -> w' = w /\ evs = [])
  /\ (forall media, r = Ok (Some media) ->
        Bot.media_fileName media <> [] /\ Bot.media_mimeType media <> []).
Proof.
  destruct message as [m|]; cbn [Bot.extractMedia Bot.has_media].
  2: { unfold ret. repeat split; eauto; discriminate. }
  unfold Bot.has_photo.
  destruct (Bot.photo m) as [[|p ps]|] eqn:Hph; cbn [orb].
  2: { destruct (id_or_now_run m w) as (w1 & evs & Hrun & Hdb).
       unfold bind, ret. rewrite Hrun. cbn [app].
       split; [eauto|]. split; [exact Hdb|].
       split; [split; discriminate|]. split; [discriminate|].
       intros media Hm. inversion Hm; subst media.
       cbn. split; discriminate. }
  all: destruct (existsb (Bot.has_file m) Bot.candidates) eqn:Hex.
  all: try (rewrite first_candidate_none by exact Hex;
            repeat split; eauto; discriminate).
  all: apply existsb_first in Hex;
    destruct Hex as (before & c & after & Hcs & Hb & Hc);
    unfold Bot.has_file in Hc;
    destruct (Bot.field c m) as [data|] eqn:Hf; [|discriminate Hc];
    destruct (Bot.md_file_id data) as [[|ch r]|] eqn:Hid;
    try discriminate Hc;
    rewrite Hcs;
    rewrite (first_candidate_hit m before after c w Hb Hf Hid)
      by discriminate;
    destruct (from_candidate_run m c data (ch :: r) w)
      as (w1 & evs & Hrun & Hdb);
    unfold bind, ret; rewrite Hrun.
  all: split; [eauto|]; split; [exact Hdb|].
  all: split; [split; discriminate|]; split; [discriminate|].
  all: intros media Hm; injection Hm as Hmedia;
    rewrite <- Hmedia; cbn [Bot.media_fileName Bot.media_mimeType].
  all: assert (Hin : In c Bot.candidates)
    by (rewrite Hcs; apply in_or_app; right; left; reflexivity).
  all: split; [| apply or_str_nonempty, candidates_fallbacks; exact Hin].
  all: destruct (Bot.md_file_name data) as [[|? ?]|];
    first [ discriminate
          | intros Habs; apply app_eq_nil in Habs;
            destruct Habs as [_ Habs]; discriminate Habs ].
Qed.

(** X19. [extractMedia] never throws and never changes the mapping
    table.  It returns [null] exactly when the message is missing or
    carries neither a non-empty photo array nor a candidate object with a
    truthy [file_id]; in that case it calls nothing.  Every medium it
    returns has a non-empty file name and a non-empty MIME type. *)
Theorem extractMedia_null_iff (message : option Bot.Message) (w : World E) :
  let '(r, w', evs) := Bot.extractMedia env message w in
  (exists o, r = Ok o)
  /\ w_db w' = w_db w
  /\ (r = Ok None <-> Bot.has_media message = false)
  /\ (r = Ok None -> w' = w /\ evs = [])
  /\ (forall media, r = Ok (Some media) ->
        Bot.media_fileName media <> [] /\ Bot.media_mimeType media <> []).
Proof.
  pose proof (extractMedia_run message w) as H.
  destruct (Bot.extractMedia env message w) as [[r w'] evs].
  destruct H as (Hok & Hdb & Hiff & Hsame & Hnames).
  split; [exact Hok|]. split; [exact Hdb|]. split; [exact Hiff|].
  split; [exact Hsame | exact Hnames].
Qed.

(** X20. A non-empty photo array wins over every other field: the
    medium returned is one of its elements, none of the others has a larger
    [file_size] (a missing size counting as 0), the MIME type is
    [image/jpeg] and the name is [photo_<n>.jpg] with [n] the message id or,
    when that is missing or 0, the clock reading; the digits of [n] are
    stated for a safe integer (at most 2^53 - 1 in absolute value). *)
Theorem extractMedia_photo
    (m : Bot.Message) (p : Bot.PhotoSize) (ps : list Bot.PhotoSize)
    (w : World E) :
  Bot.photo m = Some (p :: ps) ->
  exists media ph,
    fst (fst (Bot.extractMedia env (Some m) w)) = Ok (Some media)
    /\ In ph (p :: ps)
    /\ Bot.media_fileId media = Bot.ph_file_id ph
    /\ Bot.media_fileSize media = or_num (Bot.ph_file_size ph) 0
    /\ (forall q, In q (p :: ps) ->
          or_num (Bot.ph_file_size q) 0 <= Bot.media_fileSize media)
    /\ Bot.media_mimeType media = lit "image/jpeg"
    /\ (Z.abs (or_num (Bot.message_id m) (fst (date_now env (w_ext w))))
        <= 9007199254740991 ->
        Bot.media_fileName media
        = lit "photo_"
          ++ Bot.number_to_string
               (or_num (Bot.message_id m) (fst (date_now env (w_ext w))))
          ++ lit ".jpg").
Proof.
  intros Hph. cbn [Bot.extractMedia]. rewrite Hph.
  destruct (id_or_now_run m w) as (w1 & evs & Hrun & _).
  unfold bind, ret. rewrite Hrun. cbn [fst].
  destruct (larger_fold ps p) as [Hin Hmax]. cbv zeta in Hin, Hmax.
  eexists _, (fold_left Bot.larger ps p).
  split; [reflexivity|]. split; [exact Hin|].
  split; [reflexivity|]. split; [reflexivity|].
  split; [exact Hmax|]. split; [reflexivity|]. intros _. reflexivity.
Qed.

(** X21. Without a photo array the candidates are tried in the order of
    the table (document, video, audio, voice, animation, video_note,
    sticker): the first one whose object has a truthy [file_id] gives the
    medium, with that id, the object's MIME type or the candidate's
    fallback, and the object's file name; when the name is missing the name
    is [<key>_<n>.<ext>] where [ext] is always the candidate's fallback
    extension and [n], the message id or else the clock reading, is a safe
    integer (at most 2^53 - 1 in absolute value). *)
Theorem extractMedia_first_candidate
    (m : Bot.Message) (before after : list Bot.Candidate)
    (c : Bot.Candidate) (data : Bot.MediaData) (id : jsstring)
    (w : World E) :
  Bot.has_photo m = false ->
  Bot.candidates = before ++ c :: after ->
  existsb (Bot.has_file m) before = false ->
  Bot.field c m = Some data ->
  Bot.md_file_id data = Some id ->
  id <> [] ->
  (or_str (Bot.md_file_name data) [] = [] ->
   Z.abs (or_num (Bot.message_id m) (fst (date_now env (w_ext w))))
   <= 9007199254740991) ->
  fst (fst (Bot.extractMedia env (Some m) w))
  = Ok (Some {| Bot.media_fileId   := id;
                Bot.media_fileName :=
                  match Bot.md_file_name data with
                  | Some (ch :: r) => ch :: r
                  | _ =>
                      Bot.key c ++ lit "_"
                      ++ Bot.number_to_string
                           (or_num (Bot.message_id m)
                                   (fst (date_now env (w_ext w))))
                      ++ lit "." ++ Bot.fallbackExt c
                  end;
                Bot.media_mimeType :=
                  or_str (Bot.md_mime_type data) (Bot.fallbackMime c);
                Bot.media_fileSize := or_num (Bot.md_file_size data) 0 |}).
Proof.
  intros Hph Hcs Hb Hf Hid Hne _.
  assert (Hrun : Bot.extractMedia env (Some m) w
                 = Bot.first_candidate env m Bot.candidates w).
  { cbn [Bot.extractMedia]. unfold Bot.has_photo in Hph.
    destruct (Bot.photo m) as [[|x xs]|]; first [reflexivity | discriminate]. }
  rewrite Hrun, Hcs.
  rewrite (first_candidate_hit m before after c w Hb Hf Hid Hne).
  destruct (from_candidate_run m c data id w) as (w1 & evs & Hfc & _).
  unfold bind, ret. rewrite Hfc. reflexivity.
Qed.

End BotFacts.

Section HandlerFacts.
Context {E : Type} (benv : Bot.BotEnv E) (cfg : Config).

(** X22. An update without a message, or whose message carries no
    medium, is ignored: [handleUpdate] returns without calling anything and
    without changing the state. *)
Theorem handleUpdate_ignores (update : option Bot.Update) (w : World E) :
  Bot.has_media (Bot.message_of update) = false ->
  Bot.handleUpdate benv cfg update w = (Ok tt, w, []).
Proof.
  intros Hno. unfold Bot.handleUpdate.
  destruct (Bot.message_of update) as [m|]; [|reflexivity].
  pose proof (extractMedia_run (Bot.core benv) (Some m) w) as Hx.
  unfold Bot.b_bind, Bot.lift.
  destruct (Bot.extractMedia (Bot.core benv) (Some m) w)
    as [[r w1] t1].
  destruct Hx as (_ & _ & Hiff & Hsame & _).
  apply Hiff in Hno. subst r. destruct (Hsame eq_refl) as [-> ->].
  reflexivity.
Qed.

(** X23. For a message with a medium [handleUpdate] never throws and
    always reports.  When the import throws, it sends exactly one message,
    the failure text with the error's message, and the mapping table is as
    before.  When the import returns, it first sends the success text with
    the name, path and link; if sending that reply throws, it sends the
    failure text with the reply's error although the import succeeded and
    its mapping stays stored.  An error of the failure message itself is
    swallowed. *)
Theorem handleUpdate_reports
    (update : option Bot.Update) (m : Bot.Message) (w : World E) :
  Bot.message_of update = Some m ->
  Bot.has_media (Some m) = true ->
  let '(r, w', evs) := Bot.handleUpdate benv cfg update w in
  let reply t := {| Bot.chatId := Bot.chat_id m;
                    Bot.text := t;
                    Bot.replyToMessageId := Bot.message_id m |} in
  r = Ok tt
  /\ exists media w1 t1 ri w2 t2,
       Bot.extractMedia (Bot.core benv) (Some m) w = (Ok (Some media), w1, t1)
       /\ Sync.importFromTelegram (Bot.core benv) cfg
            (Bot.import_opts_of m media) w1 = (ri, w2, t2)
       /\ w_db w' = w_db w2
       /\ match ri with
          | Throw e =>
              Bot.sent evs = [reply (Bot.failure_text e)]
              /\ w_db w' = w_db w
          | Ok res =>
              Bot.sent evs = [reply (Bot.success_text media res)]
              \/ exists e,
                   In (Bot.EvTgSendMessage
                         (reply (Bot.success_text media res)) (Throw e)) evs
                   /\ Bot.sent evs = [reply (Bot.success_text media res);
                                      reply (Bot.failure_text e)]
          end.
Proof.
  intros Hmsg Hmedia. unfold Bot.handleUpdate. rewrite Hmsg.
  pose proof (extractMedia_run (Bot.core benv) (Some m) w) as Hx.
  unfold Bot.b_bind at 1. unfold Bot.lift at 1.
  destruct (Bot.extractMedia (Bot.core benv) (Some m) w)
    as [[rm w1] t1] eqn:Hext.
  destruct Hx as ((o & ->) & Hdb1 & Hiff & _).
  destruct o as [media|];
    [| exfalso; destruct Hiff as [Hiff _];
       rewrite (Hiff eq_refl) in Hmedia; discriminate].
  unfold Bot.b_try_catch at 1. unfold Bot.b_bind, Bot.lift.
  destruct (Sync.importFromTelegram (Bot.core benv) cfg
              (Bot.import_opts_of m media) w1) as [[ri w2] t2] eqn:Himp.
  assert (Hsent_core : forall t, Bot.sent (map Bot.EvCore t) = []).
  { intros t. unfold Bot.sent. induction t; simpl; auto. }
  assert (Hsent_app : forall a b, Bot.sent (a ++ b) = Bot.sent a ++ Bot.sent b).
  { intros a b. unfold Bot.sent. apply flat_map_app. }
  destruct ri as [res|e].
  - unfold Bot.sendMessage at 1. cbn [w_ext w_db].
    destruct (Bot.tg_sendMessage benv _ (w_ext w2)) as [[u|e1] e2] eqn:Hs1.
    + destruct u. split; [reflexivity|].
      eexists media, w1, t1, (Ok res), w2, t2.
      split; [reflexivity|]. split; [exact Himp|]. split; [reflexivity|].
      left. rewrite !Hsent_app, !Hsent_core. reflexivity.
    + unfold Bot.b_try_catch, Bot.sendMessage, Bot.b_ret. cbn [w_ext w_db].
      destruct (Bot.tg_sendMessage benv _ e2) as [[[]|e3] e4] eqn:Hs2.
      all: split; [reflexivity|].
      all: eexists media, w1, t1, (Ok res), w2, t2.
      all: split; [reflexivity|]; split; [exact Himp|];
        split; [reflexivity|].
      all: right; exists e1; split.
      all: try (rewrite !Hsent_app, !Hsent_core; reflexivity).
      all: apply in_or_app; right; apply in_or_app; left;
        apply in_or_app; right; left; reflexivity.
  - unfold Bot.b_try_catch, Bot.sendMessage, Bot.b_ret. cbn [w_ext w_db].
    assert (Hkeep : w_db w2 = w_db w1).
    { eapply importFromTelegram_throw_db; exact Himp. }
    destruct (Bot.tg_sendMessage benv _ (w_ext w2)) as [[[]|e3] e4] eqn:Hs2.
    all: split; [reflexivity|].
    all: eexists media, w1, t1, (Throw e), w2, t2.
    all: split; [reflexivity|]; split; [exact Himp|];
      split; [reflexivity|].
    all: split; [rewrite !Hsent_app, !Hsent_core; reflexivity|].
    all: cbn [w_db]; congruence.
Qed.

End HandlerFacts.

(* ================================================================== *)
(** * Properties of the path and header helpers                        *)
(* ================================================================== *)

Lemma is_kept_underscore : Routes.is_kept underscore = true.
Proof. reflexivity. Qed.

Lemma strip_last_segment_cut (d name : jsstring) :
  name <> [] -> ~ In slash name ->
  Routes.strip_last_segment (d ++ slash :: name) = d.
Proof.
  intros Hne Hns.
  assert (Hall : forallb (fun x => negb (N.eqb x slash)) name = true).
  { apply forallb_forall. intros x Hx. apply negb_true_iff, N.eqb_neq.
    intros ->. exact (Hns Hx). }
  induction d as [|c d IH].
  - cbn [app Routes.strip_last_segment]. rewrite N.eqb_refl, Hall.
    destruct name; [congruence | reflexivity].
  - cbn [app Routes.strip_last_segment].
    assert (Hf : forallb (fun x => negb (N.eqb x slash)) (d ++ slash :: name)
                 = false).
    { rewrite forallb_app. cbn [forallb]. rewrite N.eqb_refl.
      cbn [negb andb]. apply andb_false_r. }
    rewrite Hf, andb_false_r, IH. reflexivity.
Qed.

Lemma strip_last_segment_trailing (d : jsstring) :
  Routes.strip_last_segment (d ++ [slash]) = d ++ [slash].
Proof.
  induction d as [|c d IH].
  - reflexivity.
  - cbn [app Routes.strip_last_segment].
    assert (Hf : forallb (fun x => negb (N.eqb x slash)) (d ++ [slash])
                 = false).
    { rewrite forallb_app. cbn [forallb]. rewrite N.eqb_refl.
      cbn [negb andb]. apply andb_false_r. }
    rewrite Hf, andb_false_r, IH. reflexivity.
Qed.

Lemma strip_trailing_slashes_clean (d : jsstring) :
  (forall r, d <> r ++ [slash]) -> strip_trailing_slashes d = d.
Proof.
  induction d as [|c d IH]; intros H; [reflexivity|].
  cbn [strip_trailing_slashes].
  destruct d as [|y d].
  - cbn [strip_trailing_slashes]. destruct (N.eqb c slash) eqn:Hc;
      [|reflexivity].
    apply N.eqb_eq in Hc. subst c. exfalso. apply (H []). reflexivity.
  - rewrite IH.
    + reflexivity.
    + intros r Hr. apply (H (c :: r)). rewrite Hr. reflexivity.
Qed.

Lemma dirname_end_scan (d name : jsstring) (k : nat) (b : bool) :
  ~ In slash name -> (1 <= k <= List.length name)%nat ->
  dirname_end (d ++ slash :: name) (List.length d + k) b
  = match List.length d with
    | O => None
    | S _ => Some (List.length d)
    end.
Proof.
  intros Hns. revert b. induction k as [|k IH]; intros b Hk; [lia|].
  replace (List.length d + S k)%nat with (S (List.length d + k)) by lia.
  cbn [dirname_end].
  assert (Hnth : nth (S (List.length d + k)) (d ++ slash :: name) 0%N
                 = nth k name 0%N).
  { rewrite app_nth2 by lia.
    replace (S (List.length d + k) - List.length d)%nat with (S k) by lia.
    reflexivity. }
  rewrite Hnth.
  assert (Hc : N.eqb (nth k name 0%N) slash = false).
  { apply N.eqb_neq. intros Heq. apply Hns. rewrite <- Heq.
    apply nth_In. lia. }
  rewrite Hc.
  destruct k as [|k'].
  - rewrite Nat.add_0_r. destruct (List.length d) as [|n] eqn:Hd.
    + reflexivity.
    + cbn [dirname_end]. rewrite <- Hd.
      rewrite app_nth2 by lia. rewrite Nat.sub_diag. cbn [nth].
      rewrite N.eqb_refl. reflexivity.
  - apply IH. lia.
Qed.

(** X24. [encodeRFC5987] keeps the length of the name, returns the
    empty string for a missing name, and yields only word characters, white
    space, dots and hyphens: in particular no double quote, backslash,
    semicolon or slash, so the result can stand inside the quoted file name
    of the Content-Disposition header.  It is idempotent. *)
Theorem encodeRFC5987_safe (name : option jsstring) :
  let out := Routes.encodeRFC5987 name in
  List.length out = List.length (or_str name [])
  /\ Routes.encodeRFC5987 None = []
  /\ (forall c, In c out -> Routes.is_kept c = true)
  /\ (forall c, In c out ->
        c <> 34%N /\ c <> 92%N /\ c <> 59%N /\ c <> slash)
  /\ Routes.encodeRFC5987 (Some out) = out.
Proof.
  intros out.
  assert (Hkept : forall c, In c out -> Routes.is_kept c = true).
  { intros c Hc. unfold out, Routes.encodeRFC5987 in Hc.
    apply in_map_iff in Hc. destruct Hc as (x & Hx & _).
    destruct (Routes.is_kept x) eqn:Hk; subst c;
      [exact Hk | apply is_kept_underscore]. }
  split; [unfold out, Routes.encodeRFC5987; apply length_map|].
  split; [reflexivity|]. split; [exact Hkept|]. split.
  - intros c Hc. apply Hkept in Hc.
    repeat split; intros ->; discriminate Hc.
  - unfold Routes.encodeRFC5987 at 1.
    assert (Hor : or_str (Some out) [] = out) by (destruct out; reflexivity).
    rewrite Hor. clear Hor.
    induction out as [|c out' IH]; [reflexivity|].
    cbn [map]. rewrite (Hkept c (or_introl eq_refl)). f_equal.
    apply IH. intros x Hx. apply Hkept. right. exact Hx.
Qed.

(** X25. The directory computed from a file path by the webhook handler
    and by [CloudreveClient.uploadFile]: for a path [d/name] with a
    non-empty, slash-free name it is [d], or [/] when [d] is empty; a path
    that ends with a slash is returned as it is.  Hence a file imported or
    synced under a directory is uploaded into that directory without its
    trailing slashes, and for a directory part that does not end with a
    slash, joining the computed directory with the name gives the path
    back. *)
Theorem parent_dir_join (d dir name : jsstring) :
  name <> [] -> ~ In slash name ->
  Routes.parent_dir (d ++ lit "/" ++ name) = or_str (Some d) (lit "/")
  /\ Routes.parent_dir (Sync.join_path dir name)
     = or_str (Some (strip_trailing_slashes dir)) (lit "/")
  /\ Routes.strip_last_segment (d ++ lit "/") = d ++ lit "/"
  /\ ((forall r, d <> r ++ [slash]) ->
      Sync.join_path (Routes.parent_dir (d ++ lit "/" ++ name)) name
      = d ++ lit "/" ++ name).
Proof.
  intros Hne Hns.
  change (lit "/") with [slash].
  assert (Hcut : forall x, Routes.parent_dir (x ++ [slash] ++ name)
                           = or_str (Some x) [slash]).
  { intros x. unfold Routes.parent_dir. cbn [app].
    rewrite strip_last_segment_cut by assumption. reflexivity. }
  split; [apply Hcut|]. split; [apply Hcut|].
  split; [apply strip_last_segment_trailing|].
  intros Hclean. rewrite Hcut. unfold Sync.join_path.
  change (lit "/") with [slash].
  destruct d as [|c d'].
  - reflexivity.
  - cbn [or_str]. rewrite strip_trailing_slashes_clean by exact Hclean.
    reflexivity.
Qed.

(** X26. The directory that the restore step of [downloadProxy] ensures
    ([path.posix.dirname(path) || '/']) is the directory
    [CloudreveClient.uploadFile] then uploads into, for every path [d/name]
    with a non-empty, slash-free name whose directory part [d] is not the
    single slash. *)
Theorem restore_dir_is_upload_dir (d name : jsstring) :
  name <> [] -> ~ In slash name -> d <> [slash] ->
  or_str (Some (posix_dirname (d ++ lit "/" ++ name))) (lit "/")
  = Routes.parent_dir (d ++ lit "/" ++ name).
Proof.
  intros Hne Hns Hd. change (lit "/") with [slash].
  unfold Routes.parent_dir. cbn [app].
  rewrite strip_last_segment_cut by assumption.
  unfold posix_dirname.
  assert (Hpos : (1 <= List.length name)%nat)
    by (destruct name; [congruence | cbn; lia]).
  pose proof (@dirname_end_scan d name (List.length name) true Hns
                (conj Hpos (le_n _))) as Hscan.
  replace (List.length d + List.length name)%nat
    with (List.length (d ++ slash :: name) - 1)%nat in Hscan
    by (rewrite length_app; cbn [List.length]; lia).
  destruct d as [|c0 d'].
  - cbn [app] in *. rewrite Hscan. cbn [List.length].
    rewrite N.eqb_refl. reflexivity.
  - cbn [app] in *. rewrite Hscan. cbn [List.length].
    destruct (N.eqb c0 slash && Nat.eqb (S (List.length d')) 1) eqn:Hroot.
    + exfalso. apply andb_true_iff in Hroot. destruct Hroot as [Hc Hl].
      apply N.eqb_eq in Hc. apply Nat.eqb_eq in Hl.
      destruct d'; [subst c0; congruence | discriminate Hl].
    + cbn [firstn or_str]. f_equal.
      rewrite firstn_app, firstn_all, Nat.sub_diag.
      cbn [firstn]. apply app_nil_r.
Qed.

(* ================================================================== *)
(** * The further properties on concrete worlds                        *)
(* ================================================================== *)

Import Examples.

Lemma upsertMapping_lookup_witness :
  let run := Db.upsertMapping (env_of happy) rec_second
               {| w_db := [report_row 1]; w_ext := t0 |} in
  well_formed_record rec_second = true
  /\ (exists row,
        select_by_path (rec_path rec_second) (w_db (world_of run)) = Some row
        /\ cloudreve_path row = lit "/inbox/test.pdf"
        /\ telegram_file_id row = lit "tg-file-002"
        /\ has_local_cache row = 0)
  /\ select_by_path report_path (w_db (world_of run)) = Some (report_row 1).
Proof.
  intros run.
  pose proof (@upsertMapping_lookup Z (env_of happy) rec_second
                {| w_db := [report_row 1]; w_ext := t0 |} eq_refl) as H.
  fold run in H. rewrite (run_eta run) in H.
  destruct H as (_ & (row & Hs & Hp & _ & Htg & _ & _ & _ & _ & _ & Hc & _)
                   & Hframe).
  split; [reflexivity|]. split.
  - exists row. split; [exact Hs|]. split; [exact Hp|].
    split; [exact Htg | exact Hc].
  - rewrite (Hframe report_path); [reflexivity | reflexivity |].
    vm_compute. discriminate.
Defined.

Lemma writes_keep_unique_index_witness :
  unique_paths (w_db w_two)
  /\ unique_paths
       (w_db (world_of (Db.upsertMapping (env_of happy) rec_first w_two)))
  /\ unique_paths
       (w_db (world_of (Db.markCached (env_of happy) stuck_path w_two))).
Proof.
  assert (Hu : unique_paths (w_db w_two)).
  { repeat constructor; simpl; intuition discriminate. }
  destruct (@writes_keep_unique_index Z (env_of happy) rec_first stuck_path
              w_two Hu) as (H1 & _ & _ & H4).
  split; [exact Hu|]. split; [exact H1 | exact H4].
Defined.

Lemma touched_is_not_stale_witness :
  let w' := world_of (Db.touchMapping (env_of happy) report_path w_hot) in
  floor_secs (fst (date_now (env_of happy) (w_ext w')))
  - 0 <= floor_secs (fst (date_now (env_of happy) (w_ext w_hot)))
  /\ forall rows,
       result_of (Db.getStaleEntries (env_of happy) 0 w') = Ok rows ->
       ~ In (set_last_accessed 1700000000 (report_row 1)) rows.
Proof.
  intros w'.
  assert (Hle : floor_secs (fst (date_now (env_of happy) (w_ext w')))
                - 0 <= floor_secs (fst (date_now (env_of happy)
                                          (w_ext w_hot))))
    by (vm_compute; discriminate).
  split; [exact Hle|].
  exact (@touched_is_not_stale Z (env_of happy) report_path w_hot w' 0
           (set_last_accessed 1700000000 (report_row 1))
           eq_refl Hle eq_refl).
Defined.

Lemma downloadProxy_not_found_witness :
  select_by_path report_path (w_db w_empty) = None
  /\ Sync.downloadProxy (env_of happy) report_path w_empty
     = (Throw {| err_message :=
                   lit "No mapping found for path: " ++ report_path;
                 err_status := Some 404 |},
        w_empty, []).
Proof.
  split; [reflexivity|].
  exact (@downloadProxy_not_found Z (env_of happy) report_path w_empty
           eq_refl).
Defined.

Lemma downloadProxy_counts_access_witness :
  select_by_path report_path (w_db w_cold) = Some (report_row 0)
  /\ let '(r, w', evs) :=
       Sync.downloadProxy (env_of flaky) report_path w_cold in
     hd_error evs = Some (EvDateNow (fst (date_now (env_of flaky)
                                            (w_ext w_cold))))
     /\ exists ms row',
          In (EvDateNow ms) evs
          /\ select_by_path report_path (w_db w') = Some row'
          /\ last_accessed row' = floor_secs ms.
Proof.
  split; [reflexivity|].
  exact (@downloadProxy_counts_access Z (env_of flaky) report_path w_cold
           (report_row 0) eq_refl).
Defined.

Lemma downloadProxy_throws_only_witness :
  let run := Sync.downloadProxy (env_of flaky) report_path w_cold in
  result_of run = Throw boom
  /\ exists mapping,
       select_by_path report_path (w_db w_cold) = Some mapping
       /\ In (EvTgDownloadFile (telegram_file_id mapping) (Throw boom))
             (trace_of run).
Proof.
  intros run.
  assert (Hrun : run = (Throw boom, world_of run, trace_of run))
    by (vm_compute; reflexivity).
  split; [vm_compute; reflexivity|].
  destruct (@downloadProxy_throws_only Z (env_of flaky) report_path w_cold
              (world_of run) boom (trace_of run) Hrun)
    as [(Hn & _) | (mapping & Hs & Hin & _)].
  - discriminate Hn.
  - exists mapping. split; [exact Hs | exact Hin].
Defined.

Lemma downloadProxy_falls_back_witness :
  let run := Sync.downloadProxy (env_of flaky) report_path w_hot_later in
  select_by_path report_path (w_db w_hot_later) = Some (report_row 1)
  /\ In (EvCrDownloadFile (Some (lit "cf-1")) (Throw boom)) (trace_of run)
  /\ exists res,
       In (EvTgDownloadFile (lit "sec-42") res) (trace_of run)
       /\ match res with
          | Ok dl =>
              result_of run
              = Ok {| Sync.out_buffer   := dl_buffer dl;
                      Sync.out_fileName := Some (lit "report.pdf");
                      Sync.out_mimeType := lit "text/plain" |}
          | Throw e => result_of run = Throw e
          end.
Proof.
  intros run.
  assert (Hs : select_by_path report_path (w_db w_hot_later)
               = Some (report_row 1)) by reflexivity.
  assert (Hfail : forall id resp buf,
            In (EvCrDownloadFile id (Ok resp)) (trace_of run) ->
            ok resp = true -> body resp <> Ok buf).
  { intros id resp buf Hin. vm_compute in Hin.
    repeat (destruct Hin as [Hin|Hin]; [discriminate Hin|]).
    destruct Hin. }
  split; [exact Hs|]. split; [vm_compute; auto 10|].
  exact (@downloadProxy_falls_back Z (env_of flaky) report_path w_hot_later
           (world_of run) (report_row 1) (result_of run) (trace_of run)
           Hs (run_eta run) Hfail).
Defined.

Lemma downloadProxy_cold_path_witness :
  let evs := snd (Sync.downloadProxy (env_of happy) report_path w_cold) in
  select_by_path report_path (w_db w_cold) = Some (report_row 0)
  /\ has_local_cache (report_row 0) = 0
  /\ (forall id res, ~ In (EvCrDownloadFile id res) evs)
  /\ exists res,
       nth_error evs 1 = Some (EvTgDownloadFile (lit "sec-42") res).
Proof.
  intros evs. split; [reflexivity|]. split; [reflexivity|].
  exact (@downloadProxy_cold_path Z (env_of happy) report_path w_cold
           (report_row 0) eq_refl eq_refl).
Defined.

Lemma importFromTelegram_success_witness :
  let run := Sync.importFromTelegram (env_of happy) cfg import_opts w_empty in
  Sync.well_formed_import cfg import_opts = true
  /\ exists res,
    result_of run = Ok res
    /\ Sync.res_cloudreve_path res = report_path
    /\ exists row,
         select_by_path report_path (w_db (world_of run)) = Some row
         /\ telegram_file_id row = Sync.tgFileId res.
Proof.
  intros run.
  assert (Hrun : run = (Ok {| Sync.res_cloudreve_path := report_path;
                              Sync.tgFileId := lit "sec-42";
                              Sync.directLink :=
                                lit "http://cloudreve:5212/s/TelegramInbox/report.pdf" |},
                        world_of run, trace_of run))
    by (vm_compute; reflexivity).
  destruct (@importFromTelegram_success Z (env_of happy) cfg import_opts
              w_empty (world_of run) _ (trace_of run) eq_refl Hrun)
    as (Hp & _ & row & Hs & Hid & _).
  split; [reflexivity|].
  eexists. split; [vm_compute; reflexivity|].
  split; [exact Hp|]. exists row. split; [exact Hs | exact Hid].
Defined.

Lemma importFromTelegram_failure_witness :
  let run := Sync.importFromTelegram (env_of flaky) cfg import_opts w_empty in
  result_of run = Throw boom
  /\ w_db (world_of run) = w_db w_empty
  /\ select_by_path report_path (w_db (world_of run)) = None.
Proof.
  intros run.
  assert (Hrun : run = (Throw boom, world_of run, trace_of run))
    by (vm_compute; reflexivity).
  destruct (@importFromTelegram_failure Z (env_of flaky) cfg import_opts
              w_empty (world_of run) boom (trace_of run) Hrun)
    as (Hdb & Hn & _).
  split; [vm_compute; reflexivity|]. split; [exact Hdb | exact Hn].
Defined.

Lemma runEviction_clean_pass_witness :
  let run := Cache.runEviction (env_of happy) cfg w_two in
  unique_paths (w_db w_two)
  /\ result_of run = Ok {| Cache.evicted := 2; Cache.errors := 0 |}
  /\ select_stale (floor_secs t0 - 7 * 24 * 60 * 60) (w_db (world_of run))
     = [].
Proof.
  intros run.
  assert (Hu : unique_paths (w_db w_two)).
  { repeat constructor; simpl; intuition discriminate. }
  assert (Hrun : run = (Ok {| Cache.evicted := 2; Cache.errors := 0 |},
                        world_of run, trace_of run))
    by (vm_compute; reflexivity).
  destruct (@runEviction_clean_pass Z (env_of happy) cfg w_two (world_of run)
              _ (trace_of run) Hu Hrun eq_refl) as (Hnone & _).
  split; [exact Hu|]. split; [vm_compute; reflexivity | exact Hnone].
Defined.

Lemma extractMedia_photo_witness :
  Bot.photo photo_message = Some [small_photo; big_photo; unsized_photo]
  /\ exists media ph,
       fst (fst (Bot.extractMedia (env_of happy) (Some photo_message)
                   w_empty)) = Ok (Some media)
       /\ In ph [small_photo; big_photo; unsized_photo]
       /\ Bot.media_fileId media = Bot.ph_file_id ph
       /\ Bot.media_mimeType media = lit "image/jpeg"
       /\ Bot.media_fileName media = lit "photo_77.jpg".
Proof.
  split; [reflexivity|].
  destruct (@extractMedia_photo Z (env_of happy) photo_message small_photo
              [big_photo; unsized_photo] w_empty eq_refl)
    as (media & ph & Hr & Hin & Hid & _ & _ & Hmime & Hname).
  exists media, ph. repeat (split; [assumption|]). apply Hname.
  vm_compute. discriminate.
Defined.

Lemma extractMedia_first_candidate_witness :
  Bot.has_photo video_message = false
  /\ Bot.candidates
     = firstn 1 Bot.candidates ++ video_candidate :: skipn 2 Bot.candidates
  /\ fst (fst (Bot.extractMedia (env_of happy) (Some video_message) w_empty))
     = Ok (Some {| Bot.media_fileId   := lit "vid-1";
                   Bot.media_fileName := lit "video_78.mp4";
                   Bot.media_mimeType := lit "video/mp4";
                   Bot.media_fileSize := 10 |}).
Proof.
  split; [reflexivity|]. split; [reflexivity|].
  exact (@extractMedia_first_candidate Z (env_of happy) video_message
           (firstn 1 Bot.candidates) (skipn 2 Bot.candidates)
           video_candidate bare_video (lit "vid-1") w_empty
           eq_refl eq_refl eq_refl eq_refl eq_refl
           (fun H => @nil_cons N _ _ (eq_sym H))
           (fun _ => ltac:(vm_compute; discriminate))).
Defined.

Lemma handleUpdate_ignores_witness :
  Bot.has_media (Bot.message_of (Some text_update)) = false
  /\ Bot.handleUpdate mute_bot cfg (Some text_update) w_empty
     = (Ok tt, w_empty, []).
Proof.
  split; [reflexivity|].
  exact (@handleUpdate_ignores Z mute_bot cfg (Some text_update) w_empty
           eq_refl).
Defined.

Lemma handleUpdate_reports_witness :
  Bot.message_of (Some video_update) = Some video_message
  /\ Bot.has_media (Some video_message) = true
  /\ fst (fst (Bot.handleUpdate mute_bot cfg (Some video_update) w_empty))
     = Ok tt
  /\ List.length
       (Bot.sent (snd (Bot.handleUpdate mute_bot cfg (Some video_update)
                         w_empty))) = 2%nat.
Proof.
  pose proof (@handleUpdate_reports Z mute_bot cfg (Some video_update)
                video_message w_empty eq_refl eq_refl) as H.
  destruct (Bot.handleUpdate mute_bot cfg (Some video_update) w_empty)
    as [[r w'] evs] eqn:Hrun.
  destruct H as (Hr & _).
  split; [reflexivity|]. split; [reflexivity|]. split; [exact Hr|].
  cbn [snd]. vm_compute in Hrun. inversion Hrun. reflexivity.
Defined.

Lemma parent_dir_join_witness :
  lit "report.pdf" <> []
  /\ ~ In slash (lit "report.pdf")
  /\ Routes.parent_dir report_path = lit "/TelegramInbox"
  /\ Sync.join_path (Routes.parent_dir report_path) (lit "report.pdf")
     = report_path.
Proof.
  assert (Hne : lit "report.pdf" <> []) by discriminate.
  assert (Hns : ~ In slash (lit "report.pdf"))
    by (vm_compute; intuition discriminate).
  destruct (@parent_dir_join (lit "/TelegramInbox") (lit "/TelegramInbox")
              (lit "report.pdf") Hne Hns) as (H1 & _ & _ & H4).
  split; [exact Hne|]. split; [exact Hns|]. split; [exact H1|].
  apply H4. intros r Hr.
  assert (Hlast : last (lit "/TelegramInbox") 0%N = last (r ++ [slash]) 0%N)
    by (rewrite Hr; reflexivity).
  rewrite last_last in Hlast. vm_compute in Hlast. discriminate Hlast.
Defined.

Lemma restore_dir_is_upload_dir_witness :
  lit "/TelegramInbox" <> [slash]
  /\ or_str (Some (posix_dirname report_path)) (lit "/")
     = Routes.parent_dir report_path.
Proof.
  assert (Hd : lit "/TelegramInbox" <> [slash]) by discriminate.
  split; [exact Hd|].
  refine (@restore_dir_is_upload_dir (lit "/TelegramInbox")
            (lit "report.pdf") _ _ Hd).
  - discriminate.
  - vm_compute. intuition discriminate.
Defined.
